(** * The matrix library of quinston/matrix: Matrix, MatrixView and their algebra

    Shallow embedding of [src/Matrix.cpp] and [src/MatrixView.cpp].

    - A [Matrix] is the private [_Matrix] record: a [std::map] from 1-based
      coordinate pairs to doubles, plus the declared width and height.
    - Matrix objects that views alias live in a heap of locations; a
      temporary Matrix nobody aliases is a plain value ([SVal]).
    - A [MatrixView] is its head row and column, its width and height and the
      Matrix it reads and writes through.
    - The arithmetic of [double] is kept abstract in the class [Double]; the
      class also fixes what printing a double to a [std::stringstream] with
      the default format and reading it back with [operator>>] yields. The
      rationals with rounding to 6 significant digits are an instance, used
      for concrete runs on values whose double arithmetic is exact.
    - Exceptions are the [error] type; a mutating operation runs in a state
      monad over the heap that keeps the writes done before a throw, as C++
      does for in-place mutation. *)

From Stdlib Require Import ZArith QArith Qabs Lia String Ascii.
From stdpp Require Import base numbers gmap list.

(** ** Doubles *)

Class Double (R : Type) := {
  d_of_Z : Z -> R;              (** int -> double conversion *)
  d_add : R -> R -> R;
  d_sub : R -> R -> R;
  d_mul : R -> R -> R;
  d_div : R -> R -> R;
  d_eqb : R -> R -> bool;       (** [operator==] on doubles *)
  d_parses : R -> bool;         (** [operator>>] accepts what [operator<<] printed
                                    (false for inf and nan) *)
  d_print : R -> R              (** the value [operator>>] reads back from what
                                    [operator<<] printed (6 significant digits) *)
}.

(** ** Coordinates: [coord_t] and [dimens_t] are [unsigned long long] *)

Definition word : N := 2 ^ 64.
Definition wrap (x : N) : N := x mod word.

(** [head + r - 1] in [coord_t] arithmetic, for [head, r < 2^64]. *)
Definition translate (head r : N) : N := wrap (head + r + (word - 1)).

(** [c2 - c1 + 1] in [dimens_t] arithmetic. *)
Definition extent (c1 c2 : N) : N := wrap (c2 + (word - c1) + 1).

(** The loop [for (coord_t i = 1; i <= n; ++i)]. *)
Definition range1 (n : N) : list N := map N.of_nat (seq 1 (N.to_nat n)).

(** ** Exceptions, one per throw site of the library *)

Inductive error :=
| out_of_range          (** std::out_of_range from std::map::at, std::string::substr
                            or std::stoll *)
| nonuniform_width      (** invalid_argument "Matrix must have uniform width." *)
| unlike_dimensions     (** invalid_argument "Operands must have like dimensions." *)
| product_mismatch      (** invalid_argument "Right operand must have as many rows ..." *)
| view_outside          (** invalid_argument "The view's dimensions extend outside ..." *)
| view_assign_mismatch  (** invalid_argument "Assignment to MatrixView requires ..." *)
| vcat_mismatch         (** invalid_argument "Can't vertically concatenate ..." *)
| hcat_mismatch         (** invalid_argument "Can't horizontally concatenate ..." *)
| address_incorrect     (** invalid_argument "Address format incorrect: ..." *)
| stoll_invalid         (** invalid_argument thrown by std::stoll *)
| nonsquare             (** domain_error "Can't compute determinant of nonsquare ..." *)
| not_invertible        (** domain_error "Matrix not invertible." *)
| undefined_behaviour.  (** std::generate from coords.begin() + 1 past the end *)

Global Instance error_eq_dec : EqDecision error.
Proof. solve_decision. Defined.

Global Instance exc_ret : MRet (sum error) := fun A x => inr x.
Global Instance exc_bind : MBind (sum error) :=
  fun A B f m => match m with inl e => inl e | inr x => f x end.

Definition of_option {A} (o : option A) : error + A :=
  match o with Some x => inr x | None => inl out_of_range end.

(** ** A state monad whose exceptions keep the state reached at the throw *)

Definition StM (S A : Type) : Type := S -> S * (error + A).

Definition st_ret {S A} (x : A) : StM S A := fun s => (s, inr x).

Definition st_bind {S A B} (m : StM S A) (f : A -> StM S B) : StM S B :=
  fun s => match m s with
           | (s', inl e) => (s', inl e)
           | (s', inr x) => f x s'
           end.

Definition st_lift {S A} (e : error + A) : StM S A := fun s => (s, e).

Definition st_get {S} : StM S S := fun s => (s, inr s).

Notation "x <~ m ;; k" := (st_bind m (fun x => k))
  (at level 64, m at next level, right associativity).
Notation "m ;;; k" := (st_bind m (fun _ => k))
  (at level 64, right associativity).

(** A [for] loop over a list of indices. *)
Fixpoint st_for {S A} (l : list A) (body : A -> StM S unit) : StM S unit :=
  match l with
  | [] => st_ret tt
  | x :: l' => body x ;;; st_for l' body
  end.

(** ** The row/column addressor [operator>(const Matrix&, const std::string&)] *)

(** [std::isspace] in the "C" locale. *)
Definition is_space (a : ascii) : bool :=
  match nat_of_ascii a with
  | 32 | 9 | 10 | 11 | 12 | 13 => true
  | _ => false
  end%nat.

Fixpoint skip_space (s : string) : string :=
  match s with
  | String a t => if is_space a then skip_space t else s
  | EmptyString => s
  end.

Definition digit_value (a : ascii) : option Z :=
  let n := nat_of_ascii a in
  if (48 <=? n)%nat && (n <=? 57)%nat then Some (Z.of_nat n - 48)%Z else None.

(** The leading decimal digits and their value. *)
Fixpoint digits (s : string) (acc : Z) (seen : bool) : option Z :=
  match s with
  | String a t =>
      match digit_value a with
      | Some d => digits t (10 * acc + d)%Z true
      | None => if seen then Some acc else None
      end
  | EmptyString => if seen then Some acc else None
  end.

(** [std::stoll(str)]: optional sign and base-10 digits after leading
    white space; [invalid_argument] without digits, [out_of_range] beyond
    [long long]. *)
Definition stoll (s : string) : error + Z :=
  let s' := skip_space s in
  let '(neg, body) := match s' with
                      | String "-" t => (true, t)
                      | String "+" t => (false, t)
                      | _ => (false, s')
                      end in
  match digits body 0 false with
  | None => inl stoll_invalid
  | Some v =>
      if neg then (if (2 ^ 63 <? v)%Z then inl out_of_range else inr (- v)%Z)
      else (if (2 ^ 63 - 1 <? v)%Z then inl out_of_range else inr v)
  end.

Section Library.
Context {R : Type} `{Double R}.

(** ** Matrix: the private [_Matrix] *)

Record Matrix := mkMatrix {
  numbers : gmap (N * N) R;
  mwidth : N;
  mheight : N
}.

Definition empty_matrix : Matrix := mkMatrix ∅ 0 0.

(** Every declared cell is stored and nothing else is. *)
Definition wf (m : Matrix) : Prop :=
  map_Forall (fun k _ => (1 <= k.1 <= mheight m)%N /\ (1 <= k.2 <= mwidth m)%N) (numbers m) /\
  Forall (fun k => is_Some (numbers m !! k)) (list_prod (range1 (mheight m)) (range1 (mwidth m))).

Global Instance wf_dec (m : Matrix) : Decision (wf m).
Proof. unfold wf. apply _. Defined.

(** [std::map::insert]: keeps an existing entry. *)
Definition map_insert_new (k : N * N) (x : R) (m : gmap (N * N) R) :=
  match m !! k with Some _ => m | None => <[k := x]> m end.

(** ** Objects: a Matrix in the heap, a temporary Matrix, or a view *)

Inductive src := SLoc (l : N) | SVal (m : Matrix).

Record View := mkView {
  operand : src;
  headRow : N;
  headColumn : N;
  vwidth : N;
  vheight : N
}.

Inductive obj := OMat (s : src) | OView (v : View).

Abbreviation heap := (gmap N Matrix).

Definition deref (h : heap) (s : src) : option Matrix :=
  match s with SLoc l => h !! l | SVal m => Some m end.

(** The virtual [width()] and [height()]. *)
Definition obj_width (h : heap) (o : obj) : N :=
  match o with
  | OMat s => from_option mwidth 0%N (deref h s)
  | OView v => vwidth v
  end.

Definition obj_height (h : heap) (o : obj) : N :=
  match o with
  | OMat s => from_option mheight 0%N (deref h s)
  | OView v => vheight v
  end.

(** The key of the underlying map that cell (r, c) of the object denotes. *)
Definition obj_key (o : obj) (r c : N) : N * N :=
  match o with
  | OMat _ => (r, c)
  | OView v => (translate (headRow v) r, translate (headColumn v) c)
  end.

Definition obj_src (o : obj) : src :=
  match o with OMat s => s | OView v => operand v end.

(** The virtual [operator()(r, c) const]: [d->numbers.at({r, c})], through
    the view's translation for a view. *)
Definition obj_at (h : heap) (o : obj) (r c : N) : option R :=
  m ← deref h (obj_src o); numbers m !! obj_key o r c.

Definition read_cell (h : heap) (o : obj) (r c : N) : error + R :=
  of_option (obj_at h o r c).

(** [MatrixView(matrix, r1, c1, r2, c2)]. A view of a view reads through
    the inner view: the translations compose, so the new view is stored
    over the inner view's Matrix with the composed head. *)
Definition make_view (h : heap) (o : obj) (r1 c1 r2 c2 : N) : error + View :=
  if (obj_height h o <? r1)%N || (obj_height h o <? r2)%N
     || (obj_width h o <? c1)%N || (obj_width h o <? c2)%N
  then inl view_outside
  else inr (mkView (obj_src o) (fst (obj_key o r1 c1)) (snd (obj_key o r1 c1))
                   (extent c1 c2) (extent r1 r2)).

(** ** Text streams *)

(** What [operator<<] put between two tabs: a double, or an int literal. *)
Inductive token := TDouble (x : R) | TInt (z : Z).

Definition parse_token (t : token) : option R :=
  match t with
  | TDouble x => if d_parses x then Some (d_print x) else None
  | TInt z => Some (d_of_Z z)
  end.

(** [for (double a; iss >> a;)]: reads until the first failure. *)
Fixpoint parse_line (l : list token) : list R :=
  match l with
  | [] => []
  | t :: l' => match parse_token t with
               | Some x => x :: parse_line l'
               | None => []
               end
  end.

Fixpoint insert_row (row col : N) (xs : list R) (m : gmap (N * N) R) :=
  match xs with
  | [] => m
  | x :: xs' => insert_row row (col + 1) xs' (map_insert_new (row, col) x m)
  end.

(** [Matrix(std::istream&)]: lines up to the first empty one. *)
Fixpoint read_rows (ls : list (list token)) (m : Matrix) : error + Matrix :=
  match ls with
  | [] => inr m
  | [] :: _ => inr m
  | l :: ls' =>
      let hgt := (mheight m + 1)%N in
      let xs := parse_line l in
      let k := N.of_nat (length xs) in
      let nums := insert_row hgt 1 xs (numbers m) in
      if (mwidth m =? 0)%N then read_rows ls' (mkMatrix nums k hgt)
      else if (mwidth m =? k)%N then read_rows ls' (mkMatrix nums (mwidth m) hgt)
      else inl nonuniform_width
  end.

Definition from_stream (ls : list (list token)) : error + Matrix :=
  read_rows ls empty_matrix.

(** Reading the cells [(r, c)] for [c] in [cs], as a line of tokens. *)
Definition read_line (h : heap) (o : obj) (cells : list (N * N)) : error + list token :=
  mapM (fun rc => x ← read_cell h o (fst rc) (snd rc); mret (TDouble x)) cells.

(** [transposed()]: column c becomes line c. *)
Definition transposed (h : heap) (o : obj) : error + Matrix :=
  ls ← mapM (fun c => read_line h o (map (fun r => (r, c)) (range1 (obj_height h o))))
            (range1 (obj_width h o));
  from_stream ls.

Definition row_lines (h : heap) (o : obj) : error + list (list token) :=
  mapM (fun r => read_line h o (map (fun c => (r, c)) (range1 (obj_width h o))))
       (range1 (obj_height h o)).

(** [operator/ (lhs, rhs)]: vertical concatenation. *)
Definition vcat (h : heap) (l r : obj) : error + Matrix :=
  if negb (obj_width h l =? obj_width h r)%N then inl vcat_mismatch
  else ls1 ← row_lines h l; ls2 ← row_lines h r; from_stream (ls1 ++ ls2).

(** [operator| (lhs, rhs)] = [(lhs.transposed() / rhs.transposed()).transposed()]. *)
Definition hcat (h : heap) (l r : obj) : error + Matrix :=
  if negb (obj_height h l =? obj_height h r)%N then inl hcat_mismatch
  else lt ← transposed h l; rt ← transposed h r;
       v ← vcat h (OMat (SVal lt)) (OMat (SVal rt));
       transposed h (OMat (SVal v)).

(** [Matrix::identity(dimension)]: row r is r - 1 zeroes, a one, and
    dimension - r zeroes, all printed as ints. *)
Definition identity_line (n r : N) : list token :=
  replicate (N.to_nat (r - 1)) (TInt 0) ++ [TInt 1] ++ replicate (N.to_nat (n - r)) (TInt 0).

Definition identity (n : N) : error + Matrix :=
  from_stream (map (identity_line n) (range1 n)).

(** A left fold that stops at the first exception. *)
Fixpoint fold_exc {A B : Type} (f : A -> B -> error + A) (acc : A) (l : list B) : error + A :=
  match l with
  | [] => inr acc
  | x :: l' => acc' ← f acc x; fold_exc f acc' l'
  end.

(** [Matrix(const Matrix&)] and [Matrix::operator=]: copies the declared
    cells, read through the virtual [operator()]. *)
Definition copy_obj (h : heap) (o : obj) : error + Matrix :=
  let w := obj_width h o in
  let hg := obj_height h o in
  nums ← fold_exc (fun mp rc => x ← read_cell h o (fst rc) (snd rc); mret (<[rc := x]> mp))
                  ∅ (list_prod (range1 hg) (range1 w));
  mret (mkMatrix nums w hg).

(** [Matrix::operator*=(double)] on a Matrix value:
    [this(r, c) *= rhs] over the declared cells. *)
Definition scale_val (m : Matrix) (k : R) : error + Matrix :=
  nums ← fold_exc (fun mp rc => x ← of_option (mp !! rc); mret (<[rc := d_mul x k]> mp))
                  (numbers m) (list_prod (range1 (mheight m)) (range1 (mwidth m)));
  mret (mkMatrix nums (mwidth m) (mheight m)).

(** [Matrix::operator*(double) const] and [operator*(double, const Matrix&)]:
    [Matrix tmp = *this; tmp *= rhs]. *)
Definition scalar_mul (h : heap) (o : obj) (k : R) : error + Matrix :=
  tmp ← copy_obj h o; scale_val tmp k.

(** [Matrix::operator-() const]: [this * -1]. *)
Definition negate (h : heap) (o : obj) : error + Matrix :=
  scalar_mul h o (d_of_Z (-1)).

(** [Matrix::operator*=(const Matrix&)] on the Matrix value [tmp]: each cell
    is the dot product of row r of [tmp] (a view) with column c of [rhs]
    transposed, printed to a stream; the stream is read back as the result,
    which [*this = tmp] copies. *)
Definition dot_cell (h : heap) (tmp : Matrix) (rhs : obj) (r c : N) : error + token :=
  leftRow ← make_view h (OMat (SVal tmp)) r 1 r (mwidth tmp);
  col ← make_view h rhs 1 c (obj_height h rhs) c;
  rightTransposedColumn ← transposed h (OView col);
  num ← fold_exc (fun acc i =>
           x ← read_cell h (OView leftRow) 1 i;
           y ← read_cell h (OMat (SVal rightTransposedColumn)) 1 i;
           mret (d_add acc (d_mul x y)))
         (d_of_Z 0) (range1 (mwidth tmp));
  mret (TDouble num).

Definition mult_assign (h : heap) (tmp : Matrix) (rhs : obj) : error + Matrix :=
  if negb (mwidth tmp =? obj_height h rhs)%N then inl product_mismatch
  else ls ← mapM (fun r => mapM (fun c => dot_cell h tmp rhs r c) (range1 (obj_width h rhs)))
                 (range1 (mheight tmp));
       res ← from_stream ls;
       copy_obj h (OMat (SVal res)).

(** [Matrix::operator*(const Matrix&) const]: [Matrix tmp = *this; tmp *= rhs]. *)
Definition mat_mult (h : heap) (lhs rhs : obj) : error + Matrix :=
  tmp ← copy_obj h lhs; mult_assign h tmp rhs.

(** ** Determinant *)

(** The lambda [sgn] of [_Matrix::determinant]. *)
Definition sgn (columnNo : N) : Z := if N.even columnNo then (-1)%Z else 1%Z.

(** The term of column [columnNo] in the first-row expansion of the
    [sideLength] x [sideLength] object [o], given the public
    [determinant()] for the minors. *)
Definition det_term (det : obj -> error + R) (h : heap) (o : obj) (sideLength columnNo : N)
  : error + R :=
  if (columnNo =? 1)%N then
    a ← read_cell h o 1 columnNo;
    v ← make_view h o 2 2 sideLength sideLength;
    m ← det (OView v);
    mret (d_mul a m)
  else if (columnNo =? sideLength)%N then
    a ← read_cell h o 1 columnNo;
    v ← make_view h o 2 1 sideLength (sideLength - 1);
    m ← det (OView v);
    mret (d_mul (d_mul (d_of_Z (sgn columnNo)) a) m)
  else
    a ← read_cell h o 1 columnNo;
    v1 ← make_view h o 2 1 sideLength (columnNo - 1);
    v2 ← make_view h o 2 (columnNo + 1) sideLength sideLength;
    mn ← hcat h (OView v1) (OView v2);
    m ← det (OMat (SVal mn));
    mret (d_mul (d_mul (d_of_Z (sgn columnNo)) a) m).

(** [Matrix::determinant()] (the squareness check) around
    [_Matrix::determinant]. The fuel bounds the depth of the recursion: it
    starts at the side length plus one and every minor is narrower. *)
Fixpoint det_fuel (fuel : nat) (h : heap) (o : obj) : error + R :=
  match fuel with
  | O => inl undefined_behaviour
  | S fuel' =>
      if negb (obj_width h o =? obj_height h o)%N then inl nonsquare
      else
        let sideLength := obj_width h o in
        if (sideLength =? 1)%N then read_cell h o 1 1
        else if (sideLength =? 2)%N then
          a ← read_cell h o 1 1; b ← read_cell h o 2 2;
          c ← read_cell h o 1 2; d ← read_cell h o 2 1;
          mret (d_sub (d_mul a b) (d_mul c d))
        else if (sideLength =? 0)%N then inl undefined_behaviour
        else
          fold_exc (fun acc columnNo =>
                      t ← det_term (det_fuel fuel' h) h o sideLength columnNo;
                      mret (d_add acc t))
                   (d_of_Z 0) (range1 sideLength)
  end.

Definition determinant (h : heap) (o : obj) : error + R :=
  det_fuel (S (N.to_nat (obj_width h o))) h o.

(** ** Mutation through Matrix and MatrixView objects *)

Definition M := StM heap.

(** The non-const [operator()(r, c)]: [at] finds the double, [f] updates it
    in place. A write into a temporary Matrix is not observable and is
    dropped. *)
Definition modify_at (o : obj) (r c : N) (f : R -> R) : M unit := fun h =>
  let k := obj_key o r c in
  match obj_src o with
  | SLoc l =>
      match h !! l with
      | Some m =>
          match numbers m !! k with
          | Some x => (<[l := mkMatrix (<[k := f x]> (numbers m)) (mwidth m) (mheight m)]> h, inr tt)
          | None => (h, inl out_of_range)
          end
      | None => (h, inl out_of_range)
      end
  | SVal m =>
      match numbers m !! k with
      | Some _ => (h, inr tt)
      | None => (h, inl out_of_range)
      end
  end.

(** [this(r, c) = x]. *)
Definition write_at (o : obj) (r c : N) (x : R) : M unit :=
  modify_at o r c (fun _ => x).

(** [Matrix::setAt(r, c, matrix)]: cell by cell, without a prior check. *)
Definition setAt (o : obj) (r c : N) (sub : obj) : M unit :=
  h <~ st_get ;;
  st_for (range1 (obj_height h sub)) (fun rOff =>
    st_for (range1 (obj_width h sub)) (fun cOff =>
      h' <~ st_get ;;
      x <~ st_lift (read_cell h' sub rOff cOff) ;;
      write_at o (translate r rOff) (translate c cOff) x)).

(** [MatrixView::operator=(const Matrix&)]. *)
Definition view_assign (v : View) (rhs : obj) : M unit :=
  h <~ st_get ;;
  if (vwidth v =? obj_width h rhs)%N && (vheight v =? obj_height h rhs)%N
  then setAt (OView v) 1 1 rhs
  else st_lift (inl view_assign_mismatch).

(** [Matrix::operator/=(double)]. *)
Definition divide_assign (o : obj) (k : R) : M unit :=
  h <~ st_get ;;
  st_for (range1 (obj_height h o)) (fun r =>
    st_for (range1 (obj_width h o)) (fun c =>
      modify_at o r c (fun x => d_div x k))).

(** [Matrix::operator+=(const Matrix&)]. *)
Definition add_assign (o : obj) (rhs : obj) : M unit :=
  h <~ st_get ;;
  if (obj_width h o =? obj_width h rhs)%N && (obj_height h o =? obj_height h rhs)%N
  then st_for (range1 (obj_height h o)) (fun r =>
         st_for (range1 (obj_width h o)) (fun c =>
           h' <~ st_get ;;
           y <~ st_lift (read_cell h' rhs r c) ;;
           modify_at o r c (fun x => d_add x y)))
  else st_lift (inl unlike_dimensions).

(** [Matrix::operator-=(const Matrix&)]: [*this += -rhs]. *)
Definition sub_assign (o : obj) (rhs : obj) : M unit :=
  h <~ st_get ;;
  n <~ st_lift (negate h rhs) ;;
  add_assign o (OMat (SVal n)).

(** A new local Matrix object. *)
Definition alloc (m : Matrix) : M N := fun h =>
  let l := fresh (dom h) in (<[l := m]> h, inr l).

(** [o > "R" + std::to_string(r)]: the row view [MatrixView(o, r, 1, r, o.width())]. *)
Definition row_view (h : heap) (o : obj) (r : N) : error + View :=
  make_view h o r 1 r (obj_width h o).

(** [operator std::string()]: reads every declared cell. *)
Definition string_form (m : Matrix) : error + unit :=
  _ ← row_lines ∅ (OMat (SVal m)); mret tt.

(** [Matrix::inverse() const]: Gauss-Jordan elimination on the local copies
    [tmp] and [inverse], through row views; the loops run to [height()] of
    the receiver. *)
Definition inverse (o : obj) : M Matrix :=
  h <~ st_get ;;
  d <~ st_lift (determinant h o) ;;
  if d_eqb d (d_of_Z 0) then st_lift (inl not_invertible) else
  _ <~ st_lift (determinant h o) ;;
  tmpm <~ st_lift (copy_obj h o) ;;
  tmp <~ alloc tmpm ;;
  idm <~ st_lift (identity (obj_width h o)) ;;
  inv <~ alloc idm ;;
  st_for (range1 (obj_height h o)) (fun r =>
    h1 <~ st_get ;;
    originalRow <~ st_lift (row_view h1 (OMat (SLoc tmp)) r) ;;
    inverseRow <~ st_lift (row_view h1 (OMat (SLoc inv)) r) ;;
    toDivide <~ st_lift (read_cell h1 (OMat (SLoc tmp)) r r) ;;
    divide_assign (OView originalRow) toDivide ;;;
    divide_assign (OView inverseRow) toDivide ;;;
    st_for (range1 (obj_height h o)) (fun r2 =>
      h2 <~ st_get ;;
      shown <~ st_lift (hcat h2 (OMat (SLoc tmp)) (OMat (SLoc inv))) ;;
      _ <~ st_lift (string_form shown) ;;
      if (r2 =? r)%N then st_ret tt else
      h3 <~ st_get ;;
      toMultiply <~ st_lift (read_cell h3 (OMat (SLoc tmp)) r2 r) ;;
      v <~ st_lift (row_view h3 (OMat (SLoc tmp)) r2) ;;
      p <~ st_lift (scalar_mul h3 (OView originalRow) toMultiply) ;;
      sub_assign (OView v) (OMat (SVal p)) ;;;
      h4 <~ st_get ;;
      w <~ st_lift (row_view h4 (OMat (SLoc inv)) r2) ;;
      q <~ st_lift (scalar_mul h4 (OView inverseRow) toMultiply) ;;
      sub_assign (OView w) (OMat (SVal q)))) ;;;
  h5 <~ st_get ;;
  st_lift (copy_obj h5 (OMat (SLoc inv))).

(** [coord_t number = std::stoll(rhs.substr(1))], then the switch on
    [rhs.at(0)]. *)
Definition address (h : heap) (lhs : obj) (rhs : string) : error + View :=
  match rhs with
  | EmptyString => inl out_of_range
  | String ch rest =>
      number ← stoll rest;
      let n := Z.to_N (number mod 2 ^ 64) in
      if Ascii.eqb ch "R" then make_view h lhs n 1 n (obj_width h lhs)
      else if Ascii.eqb ch "C" then make_view h lhs 1 n (obj_height h lhs) n
      else inl address_incorrect
  end.

(** ** Reading aids for the statements *)

(** The value that [operator>>] reads for cell (i, j) of the lines [ls]. *)
Definition line_cell (ls : list (list token)) (i j : N) : option R :=
  (ls !! N.to_nat (i - 1) ≫= fun l => l !! N.to_nat (j - 1)) ≫= parse_token.

(** The determinant in the words of the specification: the first-row
    cofactor expansion, [a11] for 1 x 1, [a11 a22 - a12 a21] for 2 x 2, and
    the left-to-right sum from 0 of [sgn(j) a1j M1j] otherwise, with
    [sgn(j) = +1] for odd [j] and [-1] for even [j], and [M1j] the
    determinant of the minor without row 1 and column j. *)
Fixpoint cofactor_det (n : nat) (a : N -> N -> R) : R :=
  match n with
  | 0 => d_of_Z 0
  | 1 => a 1%N 1%N
  | 2 => d_sub (d_mul (a 1%N 1%N) (a 2%N 2%N)) (d_mul (a 1%N 2%N) (a 2%N 1%N))
  | S n' =>
      fold_left (fun acc j =>
          let minor := fun i k => a (i + 1)%N (if (k <? j)%N then k else (k + 1)%N) in
          d_add acc (d_mul (d_mul (d_of_Z (if N.odd j then 1 else (-1))%Z) (a 1%N j))
                           (cofactor_det n' minor)))
        (range1 (N.of_nat n)) (d_of_Z 0)
  end.

(** ** Constructors from braced lists and the remaining arithmetic operators *)

(** [Matrix(std::initializer_list<std::initializer_list<double>>)]: [i] is
    [i - nums.begin() + 1], the position of the braced row [xs]; the width
    is set by the first row while it is still 0. *)
Fixpoint init_rows (i : N) (rows : list (list R)) (m : Matrix) : error + Matrix :=
  match rows with
  | [] => inr m
  | xs :: rows' =>
      let hgt := (mheight m + 1)%N in
      let k := N.of_nat (length xs) in
      if (mwidth m =? 0)%N then
        init_rows (i + 1) rows' (mkMatrix (insert_row i 1 xs (numbers m)) k hgt)
      else if (mwidth m =? k)%N then
        init_rows (i + 1) rows' (mkMatrix (insert_row i 1 xs (numbers m)) (mwidth m) hgt)
      else inl nonuniform_width
  end.

Definition from_lists (rows : list (list R)) : error + Matrix :=
  init_rows 1 rows empty_matrix.

(** [Matrix(std::initializer_list<double>)]: [Matrix({nums})], then
    assigns [transposed()] to [*this]. *)
Definition from_list (xs : list R) : error + Matrix :=
  m ← from_lists [xs];
  t ← transposed ∅ (OMat (SVal m));
  copy_obj ∅ (OMat (SVal t)).

(** [Matrix::operator/=(double)] on a Matrix value. *)
Definition div_val (m : Matrix) (k : R) : error + Matrix :=
  nums ← fold_exc (fun mp rc => x ← of_option (mp !! rc); mret (<[rc := d_div x k]> mp))
                  (numbers m) (list_prod (range1 (mheight m)) (range1 (mwidth m)));
  mret (mkMatrix nums (mwidth m) (mheight m)).

(** [Matrix::operator/(double) const]: [Matrix tmp = *this; tmp /= rhs]. *)
Definition scalar_div (h : heap) (o : obj) (k : R) : error + Matrix :=
  tmp ← copy_obj h o; div_val tmp k.

(** [Matrix::operator+=(const Matrix&)] on a Matrix value: [isSameShape],
    then [this(r, c) += rhs(r, c)], the right operand read first. *)
Definition add_val (h : heap) (m : Matrix) (rhs : obj) : error + Matrix :=
  if (mwidth m =? obj_width h rhs)%N && (mheight m =? obj_height h rhs)%N
  then nums ← fold_exc (fun mp rc =>
                  y ← read_cell h rhs (fst rc) (snd rc);
                  x ← of_option (mp !! rc);
                  mret (<[rc := d_add x y]> mp))
                (numbers m) (list_prod (range1 (mheight m)) (range1 (mwidth m)));
       mret (mkMatrix nums (mwidth m) (mheight m))
  else inl unlike_dimensions.

(** [Matrix::operator+(const Matrix&) const]: [Matrix tmp = *this; tmp += rhs]. *)
Definition mat_add (h : heap) (lhs rhs : obj) : error + Matrix :=
  tmp ← copy_obj h lhs; add_val h tmp rhs.

(** [Matrix::operator-(const Matrix&) const]: [Matrix tmp = *this; tmp -= rhs],
    where [tmp -= rhs] is [tmp += -rhs]. *)
Definition mat_sub (h : heap) (lhs rhs : obj) : error + Matrix :=
  tmp ← copy_obj h lhs; n ← negate h rhs; add_val h tmp (OMat (SVal n)).

End Library.


(** ** Rationals as doubles

    Exact rational arithmetic agrees with IEEE doubles on the small integers
    used in the concrete runs below; [operator<<] with the default
    precision 6 prints the value rounded to 6 significant digits (to
    nearest, ties to even), which [operator>>] reads back. Division by zero
    is not modelled (Q's is 0). *)
Module QModel.
Local Open Scope Q_scope.

Definition pow10 (k : Z) : Q :=
  if (0 <=? k)%Z then inject_Z (10 ^ k) else / inject_Z (10 ^ (- k)).

Definition Qltb (x y : Q) : bool := negb (Qle_bool y x).

(** [floor(log10 z)] for [z >= 1]. *)
Fixpoint zlog10 (fuel : nat) (z : Z) : Z :=
  match fuel with
  | O => 0
  | S f => if (z <? 10)%Z then 0 else (1 + zlog10 f (z / 10))%Z
  end.

Definition log10 (z : Z) : Z := zlog10 (Z.to_nat (Z.log2 z) + 1) z.

(** [floor(log10 q)] for [q > 0]. *)
Definition floor_log10 (q : Q) : Z :=
  let t := (log10 (Qnum q) - log10 (Zpos (Qden q)))%Z in
  if Qltb q (pow10 t) then (t - 1)%Z else t.

Definition round_half_even (x : Q) : Z :=
  let f := (Qnum x / Zpos (Qden x))%Z in
  let r := x - inject_Z f in
  if Qltb r (1 # 2) then f
  else if Qltb (1 # 2) r then (f + 1)%Z
  else if Z.even f then f else (f + 1)%Z.

Definition round6 (q : Q) : Q :=
  if Qeq_bool q 0 then 0
  else
    let a := Qabs q in
    let k := (5 - floor_log10 a)%Z in
    let res := inject_Z (round_half_even (a * pow10 k)) * pow10 (- k) in
    if Qltb q 0 then - res else res.

Global Instance QDouble : Double Q := {
  d_of_Z := inject_Z;
  d_add := Qplus;
  d_sub := Qminus;
  d_mul := Qmult;
  d_div := Qdiv;
  d_eqb := Qeq_bool;
  d_parses := fun _ => true;
  d_print := round6
}.

(** A Matrix value from its rows, as [Matrix(std::initializer_list<...>)]
    builds it for rectangular rows. *)
Definition of_rows (rows : list (list Q)) : Matrix :=
  mkMatrix
    (list_to_map (concat (imap (fun i row =>
        imap (fun j x => ((N.of_nat (S i), N.of_nat (S j)), x)) row) rows)))
    (N.of_nat (match rows with [] => 0%nat | r :: _ => length r end)) (N.of_nat (length rows)).

(** The cells of a Matrix value row by row. *)
Definition rows_of (m : Matrix) : list (list (option Q)) :=
  map (fun r => map (fun c => numbers m !! (r, c)) (range1 (mwidth m))) (range1 (mheight m)).

(** The Matrix has the given rows (cells compared with [Qeq]). *)
Definition matrix_is (m : Matrix) (rows : list (list Q)) : bool :=
  (N.eqb (mheight m) (N.of_nat (length rows))) &&
  forallb (fun rr => forallb (fun xy => match xy with
                                        | (Some x, y) => Qeq_bool x y
                                        | (None, _) => false
                                        end) (combine (fst rr) (snd rr))
                     && (length (fst rr) =? length (snd rr))%nat)
          (combine (rows_of m) rows).

Definition cell_is (r : error + Matrix) (i j : N) (q : Q) : bool :=
  match r with
  | inr m => match numbers m !! (i, j) with Some x => Qeq_bool x q | None => false end
  | inl _ => false
  end.

Definition value_is (r : error + Q) (q : Q) : bool :=
  match r with inr x => Qeq_bool x q | inl _ => false end.

(** ** Concrete matrices of the specification's scenarios *)

(** [A = {{1,2,3},{4,5,6},{7,8,9}}], held at heap location 1. *)
Definition A3 : @Matrix Q := of_rows [[1;2;3];[4;5;6];[7;8;9]].
Definition hA : gmap N (@Matrix Q) := {[ 1%N := A3 ]}.

(** What [A > "R2"] constructs: [MatrixView(A, 2, 1, 2, 3)]. *)
Definition vR2 : @View Q := mkView (SLoc 1) 2 1 3 1.

(** The one-cell matrix [{{0}}], held at heap location 1. *)
Definition hB : gmap N (@Matrix Q) := {[ 1%N := of_rows [[0]] ]}.

(** The cells of a Matrix value as a function, 0 outside. *)
Definition cell_fun (m : @Matrix Q) (i j : N) : Q := from_option (fun x => x) 0 (numbers m !! (i, j)).

(** A permutation matrix scaled by a seven-digit entry: its determinant is
    [-1234567]. *)
Definition M3 : @Matrix Q := of_rows [[0;1;0];[1234567;0;0];[0;0;1]].

(** The invertible matrix [{{4,7},{2,6}}], held at heap location 1; its
    inverse is [{{0.6,-0.7},{-0.2,0.4}}]. *)
Definition hI : gmap N (@Matrix Q) := {[ 1%N := of_rows [[4;7];[2;6]] ]}.

(** The one-row matrix [{{1,2,3}}], held at heap location 1. *)
Definition hR : gmap N (@Matrix Q) := {[ 1%N := of_rows [[1;2;3]] ]}.

End QModel.

(** ** A model of doubles with overflow and non-finite values

    Finite values are exact rationals up to [DBL_MAX]; a result beyond it
    overflows to an infinity. [operator<<] prints [inf], [-inf] and [nan]
    as text that [operator>>] does not read back, and a finite value whose
    six-digit rounding exceeds [DBL_MAX] does not read back either. *)
Module XModel.
Import QModel.
Local Open Scope Q_scope.

Inductive xdouble := XFin (q : Q) | XInf (neg : bool) | XNaN.

(** [DBL_MAX = (2^53 - 1) 2^971]. *)
Definition dbl_max : Q := inject_Z ((2 ^ 53 - 1) * 2 ^ 971).

Definition xfin (q : Q) : xdouble :=
  if Qle_bool (Qabs q) dbl_max then XFin q else XInf (Qltb q 0).

Definition xneg (x : xdouble) : xdouble :=
  match x with XFin q => XFin (- q) | XInf s => XInf (negb s) | XNaN => XNaN end.

Definition xadd (x y : xdouble) : xdouble :=
  match x, y with
  | XFin p, XFin q => xfin (p + q)
  | XInf s, XInf s' => if Bool.eqb s s' then XInf s else XNaN
  | XInf s, XFin _ | XFin _, XInf s => XInf s
  | _, _ => XNaN
  end.

Definition xmul (x y : xdouble) : xdouble :=
  match x, y with
  | XFin p, XFin q => xfin (p * q)
  | XInf s, XFin q | XFin q, XInf s =>
      if Qeq_bool q 0 then XNaN else XInf (xorb s (Qltb q 0))
  | XInf s, XInf s' => XInf (xorb s s')
  | _, _ => XNaN
  end.

Definition xdiv (x y : xdouble) : xdouble :=
  match x, y with
  | XFin p, XFin q =>
      if Qeq_bool q 0 then (if Qeq_bool p 0 then XNaN else XInf (Qltb p 0))
      else xfin (p / q)
  | XFin _, XInf _ => XFin 0
  | XInf s, XFin q => XInf (xorb s (Qltb q 0))
  | _, _ => XNaN
  end.

Definition xeqb (x y : xdouble) : bool :=
  match x, y with
  | XFin p, XFin q => Qeq_bool p q
  | XInf s, XInf s' => Bool.eqb s s'
  | _, _ => false
  end.

Definition xparses (x : xdouble) : bool :=
  match x with XFin q => Qle_bool (Qabs (round6 q)) dbl_max | _ => false end.

Definition xprint (x : xdouble) : xdouble :=
  match x with XFin q => XFin (round6 q) | _ => x end.

Global Instance XDouble : Double xdouble := {
  d_of_Z := fun z => XFin (inject_Z z);
  d_add := xadd;
  d_sub := fun x y => xadd x (xneg y);
  d_mul := xmul;
  d_div := xdiv;
  d_eqb := xeqb;
  d_parses := xparses;
  d_print := xprint
}.

(** A Matrix value of finite doubles from its rows. *)
Definition xmat (rows : list (list Q)) : @Matrix xdouble :=
  mkMatrix (XFin <$> numbers (of_rows rows)) (mwidth (of_rows rows)) (mheight (of_rows rows)).

(** The one-cell matrix [{{inf}}]. *)
Definition xinf1 : @Matrix xdouble := mkMatrix {[ (1%N, 1%N) := XInf false ]} 1 1.

End XModel.

(** * Properties *)

Section Properties.
Context {R : Type} `{Double R}.
Local Abbreviation Matrix := (@Matrix R).
Local Abbreviation heap := (gmap N Matrix).
Local Abbreviation View := (@View R).
Local Abbreviation obj := (@obj R).

Lemma elem_range1 (n k : N) : In k (range1 n) <-> (1 <= k <= n)%N.
Proof.
  unfold range1. rewrite in_map_iff. split.
  - intros [y [<- Hy]]. apply in_seq in Hy. lia.
  - intros Hk. exists (N.to_nat k). split; [lia|]. apply in_seq. lia.
Qed.

Lemma wf_lookup (m : Matrix) (i j : N) :
  wf m -> is_Some (numbers m !! (i, j)) <-> (1 <= i <= mheight m /\ 1 <= j <= mwidth m)%N.
Proof.
  intros [HF HA]. split.
  - intros [x Hx]. apply (HF _ _ Hx).
  - intros Hr. rewrite Forall_forall in HA. apply HA.
    apply list_elem_of_In, in_prod; apply elem_range1; lia.
Qed.

Lemma make_view_inr (h : heap) (o : obj) (r1 c1 r2 c2 : N) (v : View) :
  make_view h o r1 c1 r2 c2 = inr v ->
  v = mkView (obj_src o) (fst (obj_key o r1 c1)) (snd (obj_key o r1 c1))
             (extent c1 c2) (extent r1 r2).
Proof.
  unfold make_view. destruct (_ || _); congruence.
Qed.

(** C10: a view's cell access translates the local coordinates to the source
    with no check against the view's own width and height: it reads or
    writes source cell (r1 + r - 1, c1 + c - 1) (in [coord_t] arithmetic)
    whenever that cell is inside the source, and throws [out_of_range]
    exactly when it is not. *)
Theorem view_access_unchecked (h : heap) (a : N) (m : Matrix) (r1 c1 r2 c2 : N) (v : View)
  (Hm : h !! a = Some m) (Hwf : wf m)
  (Hv : make_view h (OMat (SLoc a)) r1 c1 r2 c2 = inr v) (r c : N) (x : R) :
  let i := translate r1 r in
  let j := translate c1 c in
  ((1 <= i <= mheight m /\ 1 <= j <= mwidth m)%N ->
     (exists y, numbers m !! (i, j) = Some y /\ read_cell h (OView v) r c = inr y) /\
     write_at (OView v) r c x h =
       (<[a := mkMatrix (<[(i, j) := x]> (numbers m)) (mwidth m) (mheight m)]> h, inr tt)) /\
  (~ (1 <= i <= mheight m /\ 1 <= j <= mwidth m)%N ->
     read_cell h (OView v) r c = inl out_of_range /\
     write_at (OView v) r c x h = (h, inl out_of_range)).
Proof.
  apply make_view_inr in Hv. subst v. cbn zeta.
  unfold read_cell, obj_at, write_at, modify_at; cbn. rewrite Hm; cbn.
  split.
  - intros Hr. apply (wf_lookup m) in Hr; [|exact Hwf]. destruct Hr as [y Hy].
    rewrite Hy. split; [exists y; auto | reflexivity].
  - intros Hr. destruct (numbers m !! _) eqn:E.
    + exfalso. apply Hr, (wf_lookup m); [exact Hwf | rewrite E; eauto].
    + auto.
Qed.

(** ** Loops of the state monad *)

Lemma st_for_app {S A} (l1 l2 : list A) (body : A -> StM S unit) (s : S) :
  st_for (l1 ++ l2) body s = st_bind (st_for l1 body) (fun _ => st_for l2 body) s.
Proof.
  revert s. induction l1 as [|x l1 IH]; intros s; simpl; [reflexivity|].
  unfold st_bind in *. destruct (body x s) as [s' [e|[]]]; simpl; [reflexivity|].
  apply IH.
Qed.

Lemma st_for_map {S A B} (g : A -> B) (l : list A) (body : B -> StM S unit) (s : S) :
  st_for (map g l) body s = st_for l (fun x => body (g x)) s.
Proof.
  revert s. induction l as [|x l IH]; intros s; simpl; [reflexivity|].
  unfold st_bind. destruct (body (g x) s) as [s' [e|[]]]; [reflexivity|]. apply IH.
Qed.

Lemma st_for_ext {S A} (l : list A) (b1 b2 : A -> StM S unit) (s : S) :
  (forall x s, In x l -> b1 x s = b2 x s) -> st_for l b1 s = st_for l b2 s.
Proof.
  revert s. induction l as [|x l IH]; intros s Hb; simpl; [reflexivity|].
  unfold st_bind. rewrite Hb by (left; reflexivity).
  destruct (b2 x s) as [s' [e|[]]]; [reflexivity|].
  apply IH. intros; apply Hb; right; assumption.
Qed.

Lemma st_for_nest {S A B} (l1 : list A) (l2 : list B) (f : A -> B -> StM S unit) (s : S) :
  st_for l1 (fun x => st_for l2 (fun y => f x y)) s =
  st_for (list_prod l1 l2) (fun p => f (fst p) (snd p)) s.
Proof.
  revert s. induction l1 as [|x l1 IH]; intros s; [reflexivity|].
  change (list_prod (x :: l1) l2) with (map (fun y => (x, y)) l2 ++ list_prod l1 l2).
  rewrite st_for_app. cbn [st_for]. unfold st_bind at 1 2. rewrite st_for_map. cbn [fst snd].
  destruct (st_for l2 (fun y => f x y) s) as [s' [e|[]]]; [reflexivity|]. apply IH.
Qed.

(** A loop keeps an invariant of the state, and its exceptions are those of
    its body. *)
Lemma st_for_inv {S A} (I : S -> Prop) (E : error -> Prop) (l : list A)
  (body : A -> StM S unit) :
  (forall x s, In x l -> I s -> I (fst (body x s)) /\ forall e, snd (body x s) = inl e -> E e) ->
  forall s, I s -> I (fst (st_for l body s)) /\ forall e, snd (st_for l body s) = inl e -> E e.
Proof.
  induction l as [|x l IH]; intros Hb s Hs; simpl.
  - split; [exact Hs | discriminate].
  - unfold st_bind. destruct (Hb x s (or_introl eq_refl) Hs) as [HI HE].
    destruct (body x s) as [s' [e|[]]] eqn:E1; simpl in *.
    + split; [exact HI|]. intros e' [= <-]. apply HE. reflexivity.
    + apply IH; [intros; apply Hb; [right|]; assumption | exact HI].
Qed.

(** ** setAt *)

Lemma setAt_flat (o : obj) (r c : N) (sub : Matrix) (h : heap) :
  setAt o r c (OMat (SVal sub)) h =
  st_for (list_prod (range1 (mheight sub)) (range1 (mwidth sub)))
    (fun p => x <~ st_lift (of_option (numbers sub !! p)) ;;
              write_at o (translate r (fst p)) (translate c (snd p)) x) h.
Proof.
  unfold setAt. unfold st_bind at 1. unfold st_get. cbn [obj_height obj_width deref from_option].
  rewrite st_for_nest. apply st_for_ext. intros [i j] s _. reflexivity.
Qed.

Lemma write_at_loc (o : obj) (a : N) (i j : N) (x : R) (s : heap) (m : Matrix) :
  obj_src o = SLoc a -> s !! a = Some m ->
  write_at o i j x s =
    match numbers m !! obj_key o i j with
    | Some _ => (<[a := mkMatrix (<[obj_key o i j := x]> (numbers m)) (mwidth m) (mheight m)]> s, inr tt)
    | None => (s, inl out_of_range)
    end.
Proof.
  intros Hs Ha. unfold write_at, modify_at. rewrite Hs, Ha. destruct (numbers m !! _); reflexivity.
Qed.

Section SetAt.
Variables (h : heap) (a : N) (m : Matrix) (o : obj) (r c : N) (sub : Matrix).
Hypothesis Hm : h !! a = Some m.
Hypothesis Hsrc : obj_src o = SLoc a.

Let kappa (p : N * N) : N * N := obj_key o (translate r (fst p)) (translate c (snd p)).
Let body (p : N * N) : StM heap unit :=
  x <~ st_lift (of_option (numbers sub !! p)) ;;
  write_at o (translate r (fst p)) (translate c (snd p)) x.

Lemma body_step (p : N * N) (m0 : Matrix) :
  body p (<[a := m0]> h) =
    match numbers sub !! p, numbers m0 !! kappa p with
    | Some x, Some _ =>
        (<[a := mkMatrix (<[kappa p := x]> (numbers m0)) (mwidth m0) (mheight m0)]> h, inr tt)
    | Some _, None => (<[a := m0]> h, inl out_of_range)
    | None, _ => (<[a := m0]> h, inl out_of_range)
    end.
Proof.
  unfold body, st_bind, st_lift. destruct (numbers sub !! p) as [x|]; [|reflexivity]. simpl.
  rewrite (write_at_loc o a (translate r p.1) (translate c p.2) x (<[a:=m0]> h) m0 Hsrc
             (lookup_insert_eq _ _ _)).
  unfold kappa. destruct (numbers m0 !! _); [|reflexivity].
  rewrite insert_insert_eq. reflexivity.
Qed.

Lemma writes_success (l : list (N * N)) :
  forall m0, (forall p, In p l -> is_Some (numbers sub !! p) /\ is_Some (numbers m0 !! kappa p)) ->
  exists m', st_for l body (<[a := m0]> h) = (<[a := m']> h, inr tt) /\
    mwidth m' = mwidth m0 /\ mheight m' = mheight m0 /\
    (NoDup (map kappa l) ->
       (forall p, In p l -> numbers m' !! kappa p = numbers sub !! p) /\
       (forall k, (forall p, In p l -> kappa p <> k) -> numbers m' !! k = numbers m0 !! k)).
Proof.
  induction l as [|p l IH]; intros m0 Hl.
  - exists m0. split; [reflexivity|]. split; [reflexivity|]. split; [reflexivity|].
    intros _. split; [intros q Hq; destruct Hq | reflexivity].
  - destruct (Hl p (or_introl eq_refl)) as [[x Hx] [y Hy]].
    simpl st_for. unfold st_bind at 1. rewrite body_step, Hx, Hy.
    set (m1 := mkMatrix (<[kappa p := x]> (numbers m0)) (mwidth m0) (mheight m0)).
    destruct (IH m1) as (m' & Hrun & Hw & Hh & Hex).
    { intros q Hq. destruct (Hl q (or_intror Hq)) as [Hs Hk]. split; [exact Hs|].
      simpl. destruct (decide (kappa q = kappa p)) as [->|Hne].
      - rewrite lookup_insert_eq. eauto.
      - rewrite lookup_insert_ne by (apply not_eq_sym; assumption). exact Hk. }
    exists m'. rewrite Hrun. split; [reflexivity|]. split; [rewrite Hw; reflexivity|].
    split; [rewrite Hh; reflexivity|].
    intros Hnd. inversion Hnd as [|? ? Hnotin Hnd']; subst.
    destruct (Hex Hnd') as [Hin Hout]. split.
    + intros q [<-|Hq]; [|apply Hin, Hq].
      rewrite Hout.
      * simpl. rewrite lookup_insert_eq. congruence.
      * intros q Hq Heq. apply Hnotin. apply list_elem_of_In, in_map_iff. eauto.
    + intros k Hk. rewrite Hout by (intros q Hq; apply Hk; right; exact Hq).
      simpl. rewrite lookup_insert_ne; [reflexivity|]. apply (Hk p). left; reflexivity.
Qed.

Lemma writes_need_keys (l : list (N * N)) :
  forall m0 s', st_for l body (<[a := m0]> h) = (s', inr tt) ->
  forall p, In p l -> is_Some (numbers m0 !! kappa p).
Proof.
  induction l as [|p l IH]; intros m0 s' Hrun q Hq; [destruct Hq|].
  simpl st_for in Hrun. unfold st_bind at 1 in Hrun. rewrite body_step in Hrun.
  destruct (numbers sub !! p) as [x|]; [|discriminate].
  destruct (numbers m0 !! kappa p) as [y|] eqn:Hy; [|discriminate].
  destruct Hq as [<-|Hq]; [eauto|].
  specialize (IH _ _ Hrun q Hq). simpl in IH.
  destruct (decide (kappa q = kappa p)) as [->|Hne]; [eauto|].
  rewrite lookup_insert_ne in IH by (apply not_eq_sym; assumption). exact IH.
Qed.

Lemma setAt_invariant :
  let ps := list_prod (range1 (mheight sub)) (range1 (mwidth sub)) in
  let res := setAt o r c (OMat (SVal sub)) h in
  (exists m', fst res = <[a := m']> h /\ mwidth m' = mwidth m /\ mheight m' = mheight m /\
     (forall k, is_Some (numbers m' !! k) <-> is_Some (numbers m !! k)) /\
     (forall k, numbers m' !! k = numbers m !! k \/
                exists p, In p ps /\ kappa p = k /\ numbers m' !! k = numbers sub !! p)) /\
  (forall e, snd res = inl e -> e = out_of_range).
Proof.
  intros ps res. unfold res. rewrite setAt_flat. fold (body).
  apply (st_for_inv (fun s => exists m', s = <[a := m']> h /\ mwidth m' = mwidth m /\
     mheight m' = mheight m /\
     (forall k, is_Some (numbers m' !! k) <-> is_Some (numbers m !! k)) /\
     (forall k, numbers m' !! k = numbers m !! k \/
                exists p, In p ps /\ kappa p = k /\ numbers m' !! k = numbers sub !! p))).
  - intros p s Hp (m0 & -> & Hw & Hh & Hd & Hc). rewrite body_step.
    destruct (numbers sub !! p) as [x|] eqn:Hx;
      [destruct (numbers m0 !! kappa p) as [y|] eqn:Hy|]; simpl;
      (split; [|intros e He; congruence]).
    + eexists; split; [reflexivity|]. simpl.
      split; [exact Hw|]. split; [exact Hh|]. split.
      * intros k. destruct (decide (k = kappa p)) as [->|Hne].
        -- rewrite lookup_insert_eq, <- Hd, Hy. split; eauto.
        -- rewrite lookup_insert_ne by (apply not_eq_sym; assumption). apply Hd.
      * intros k. destruct (decide (k = kappa p)) as [->|Hne].
        -- right. exists p. rewrite lookup_insert_eq. auto.
        -- rewrite lookup_insert_ne by (apply not_eq_sym; assumption). apply Hc.
    + exists m0. auto.
    + exists m0. auto.
  - exists m. repeat split; auto. rewrite insert_id; auto.
Qed.

Lemma setAt_fails_iff :
  let ps := list_prod (range1 (mheight sub)) (range1 (mwidth sub)) in
  (forall p, In p ps -> is_Some (numbers sub !! p)) ->
  (snd (setAt o r c (OMat (SVal sub)) h) = inl out_of_range <->
   exists p, In p ps /\ ~ is_Some (numbers m !! kappa p)) /\
  (snd (setAt o r c (OMat (SVal sub)) h) = inr tt \/
   snd (setAt o r c (OMat (SVal sub)) h) = inl out_of_range).
Proof.
  intros ps Hsub. pose proof setAt_invariant as [_ Herr].
  assert (Hh : h = <[a := m]> h) by (rewrite insert_id; auto).
  destruct (setAt o r c (OMat (SVal sub)) h) as [s' [e|[]]] eqn:Hres; simpl in *.
  - specialize (Herr e eq_refl). subst e. split; [|right; reflexivity]. split; [intros _|reflexivity].
    destruct (decide (Forall (fun p => is_Some (numbers m !! kappa p)) ps)) as [Hall|Hnot].
    + exfalso. destruct (writes_success ps m) as (m' & Hrun & _).
      { intros p Hp. split; [apply Hsub, Hp|]. rewrite Forall_forall in Hall.
        apply Hall, list_elem_of_In, Hp. }
      rewrite Hh, setAt_flat in Hres. fold body in Hres. fold ps in Hres. congruence.
    + apply not_Forall_Exists in Hnot; [|apply _]. apply Exists_exists in Hnot.
      destruct Hnot as (p & Hp & Hn). exists p. split; [apply list_elem_of_In, Hp|exact Hn].
  - split; [|left; reflexivity]. split; [discriminate|].
    intros (p & Hp & Hn). exfalso. apply Hn.
    rewrite Hh, setAt_flat in Hres. fold body in Hres. fold ps in Hres.
    exact (writes_need_keys ps m s' Hres p Hp).
Qed.

Lemma setAt_exact :
  let ps := list_prod (range1 (mheight sub)) (range1 (mwidth sub)) in
  NoDup (map kappa ps) ->
  snd (setAt o r c (OMat (SVal sub)) h) = inr tt ->
  exists m', setAt o r c (OMat (SVal sub)) h = (<[a := m']> h, inr tt) /\
    mwidth m' = mwidth m /\ mheight m' = mheight m /\
    (forall p, In p ps -> numbers m' !! kappa p = numbers sub !! p) /\
    (forall k, (forall p, In p ps -> kappa p <> k) -> numbers m' !! k = numbers m !! k).
Proof.
  intros ps Hnd Hok.
  assert (Hh : h = <[a := m]> h) by (rewrite insert_id; auto).
  destruct (setAt o r c (OMat (SVal sub)) h) as [s' [e|[]]] eqn:Hres; simpl in Hok; [discriminate|].
  rewrite Hh, setAt_flat in Hres. fold body in Hres. fold ps in Hres.
  pose proof (writes_need_keys ps m s' Hres) as Hkeys.
  assert (Hsub : forall p, In p ps -> is_Some (numbers sub !! p)).
  { intros p Hp. clear Hh Hkeys Hnd. revert Hres. generalize m as m0.
    induction ps as [|q l IH]; [destruct Hp|]. intros m0 Hres.
    simpl st_for in Hres. unfold st_bind at 1 in Hres. rewrite body_step in Hres.
    destruct (numbers sub !! q) as [x|] eqn:Hx; [|discriminate].
    destruct Hp as [<-|Hp]; [eauto|].
    destruct (numbers m0 !! kappa q); [|discriminate]. eapply IH; [exact Hp|exact Hres]. }
  destruct (writes_success ps m) as (m' & Hrun & Hw & Hht & Hex).
  { intros p Hp. split; [apply Hsub, Hp|apply Hkeys, Hp]. }
  rewrite Hrun in Hres. injection Hres as <-.
  exists m'. destruct (Hex Hnd) as [Hin Hout]. auto 6.
Qed.

Lemma writes_fail (l : list (N * N)) :
  (forall p, In p l -> is_Some (numbers sub !! p)) ->
  forall m0 s' e, st_for l body (<[a := m0]> h) = (s', inl e) ->
  exists pre p post m', l = pre ++ p :: post /\
    (forall q, In q pre -> is_Some (numbers m0 !! kappa q)) /\
    ~ is_Some (numbers m0 !! kappa p) /\
    st_for pre body (<[a := m0]> h) = (<[a := m']> h, inr tt) /\
    s' = <[a := m']> h.
Proof.
  intros Hsub. induction l as [|p l IH]; intros m0 s' e Hrun; [discriminate|].
  simpl st_for in Hrun. unfold st_bind at 1 in Hrun. rewrite body_step in Hrun.
  destruct (Hsub p (or_introl eq_refl)) as [x Hx]. rewrite Hx in Hrun.
  destruct (numbers m0 !! kappa p) as [y|] eqn:Hy.
  - set (m1 := mkMatrix (<[kappa p := x]> (numbers m0)) (mwidth m0) (mheight m0)) in Hrun.
    assert (Hd : forall k, is_Some (numbers m1 !! k) <-> is_Some (numbers m0 !! k)).
    { intros k. simpl. destruct (decide (k = kappa p)) as [->|Hne].
      - rewrite lookup_insert_eq, Hy. split; eauto.
      - rewrite lookup_insert_ne by (apply not_eq_sym; assumption). reflexivity. }
    destruct (IH (fun q Hq => Hsub q (or_intror Hq)) m1 s' e Hrun)
      as (pre & q & post & m' & -> & Hpre & Hq & Hrun' & ->).
    exists (p :: pre), q, post, m'. split; [reflexivity|]. split.
    + intros q' [<-|Hq']; [rewrite Hy; eauto|]. apply Hd, Hpre, Hq'.
    + split; [rewrite <- Hd; exact Hq|]. split; [|reflexivity].
      simpl st_for. unfold st_bind at 1. rewrite body_step, Hx, Hy. exact Hrun'.
  - injection Hrun as <- _. exists [], p, l, m0. split; [reflexivity|].
    split; [intros q []|]. split; [rewrite Hy; intros [? ?]; discriminate|]. auto.
Qed.

End SetAt.

(** ** Coordinates and row-major enumerations *)

Lemma wrap_spec (x : N) : exists q, (x = word * q + wrap x /\ wrap x < word)%N.
Proof.
  exists (x / word)%N. split; [apply N.div_mod'|apply N.mod_lt; discriminate].
Qed.

Lemma translate_inj (r i j : N) :
  (1 <= i < word)%N -> (1 <= j < word)%N -> translate r i = translate r j -> i = j.
Proof.
  unfold translate. intros Hi Hj E.
  destruct (wrap_spec (r + i + (word - 1))) as [q1 [E1 L1]].
  destruct (wrap_spec (r + j + (word - 1))) as [q2 [E2 L2]].
  rewrite E in E1. unfold word in *. lia.
Qed.

Lemma translate_small (hd r : N) :
  (1 <= hd + r)%N -> (hd + r <= word)%N -> translate hd r = (hd + r - 1)%N.
Proof.
  unfold translate. intros H1 H2.
  destruct (wrap_spec (hd + r + (word - 1))) as [q [E L]]. unfold word in *. lia.
Qed.

Lemma NoDup_map_on {A B} (f : A -> B) (l : list A) :
  NoDup l -> (forall x y, In x l -> In y l -> f x = f y -> x = y) -> NoDup (map f l).
Proof.
  induction 1 as [|x l Hx Hl IH]; intros Hinj; simpl; constructor.
  - rewrite list_elem_of_In, in_map_iff. intros (y & Hy & Hyl).
    apply Hx. rewrite list_elem_of_In.
    rewrite <- (Hinj y x); [exact Hyl|right; exact Hyl|left; reflexivity|exact Hy].
  - apply IH. intros y z Hy Hz. apply Hinj; right; assumption.
Qed.

Lemma NoDup_range1 (n : N) : NoDup (range1 n).
Proof.
  unfold range1. apply NoDup_map_on; [apply NoDup_ListNoDup, seq_NoDup|].
  intros x y _ _ E. lia.
Qed.

Lemma NoDup_list_prod {A B} (l1 : list A) (l2 : list B) :
  NoDup l1 -> NoDup l2 -> NoDup (list_prod l1 l2).
Proof.
  induction 1 as [|x l1 Hx Hl1 IH]; intros Hl2; simpl; [constructor|].
  apply NoDup_app. split; [|split; [|apply IH, Hl2]].
  - apply NoDup_map_on; [exact Hl2|]. intros y z _ _ E. congruence.
  - intros p Hp1 Hp2. rewrite list_elem_of_In in Hp1, Hp2.
    apply in_map_iff in Hp1 as (y & <- & _). apply in_prod_iff in Hp2 as [Hx' _].
    apply Hx, list_elem_of_In, Hx'.
Qed.

Lemma in_cells (hh ww : N) (p : N * N) :
  In p (list_prod (range1 hh) (range1 ww)) <-> (1 <= fst p <= hh /\ 1 <= snd p <= ww)%N.
Proof.
  destruct p as [i j]. rewrite in_prod_iff, !elem_range1. reflexivity.
Qed.

Lemma wf_cells (m : Matrix) (p : N * N) :
  wf m -> In p (list_prod (range1 (mheight m)) (range1 (mwidth m))) ->
  is_Some (numbers m !! p).
Proof.
  intros Hwf Hp. destruct p as [i j]. apply wf_lookup; [exact Hwf|].
  apply in_cells in Hp. exact Hp.
Qed.

Lemma NoDup_targets (r c hh ww : N) :
  (hh < word)%N -> (ww < word)%N ->
  NoDup (map (fun p : N * N => (translate r (fst p), translate c (snd p)))
             (list_prod (range1 hh) (range1 ww))).
Proof.
  intros Hh Hw. apply NoDup_map_on; [apply NoDup_list_prod; apply NoDup_range1|].
  intros [i j] [i' j'] Hp Hq E. apply in_cells in Hp, Hq. simpl in *.
  injection E as Ei Ej.
  apply translate_inj in Ei; [|lia|lia]. apply translate_inj in Ej; [|lia|lia]. congruence.
Qed.

Lemma setAt_failure (h : heap) (a : N) (m : Matrix) (o : obj) (r c : N) (sub : Matrix)
  (Hm : h !! a = Some m) (Hsrc : obj_src o = SLoc a) :
  let kappa := fun p : N * N => obj_key o (translate r (fst p)) (translate c (snd p)) in
  let ps := list_prod (range1 (mheight sub)) (range1 (mwidth sub)) in
  let res := setAt o r c (OMat (SVal sub)) h in
  (forall p, In p ps -> is_Some (numbers sub !! p)) ->
  NoDup (map kappa ps) ->
  snd res = inl out_of_range ->
  exists pre p post m', ps = pre ++ p :: post /\
    (forall q, In q pre -> is_Some (numbers m !! kappa q)) /\
    ~ is_Some (numbers m !! kappa p) /\
    fst res = <[a := m']> h /\ mwidth m' = mwidth m /\ mheight m' = mheight m /\
    (forall q, In q pre -> numbers m' !! kappa q = numbers sub !! q) /\
    (forall k, (forall q, In q pre -> kappa q <> k) -> numbers m' !! k = numbers m !! k).
Proof.
  intros kappa ps res Hcells Hnd Hfail.
  assert (Hh : h = <[a := m]> h) by (rewrite insert_id; auto).
  unfold res in *. destruct (setAt o r c (OMat (SVal sub)) h) as [s' [e|[]]] eqn:Hres;
    simpl in Hfail; [|discriminate]. simpl.
  rewrite Hh, setAt_flat in Hres.
  destruct (writes_fail h a o r c sub Hsrc ps Hcells m s' e Hres)
    as (pre & p & post & m' & Hps & Hpre & Hp & Hrun & ->).
  destruct (writes_success h a o r c sub Hsrc pre m) as (m'' & Hrun' & Hw & Hht & Hex).
  { intros q Hq. split; [apply Hcells; rewrite Hps; apply in_or_app; left; exact Hq|].
    apply Hpre, Hq. }
  assert (Hnd' : NoDup (map kappa pre)).
  { rewrite Hps, map_app in Hnd. apply NoDup_app in Hnd. apply Hnd. }
  destruct (Hex Hnd') as [Hin Hout].
  exists pre, p, post, m''. split; [exact Hps|]. split; [exact Hpre|]. split; [exact Hp|].
  split; [congruence|]. auto.
Qed.


Lemma extent_small (c1 c2 : N) :
  (1 <= c1 <= c2)%N -> (c2 < word)%N -> extent c1 c2 = (c2 - c1 + 1)%N.
Proof.
  unfold extent. intros H1 H2.
  destruct (wrap_spec (c2 + (word - c1) + 1)) as [q [E L]]. unfold word in *. lia.
Qed.

Lemma view_assign_rect (h : heap) (a : N) (m x : Matrix) (r1 c1 r2 c2 : N) (v : View)
  (Hm : h !! a = Some m) (Hwf : wf m) (Hx : wf x)
  (Hr : (1 <= r1 <= r2 /\ r2 <= mheight m)%N) (Hc : (1 <= c1 <= c2 /\ c2 <= mwidth m)%N)
  (Hbig : (mheight m < word /\ mwidth m < word)%N)
  (Hv : make_view h (OMat (SLoc a)) r1 c1 r2 c2 = inr v)
  (Hshape : mheight x = (r2 - r1 + 1)%N /\ mwidth x = (c2 - c1 + 1)%N) :
  exists m', view_assign v (OMat (SVal x)) h = (<[a := m']> h, inr tt) /\
    mwidth m' = mwidth m /\ mheight m' = mheight m /\
    forall i j, numbers m' !! (i, j) =
      if bool_decide (r1 <= i <= r2 /\ c1 <= j <= c2)%N
      then numbers x !! ((i - r1 + 1)%N, (j - c1 + 1)%N) else numbers m !! (i, j).
Proof.
  apply make_view_inr in Hv. subst v. cbn [obj_src obj_key fst snd].
  rewrite (extent_small c1 c2), (extent_small r1 r2) by lia.
  set (v := @mkView R (SLoc a) r1 c1 (c2 - c1 + 1) (r2 - r1 + 1)).
  set (ps := list_prod (range1 (mheight x)) (range1 (mwidth x))).
  set (kappa := fun p : N * N => obj_key (OView v) (translate 1 (fst p)) (translate 1 (snd p))).
  assert (Hk : forall p, In p ps -> kappa p = ((r1 + fst p - 1)%N, (c1 + snd p - 1)%N)).
  { intros [i j] Hp. apply in_cells in Hp. simpl in Hp. unfold kappa. simpl.
    rewrite (translate_small 1 i), (translate_small 1 j) by lia. simpl.
    rewrite (translate_small r1), (translate_small c1) by lia. f_equal; lia. }
  assert (Hcells : forall p, In p ps -> is_Some (numbers x !! p))
    by (intros p; apply wf_cells, Hx).
  assert (Hnd : NoDup (map kappa ps)).
  { apply NoDup_map_on; [apply NoDup_list_prod; apply NoDup_range1|].
    intros [i j] [i' j'] Hp Hq E. rewrite (Hk _ Hp), (Hk _ Hq) in E.
    apply in_cells in Hp, Hq. simpl in *. injection E as E1 E2. f_equal; lia. }
  destruct (setAt_fails_iff h a m (OView v) 1 1 x Hm eq_refl Hcells) as [Hiff Hor].
  assert (Hok : snd (setAt (OView v) 1 1 (OMat (SVal x)) h) = inr tt).
  { destruct Hor as [Hor|Hor]; [exact Hor|]. exfalso.
    apply Hiff in Hor as (p & Hp & Hn). apply Hn. change (is_Some (numbers m !! kappa p)). rewrite (Hk _ Hp).
    apply in_cells in Hp. apply wf_lookup; [exact Hwf|]. simpl in *. lia. }
  destruct (setAt_exact h a m (OView v) 1 1 x Hm eq_refl Hnd Hok)
    as (m' & Hres & Hw & Hht & Hin & Hout).
  exists m'.
  assert (Hva : view_assign v (OMat (SVal x)) h = setAt (OView v) 1 1 (OMat (SVal x)) h).
  { unfold view_assign, st_bind, st_get. simpl. destruct Hshape as [-> ->].
    rewrite !N.eqb_refl. reflexivity. }
  rewrite Hva, Hres. split; [reflexivity|]. split; [exact Hw|]. split; [exact Hht|].
  intros i j. case_bool_decide as Hij.
  - set (p := ((i - r1 + 1)%N, (j - c1 + 1)%N)).
    assert (Hp : In p ps) by (apply in_cells; simpl; lia).
    assert (Eij : kappa p = (i, j)) by (rewrite (Hk p Hp); simpl; f_equal; lia).
    rewrite <- Eij. exact (Hin p Hp).
  - apply Hout. intros p Hp E. change (kappa p = (i, j)) in E. rewrite (Hk p Hp) in E.
    apply in_cells in Hp. injection E as E1 E2. apply Hij. lia.
Qed.

End Properties.

(** ** Reading a matrix back from the text it was printed to *)

Section Streams.
Context {R : Type} `{Double R}.
Local Abbreviation Matrix := (@Matrix R).
Local Abbreviation token := (@token R).

Lemma insert_row_lookup (row col : N) (xs : list R) (mp : gmap (N * N) R) :
  (forall c, (col <= c)%N -> mp !! (row, c) = None) ->
  forall i j, insert_row row col xs mp !! (i, j) =
    if bool_decide (i = row /\ col <= j < col + N.of_nat (length xs))%N
    then xs !! N.to_nat (j - col) else mp !! (i, j).
Proof.
  revert col mp. induction xs as [|x xs IH]; intros col mp Hfree i j; simpl.
  - case_bool_decide; [lia|reflexivity].
  - unfold map_insert_new. rewrite (Hfree col) by lia.
    rewrite IH.
    + case_bool_decide as H1; case_bool_decide as H2; try lia.
      * destruct H1 as [-> H1]. replace (N.to_nat (j - col)) with (S (N.to_nat (j - (col + 1)))) by lia.
        reflexivity.
      * destruct H2 as [-> H2]. assert (j = col) as -> by lia.
        rewrite N.sub_diag. simpl. rewrite lookup_insert_eq. reflexivity.
      * rewrite lookup_insert_ne; [reflexivity|]. intros E. injection E as -> ->. lia.
    + intros c Hc. rewrite lookup_insert_ne; [apply Hfree; lia|]. intros E. injection E as ->. lia.
Qed.

Lemma parse_line_ok (l : list token) :
  Forall (fun t => is_Some (parse_token t)) l ->
  length (parse_line l) = length l /\
  forall k, parse_line l !! k = l !! k ≫= parse_token.
Proof.
  induction 1 as [|t l [x Hx] Hl [IHlen IHk]]; simpl; [split; [reflexivity|intros k; reflexivity]|].
  rewrite Hx. simpl. split; [rewrite IHlen; reflexivity|].
  intros [|k]; simpl; [rewrite Hx; reflexivity|apply IHk].
Qed.

Lemma read_rows_uniform (L : nat) (ls : list (list token)) :
  (0 < L)%nat ->
  Forall (fun l => length l = L /\ Forall (fun t => is_Some (parse_token t)) l) ls ->
  forall m, (mwidth m = N.of_nat L \/ mwidth m = 0%N) ->
  (forall i j, (mheight m < i)%N -> numbers m !! (i, j) = None) ->
  exists m', read_rows ls m = inr m' /\
    mheight m' = (mheight m + N.of_nat (length ls))%N /\
    mwidth m' = match ls with [] => mwidth m | _ => N.of_nat L end /\
    forall i j, numbers m' !! (i, j) =
      if bool_decide (mheight m < i)%N then
        if bool_decide (i <= mheight m + N.of_nat (length ls) /\ 1 <= j <= N.of_nat L)%N
        then line_cell ls (i - mheight m) j else None
      else numbers m !! (i, j).
Proof.
  intros HL. induction 1 as [|l ls [Hlen Hok] Hls IH]; intros m Hw Hfree.
  - exists m. split; [reflexivity|]. split; [simpl; lia|]. split; [reflexivity|].
    intros i j. case_bool_decide as Hi; [|reflexivity].
    case_bool_decide; [simpl in *; lia|]. apply Hfree, Hi.
  - destruct (parse_line_ok l Hok) as [Hplen Hpk].
    set (nums := insert_row (mheight m + 1) 1 (parse_line l) (numbers m)).
    set (m1 := mkMatrix nums (N.of_nat L) (mheight m + 1)).
    assert (Hrun : read_rows (l :: ls) m = read_rows ls m1).
    { destruct l as [|t l']; [simpl in Hlen; lia|].
      cbn [read_rows]. fold (parse_line (t :: l')). rewrite Hplen, Hlen. fold nums.
      destruct Hw as [Hw|Hw]; rewrite Hw.
      - destruct (N.of_nat L =? 0)%N eqn:E; [apply N.eqb_eq in E; lia|].
        rewrite N.eqb_refl. reflexivity.
      - reflexivity. }
    assert (Hnums : forall i j, nums !! (i, j) =
              if bool_decide (i = mheight m + 1 /\ 1 <= j < 1 + N.of_nat L)%N
              then l !! N.to_nat (j - 1) ≫= parse_token else numbers m !! (i, j)).
    { intros i j. unfold nums. rewrite insert_row_lookup.
      - rewrite Hplen, Hlen, Hpk. reflexivity.
      - intros c _. apply Hfree. lia. }
    destruct (IH m1 (or_introl eq_refl)) as (m' & Hrun' & Hh & Hw' & Hc).
    { intros i j Hi. simpl in Hi. simpl. rewrite Hnums.
      case_bool_decide; [lia|]. apply Hfree. lia. }
    exists m'. rewrite Hrun, Hrun'. split; [reflexivity|]. split; [rewrite Hh; simpl; lia|]. split.
    { rewrite Hw'. destruct ls; reflexivity. }
    intros i j. rewrite Hc. simpl. cbn [length]. rewrite ?Hnums.
    repeat case_bool_decide; try lia; try reflexivity; unfold line_cell;
      first [ solve [apply Hfree; lia]
            | (replace (N.to_nat (i - mheight m - 1)) with
                 (S (N.to_nat (i - (mheight m + 1) - 1))) by lia; reflexivity)
            | (replace (N.to_nat (i - mheight m - 1)) with 0%nat by lia; reflexivity) ].
Qed.

Lemma from_stream_uniform (L : nat) (ls : list (list token)) :
  (0 < L)%nat ->
  Forall (fun l => length l = L /\ Forall (fun t => is_Some (parse_token t)) l) ls ->
  exists m', from_stream ls = inr m' /\
    mheight m' = N.of_nat (length ls) /\
    mwidth m' = match ls with [] => 0%N | _ => N.of_nat L end /\
    forall i j, numbers m' !! (i, j) =
      if bool_decide (1 <= i <= N.of_nat (length ls) /\ 1 <= j <= N.of_nat L)%N
      then line_cell ls i j else None.
Proof.
  intros HL Hls.
  destruct (read_rows_uniform L ls HL Hls empty_matrix (or_intror eq_refl)) as (m' & Hrun & Hh & Hw & Hc).
  { intros i j _. apply lookup_empty. }
  exists m'. split; [exact Hrun|]. split; [exact Hh|]. split; [exact Hw|].
  intros i j. rewrite Hc. simpl. rewrite N.sub_0_r.
  repeat case_bool_decide; try lia; reflexivity.
Qed.

Lemma line_cell_some (L : nat) (ls : list (list token)) (i j : N) :
  Forall (fun l => length l = L /\ Forall (fun t => is_Some (parse_token t)) l) ls ->
  (1 <= i <= N.of_nat (length ls) /\ 1 <= j <= N.of_nat L)%N ->
  is_Some (line_cell ls i j).
Proof.
  intros Hls Hij. unfold line_cell.
  destruct (lookup_lt_is_Some_2 ls (N.to_nat (i - 1))) as [l Hl]; [lia|].
  rewrite Hl. simpl. rewrite Forall_lookup in Hls. destruct (Hls _ _ Hl) as [Hlen Hok].
  destruct (lookup_lt_is_Some_2 l (N.to_nat (j - 1))) as [t Ht]; [lia|].
  rewrite Ht. simpl. rewrite Forall_lookup in Hok. exact (Hok _ _ Ht).
Qed.

Lemma insert_row_keeps (row col : N) (xs : list R) (mp : gmap (N * N) R) (i j : N) :
  i <> row -> insert_row row col xs mp !! (i, j) = mp !! (i, j).
Proof.
  revert col mp. induction xs as [|x xs IH]; intros col mp Hi; simpl; [reflexivity|].
  rewrite IH by exact Hi. unfold map_insert_new.
  destruct (mp !! (row, col)); [reflexivity|].
  rewrite lookup_insert_ne; [reflexivity|congruence].
Qed.

(** Reading more lines never changes the rows already read. *)
Lemma read_rows_keeps (ls : list (list token)) (m m' : Matrix) :
  read_rows ls m = inr m' ->
  (mheight m <= mheight m')%N /\
  forall i j, (i <= mheight m)%N -> numbers m' !! (i, j) = numbers m !! (i, j).
Proof.
  revert m. induction ls as [|l ls IH]; intros m Hrun.
  - injection Hrun as <-. split; [lia|reflexivity].
  - destruct l as [|t l'].
    + injection Hrun as <-. split; [lia|reflexivity].
    + cbn [read_rows] in Hrun.
      destruct (mwidth m =? 0)%N; [|destruct (mwidth m =? _)%N; [|discriminate]];
        destruct (IH _ Hrun) as [Hh Hk]; cbn [mheight] in Hh; (split; [lia|]);
        intros i j Hi; rewrite Hk by (cbn [mheight]; lia); cbn [numbers];
        apply insert_row_keeps; lia.
Qed.

(** [for (double a; iss >> a;)] stops at the first token that does not read
    back: the line has no more values than the tokens before it. *)
Lemma parse_line_stops (l : list token) (p : nat) (t : token) :
  l !! p = Some t -> parse_token t = None -> (length (parse_line l) <= p)%nat.
Proof.
  revert p. induction l as [|t0 l IH]; intros p Hp Ht; [discriminate|].
  destruct p as [|p]; simpl in Hp.
  - injection Hp as ->. simpl. rewrite Ht. simpl. lia.
  - simpl. destruct (parse_token t0); simpl; [|lia]. specialize (IH p Hp Ht). lia.
Qed.

(** Line [k] of the stream fills row [mheight m + k + 1] with the values it
    parses and nothing more: a cell past them stays absent. *)
Lemma read_rows_short (ls : list (list token)) (m m' : Matrix) :
  read_rows ls m = inr m' ->
  (forall i j, (mheight m < i)%N -> numbers m !! (i, j) = None) ->
  forall k l j, ls !! k = Some l -> (N.of_nat (length (parse_line l)) < j)%N ->
  numbers m' !! ((mheight m + N.of_nat (S k))%N, j) = None.
Proof.
  revert m. induction ls as [|l0 ls IH]; intros m Hrun Hfree k l j Hk Hj.
  - discriminate.
  - destruct l0 as [|t l'].
    + injection Hrun as <-. apply Hfree. lia.
    + cbn [read_rows] in Hrun.
      set (nums := insert_row (mheight m + 1) 1 (parse_line (t :: l')) (numbers m)) in Hrun.
      assert (Hnf : forall i j, (mheight m + 1 < i)%N -> nums !! (i, j) = None).
      { intros i j' Hi. unfold nums. rewrite insert_row_keeps by lia. apply Hfree. lia. }
      assert (Hgo : forall w, read_rows ls (mkMatrix nums w (mheight m + 1)) = inr m' ->
                numbers m' !! ((mheight m + N.of_nat (S k))%N, j) = None).
      { intros w Hw. destruct k as [|k].
        - simpl in Hk. injection Hk as <-.
          destruct (read_rows_keeps ls _ m' Hw) as [_ Hkeep].
          rewrite Hkeep by (cbn [mheight]; lia). cbn [numbers]. unfold nums.
          rewrite insert_row_lookup.
          + rewrite bool_decide_eq_false_2 by lia. apply Hfree. lia.
          + intros c _. apply Hfree. lia.
        - simpl in Hk.
          replace (mheight m + N.of_nat (S (S k)))%N
            with (mheight (mkMatrix nums w (mheight m + 1)) + N.of_nat (S k))%N by (cbn [mheight]; lia).
          refine (IH _ Hw _ k l j Hk Hj).
          intros i j' Hi. cbn [mheight] in Hi. apply Hnf. exact Hi. }
      destruct (mwidth m =? 0)%N; [exact (Hgo _ Hrun)|].
      destruct (mwidth m =? _)%N; [exact (Hgo _ Hrun)|discriminate].
Qed.

End Streams.

(** ** Monadic loops of the exception monad *)

Lemma mapM_ok {A B : Type} (f : A -> error + B) (l : list A) :
  (forall x, In x l -> exists y, f x = inr y) ->
  exists ys, mapM f l = inr ys /\ length ys = length l /\
    forall k x y, l !! k = Some x -> ys !! k = Some y -> f x = inr y.
Proof.
  induction l as [|x l IH]; intros Hf.
  - exists []. split; [reflexivity|]. split; [reflexivity|]. intros k x y _ Hy. discriminate.
  - destruct (Hf x (or_introl eq_refl)) as [y Hy].
    destruct IH as (ys & Hrun & Hlen & Hk); [intros z Hz; apply Hf; right; exact Hz|].
    exists (y :: ys). simpl. rewrite Hy. simpl. rewrite Hrun. simpl.
    split; [reflexivity|]. split; [rewrite Hlen; reflexivity|].
    intros [|k] z w Hz Hw; simpl in *.
    + congruence.
    + apply (Hk k); assumption.
Qed.

Lemma range1_length (n : N) : length (range1 n) = N.to_nat n.
Proof. unfold range1. rewrite length_map, length_seq. reflexivity. Qed.

Lemma range1_lookup (n : N) (k : nat) :
  (k < N.to_nat n)%nat -> range1 n !! k = Some (N.of_nat (S k)).
Proof.
  intros Hk. unfold range1. rewrite list_lookup_fmap.
  rewrite lookup_seq_lt by exact Hk. simpl. reflexivity.
Qed.

Lemma mapM_inv {A B : Type} (f : A -> error + B) (l : list A) (ys : list B) :
  mapM f l = inr ys ->
  length ys = length l /\ forall k x y, l !! k = Some x -> ys !! k = Some y -> f x = inr y.
Proof.
  revert ys. induction l as [|x l IH]; intros ys Hrun; simpl in Hrun.
  - injection Hrun as <-. split; [reflexivity|]. intros k z w Hz. discriminate.
  - destruct (f x) as [e|y] eqn:Hx; [discriminate|]. simpl in Hrun.
    destruct (mapM f l) as [e|ys'] eqn:Hl; [discriminate|]. simpl in Hrun.
    injection Hrun as <-. destruct (IH ys' eq_refl) as [Hlen Hk].
    split; [simpl; rewrite Hlen; reflexivity|].
    intros [|k] z w Hz Hw; simpl in *; [congruence|apply (Hk k); assumption].
Qed.

Lemma mapM_exists {A B : Type} (f : A -> error + B) (l : list A) :
  (forall x, In x l -> exists y, f x = inr y) -> exists ys, mapM f l = inr ys.
Proof.
  intros Hf. destruct (mapM_ok f l Hf) as (ys & Hrun & _). eauto.
Qed.

Lemma mapM_fails {A B : Type} (f : A -> error + B) (l : list A) (e : error) :
  mapM f l = inl e -> exists x, In x l /\ f x = inl e.
Proof.
  induction l as [|x l IH]; simpl; [discriminate|].
  destruct (f x) as [e'|y] eqn:Hx; simpl.
  - intros He. injection He as ->. exists x. auto.
  - destruct (mapM f l) as [e'|ys] eqn:Hl; simpl; [|discriminate].
    intros He. injection He as ->. destruct (IH eq_refl) as (z & Hz & Hfz). exists z. auto.
Qed.

(** ** What the printing and re-parsing operations compute *)

Section Materialize.
Context {R : Type} `{Double R}.
Local Abbreviation Matrix := (@Matrix R).
Local Abbreviation heap := (gmap N Matrix).
Local Abbreviation obj := (@obj R).

Lemma read_line_ok (h : heap) (o : obj) (cells : list (N * N)) :
  (forall rc, In rc cells -> is_Some (obj_at h o (fst rc) (snd rc))) ->
  exists l, read_line h o cells = inr l /\ length l = length cells /\
    forall k rc t, cells !! k = Some rc -> l !! k = Some t ->
      exists x, obj_at h o (fst rc) (snd rc) = Some x /\ t = TDouble x.
Proof.
  intros Hc. destruct (mapM_exists (fun rc => x ← read_cell h o (fst rc) (snd rc); mret (TDouble x)) cells)
    as [l Hl].
  { intros rc Hrc. destruct (Hc rc Hrc) as [x Hx]. exists (TDouble x).
    unfold read_cell. rewrite Hx. reflexivity. }
  exists l. split; [exact Hl|]. destruct (mapM_inv _ _ _ Hl) as [Hlen Hk].
  split; [exact Hlen|]. intros k rc t Hrc Ht. specialize (Hk k rc t Hrc Ht).
  unfold read_cell in Hk. destruct (obj_at h o (fst rc) (snd rc)) as [x|]; [|discriminate].
  simpl in Hk. injection Hk as <-. eauto.
Qed.

Lemma transposed_spec (h : heap) (o : obj) :
  (1 <= obj_height h o)%N -> (1 <= obj_width h o)%N ->
  (forall i j, (1 <= i <= obj_height h o /\ 1 <= j <= obj_width h o)%N ->
     exists x, obj_at h o i j = Some x /\ d_parses x = true) ->
  exists T, transposed h o = inr T /\ mheight T = obj_width h o /\ mwidth T = obj_height h o /\
    forall i j, numbers T !! (i, j) =
      if bool_decide (1 <= i <= obj_width h o /\ 1 <= j <= obj_height h o)%N
      then d_print <$> obj_at h o j i else None.
Proof.
  intros HH HW Hcells. unfold transposed.
  set (Hg := obj_height h o). set (Wd := obj_width h o).
  set (f := fun c => read_line h o (map (fun r => (r, c)) (range1 Hg))).
  destruct (mapM_exists f (range1 Wd)) as [ls Hls].
  { intros c Hc. apply elem_range1 in Hc.
    destruct (read_line_ok h o (map (fun r => (r, c)) (range1 Hg))) as (l & Hl & _); [|eauto].
    intros rc Hrc. apply in_map_iff in Hrc as (r & <- & Hr). apply elem_range1 in Hr.
    destruct (Hcells r c) as (x & Hx & _); [lia|]. simpl. rewrite Hx. eauto. }
  destruct (mapM_inv _ _ _ Hls) as [Hlen Hk].
  rewrite range1_length in Hlen.
  assert (Hline : forall k l, ls !! k = Some l ->
            (k < N.to_nat Wd)%nat /\ length l = N.to_nat Hg /\
            forall k' t, l !! k' = Some t ->
              exists x, obj_at h o (N.of_nat (S k')) (N.of_nat (S k)) = Some x /\ t = TDouble x /\
                        d_parses x = true).
  { intros k l Hl.
    assert (Hkw : (k < N.to_nat Wd)%nat) by (rewrite <- Hlen; apply lookup_lt_Some in Hl; exact Hl).
    split; [exact Hkw|].
    pose proof (Hk k _ l (range1_lookup Wd k Hkw) Hl) as Hf. unfold f in Hf.
    destruct (read_line_ok h o (map (fun r => (r, N.of_nat (S k))) (range1 Hg))) as (l' & Hl' & Hlen' & Ht).
    { intros rc Hrc. apply in_map_iff in Hrc as (r & <- & Hr). apply elem_range1 in Hr.
      destruct (Hcells r (N.of_nat (S k))) as (x & Hx & _); [lia|]. simpl. rewrite Hx. eauto. }
    rewrite Hf in Hl'. injection Hl' as <-.
    rewrite length_map, range1_length in Hlen'. split; [exact Hlen'|].
    intros k' t Hkt.
    assert (Hk' : (k' < N.to_nat Hg)%nat) by (rewrite <- Hlen'; apply lookup_lt_Some in Hkt; exact Hkt).
    destruct (Ht k' (N.of_nat (S k'), N.of_nat (S k)) t) as (x & Hx & ->).
    { rewrite list_lookup_fmap, range1_lookup by exact Hk'. reflexivity. }
    { exact Hkt. }
    exists x. split; [exact Hx|]. split; [reflexivity|].
    destruct (Hcells (N.of_nat (S k')) (N.of_nat (S k))) as (y & Hy & Hp); [lia|]. simpl in Hx. congruence. }
  assert (Hall : Forall (fun l => length l = N.to_nat Hg /\
                   Forall (fun t => is_Some (parse_token t)) l) ls).
  { apply Forall_lookup. intros k l Hl. destruct (Hline k l Hl) as (_ & Hlen' & Ht).
    split; [exact Hlen'|]. apply Forall_lookup. intros k' t Hkt.
    destruct (Ht k' t Hkt) as (x & _ & -> & Hp). simpl. rewrite Hp. eauto. }
  destruct (from_stream_uniform (N.to_nat Hg) ls ltac:(lia) Hall) as (T & HT & Hh & Hw & Hc).
  exists T. rewrite Hls. simpl. split; [exact HT|].
  split; [rewrite Hh, Hlen; lia|].
  split; [rewrite Hw; destruct ls; simpl in Hlen; lia|].
  intros i j. rewrite Hc, Hlen, !N2Nat.id.
  case_bool_decide as Hij; [|reflexivity].
  unfold line_cell.
  destruct (lookup_lt_is_Some_2 ls (N.to_nat (i - 1))) as [l Hl]; [lia|].
  rewrite Hl. simpl. destruct (Hline _ _ Hl) as (_ & Hlen' & Ht).
  destruct (lookup_lt_is_Some_2 l (N.to_nat (j - 1))) as [t Htl]; [lia|].
  rewrite Htl. simpl. destruct (Ht _ _ Htl) as (x & Hx & -> & Hp).
  replace (N.of_nat (S (N.to_nat (j - 1)))) with j in Hx by lia.
  replace (N.of_nat (S (N.to_nat (i - 1)))) with i in Hx by lia.
  rewrite Hx. simpl. rewrite Hp. reflexivity.
Qed.

Lemma wf_none (m : Matrix) (i j : N) :
  wf m -> ~ (1 <= i <= mheight m /\ 1 <= j <= mwidth m)%N -> numbers m !! (i, j) = None.
Proof.
  intros Hwf Hout. destruct (numbers m !! (i, j)) eqn:E; [|reflexivity].
  exfalso. apply Hout, (wf_lookup m i j Hwf). rewrite E. eauto.
Qed.

Lemma row_lines_spec (h : heap) (o : obj) :
  (1 <= obj_width h o)%N ->
  (forall i j, (1 <= i <= obj_height h o /\ 1 <= j <= obj_width h o)%N ->
     exists x, obj_at h o i j = Some x /\ d_parses x = true) ->
  exists ls, row_lines h o = inr ls /\ length ls = N.to_nat (obj_height h o) /\
    Forall (fun l => length l = N.to_nat (obj_width h o) /\
                     Forall (fun t => is_Some (parse_token t)) l) ls /\
    forall i j, (1 <= i <= obj_height h o /\ 1 <= j <= obj_width h o)%N ->
      line_cell ls i j = d_print <$> obj_at h o i j.
Proof.
  intros HW Hcells. unfold row_lines.
  set (Hg := obj_height h o). set (Wd := obj_width h o).
  set (f := fun r => read_line h o (map (fun c => (r, c)) (range1 Wd))).
  destruct (mapM_exists f (range1 Hg)) as [ls Hls].
  { intros r Hr. apply elem_range1 in Hr.
    destruct (read_line_ok h o (map (fun c => (r, c)) (range1 Wd))) as (l & Hl & _); [|eauto].
    intros rc Hrc. apply in_map_iff in Hrc as (c & <- & Hc). apply elem_range1 in Hc.
    destruct (Hcells r c) as (x & Hx & _); [lia|]. simpl. rewrite Hx. eauto. }
  destruct (mapM_inv _ _ _ Hls) as [Hlen Hk].
  rewrite range1_length in Hlen.
  assert (Hline : forall k l, ls !! k = Some l ->
            length l = N.to_nat Wd /\
            forall k' t, l !! k' = Some t ->
              exists x, obj_at h o (N.of_nat (S k)) (N.of_nat (S k')) = Some x /\ t = TDouble x /\
                        d_parses x = true).
  { intros k l Hl.
    assert (Hkh : (k < N.to_nat Hg)%nat) by (rewrite <- Hlen; apply lookup_lt_Some in Hl; exact Hl).
    pose proof (Hk k _ l (range1_lookup Hg k Hkh) Hl) as Hf. unfold f in Hf.
    destruct (read_line_ok h o (map (fun c => (N.of_nat (S k), c)) (range1 Wd))) as (l' & Hl' & Hlen' & Ht).
    { intros rc Hrc. apply in_map_iff in Hrc as (c & <- & Hc). apply elem_range1 in Hc.
      destruct (Hcells (N.of_nat (S k)) c) as (x & Hx & _); [lia|]. simpl. rewrite Hx. eauto. }
    rewrite Hf in Hl'. injection Hl' as <-.
    rewrite length_map, range1_length in Hlen'. split; [exact Hlen'|].
    intros k' t Hkt.
    assert (Hk' : (k' < N.to_nat Wd)%nat) by (rewrite <- Hlen'; apply lookup_lt_Some in Hkt; exact Hkt).
    destruct (Ht k' (N.of_nat (S k), N.of_nat (S k')) t) as (x & Hx & ->).
    { rewrite list_lookup_fmap, range1_lookup by exact Hk'. reflexivity. }
    { exact Hkt. }
    simpl in Hx. exists x. split; [exact Hx|]. split; [reflexivity|].
    destruct (Hcells (N.of_nat (S k)) (N.of_nat (S k'))) as (y & Hy & Hp); [lia|]. congruence. }
  exists ls. split; [exact Hls|]. split; [exact Hlen|]. split.
  - apply Forall_lookup. intros k l Hl. destruct (Hline k l Hl) as (Hlen' & Ht).
    split; [exact Hlen'|]. apply Forall_lookup. intros k' t Hkt.
    destruct (Ht k' t Hkt) as (x & _ & -> & Hp). simpl. rewrite Hp. eauto.
  - intros i j Hij. unfold line_cell.
    destruct (lookup_lt_is_Some_2 ls (N.to_nat (i - 1))) as [l Hl]; [lia|].
    rewrite Hl. simpl. destruct (Hline _ _ Hl) as (Hlen' & Ht).
    destruct (lookup_lt_is_Some_2 l (N.to_nat (j - 1))) as [t Htl]; [lia|].
    rewrite Htl. simpl. destruct (Ht _ _ Htl) as (x & Hx & -> & Hp).
    replace (N.of_nat (S (N.to_nat (j - 1)))) with j in Hx by lia.
    replace (N.of_nat (S (N.to_nat (i - 1)))) with i in Hx by lia.
    rewrite Hx. simpl. rewrite Hp. reflexivity.
Qed.

Lemma line_cell_app (ls1 ls2 : list (list token)) (i j : N) :
  (1 <= i)%N ->
  line_cell (ls1 ++ ls2) i j =
    if bool_decide (i <= N.of_nat (length ls1))%N then line_cell ls1 i j
    else line_cell ls2 (i - N.of_nat (length ls1)) j.
Proof.
  intros Hi. unfold line_cell. case_bool_decide.
  - rewrite lookup_app_l by lia. reflexivity.
  - rewrite lookup_app_r by lia. do 3 f_equal. lia.
Qed.

Lemma vcat_spec (h : heap) (l r : obj) :
  obj_width h l = obj_width h r -> (1 <= obj_width h l)%N ->
  (forall i j, (1 <= i <= obj_height h l /\ 1 <= j <= obj_width h l)%N ->
     exists x, obj_at h l i j = Some x /\ d_parses x = true) ->
  (forall i j, (1 <= i <= obj_height h r /\ 1 <= j <= obj_width h r)%N ->
     exists x, obj_at h r i j = Some x /\ d_parses x = true) ->
  exists V, vcat h l r = inr V /\ mheight V = (obj_height h l + obj_height h r)%N /\
    (mwidth V = obj_width h l \/ (mwidth V = 0 /\ obj_height h l + obj_height h r = 0)%N) /\
    forall i j, numbers V !! (i, j) =
      if bool_decide (1 <= i <= obj_height h l + obj_height h r /\ 1 <= j <= obj_width h l)%N
      then (if bool_decide (i <= obj_height h l)%N then d_print <$> obj_at h l i j
            else d_print <$> obj_at h r (i - obj_height h l) j)
      else None.
Proof.
  intros Hwe HW Hl Hr.
  destruct (row_lines_spec h l HW Hl) as (ls1 & H1 & L1 & F1 & C1).
  destruct (row_lines_spec h r ltac:(lia) Hr) as (ls2 & H2 & L2 & F2 & C2).
  rewrite <- Hwe in F2.
  destruct (from_stream_uniform (N.to_nat (obj_width h l)) (ls1 ++ ls2) ltac:(lia)
              ltac:(apply Forall_app; split; assumption)) as (V & HV & Vh & Vw & Vc).
  exists V. unfold vcat.
  replace (obj_width h l =? obj_width h r)%N with true by (symmetry; apply N.eqb_eq; exact Hwe).
  simpl. rewrite H1. simpl. rewrite H2. simpl.
  split; [exact HV|]. rewrite length_app in Vh, Vc.
  split; [rewrite Vh; lia|]. split.
  { rewrite Vw. destruct (ls1 ++ ls2) eqn:E; [right|left; lia].
    apply app_nil in E as [-> ->]. simpl in L1, L2. lia. }
  intros i j. rewrite Vc. rewrite N2Nat.id.
  replace (N.of_nat (length ls1 + length ls2)) with (obj_height h l + obj_height h r)%N by lia.
  case_bool_decide as Hij; [|reflexivity].
  rewrite line_cell_app by lia. rewrite L1, N2Nat.id.
  case_bool_decide.
  - apply C1. lia.
  - apply C2. lia.
Qed.

(** [operator|] of objects each of whose cells [x] reads back after one,
    two and three printings. *)
Lemma hcat_spec (h : heap) (l r : obj) :
  obj_height h l = obj_height h r -> (1 <= obj_height h l)%N ->
  (1 <= obj_width h l)%N -> (1 <= obj_width h r)%N ->
  (forall i j, (1 <= i <= obj_height h l /\ 1 <= j <= obj_width h l)%N ->
     exists x, obj_at h l i j = Some x /\
       d_parses x = true /\ d_parses (d_print x) = true /\ d_parses (d_print (d_print x)) = true) ->
  (forall i j, (1 <= i <= obj_height h r /\ 1 <= j <= obj_width h r)%N ->
     exists x, obj_at h r i j = Some x /\
       d_parses x = true /\ d_parses (d_print x) = true /\ d_parses (d_print (d_print x)) = true) ->
  exists C, hcat h l r = inr C /\ mheight C = obj_height h l /\
    mwidth C = (obj_width h l + obj_width h r)%N /\
    forall i j, numbers C !! (i, j) =
      if bool_decide (1 <= i <= obj_height h l /\ 1 <= j <= obj_width h l + obj_width h r)%N
      then (fun x => d_print (d_print (d_print x))) <$>
           (if bool_decide (j <= obj_width h l)%N then obj_at h l i j
            else obj_at h r i (j - obj_width h l))
      else None.
Proof.
  intros Heq HH HWl HWr Hl Hr.
  destruct (transposed_spec h l HH HWl) as (Lt & HLt & Lth & Ltw & Ltc).
  { intros i j Hij. destruct (Hl i j Hij) as (x & Hx & Hp & _). eauto. }
  destruct (transposed_spec h r ltac:(lia) HWr) as (Rt & HRt & Rth & Rtw & Rtc).
  { intros i j Hij. destruct (Hr i j Hij) as (x & Hx & Hp & _). eauto. }
  destruct (vcat_spec h (OMat (SVal Lt)) (OMat (SVal Rt))) as (V & HV & Vh & Vw & Vc).
  { simpl. lia. }
  { simpl. lia. }
  { intros i j Hij. change (obj_at h (OMat (SVal Lt)) i j) with (numbers Lt !! (i, j)).
    rewrite Ltc. simpl in Hij. case_bool_decide; [|lia].
    destruct (Hl j i ltac:(lia)) as (x & Hx & _ & Hp & _). rewrite Hx. simpl. eauto. }
  { intros i j Hij. change (obj_at h (OMat (SVal Rt)) i j) with (numbers Rt !! (i, j)).
    rewrite Rtc. simpl in Hij. case_bool_decide; [|lia].
    destruct (Hr j i ltac:(lia)) as (x & Hx & _ & Hp & _). rewrite Hx. simpl. eauto. }
  simpl in Vh, Vw.
  assert (Vw' : mwidth V = obj_height h l) by lia.
  assert (CV : forall i j, (1 <= i <= obj_height h (OMat (SVal V)) /\
                            1 <= j <= obj_width h (OMat (SVal V)))%N ->
                exists y, obj_at h (OMat (SVal V)) i j = Some y /\ d_parses y = true).
  { intros i j Hij. change (obj_at h (OMat (SVal V)) i j) with (numbers V !! (i, j)).
    rewrite Vc. simpl in Hij. simpl. case_bool_decide; [|lia].
    change (obj_at h (OMat (SVal Lt)) i j) with (numbers Lt !! (i, j)).
    change (obj_at h (OMat (SVal Rt)) (i - mheight Lt)%N j)
      with (numbers Rt !! ((i - mheight Lt)%N, j)).
    rewrite Ltc, Rtc.
    repeat case_bool_decide; try lia.
    - destruct (Hl j i ltac:(lia)) as (x & Hx & _ & _ & Hp). rewrite Hx. simpl. eauto.
    - destruct (Hr j (i - mheight Lt)%N ltac:(lia)) as (x & Hx & _ & _ & Hp). rewrite Hx. simpl. eauto. }
  destruct (transposed_spec h (OMat (SVal V)) ltac:(simpl; lia) ltac:(simpl; lia) CV)
    as (C & HC & Ch & Cw & Cc).
  exists C. unfold hcat.
  replace (obj_height h l =? obj_height h r)%N with true by (symmetry; apply N.eqb_eq; exact Heq).
  simpl. rewrite HLt. simpl. rewrite HRt. simpl. rewrite HV. simpl.
  split; [exact HC|]. simpl in Ch, Cw. split; [lia|]. split; [lia|].
  intros i j.
  change (numbers C !! (i, j)) with (numbers C !! (i, j)). rewrite Cc. simpl.
  change (obj_at h (OMat (SVal V)) j i) with (numbers V !! (j, i)).
  rewrite Vc. simpl.
  change (obj_at h (OMat (SVal Lt)) j i) with (numbers Lt !! (j, i)).
  change (obj_at h (OMat (SVal Rt)) (j - mheight Lt)%N i) with (numbers Rt !! ((j - mheight Lt)%N, i)).
  rewrite Ltc, Rtc, Vw', Vh, Lth, Rth.
  repeat case_bool_decide; try lia; try reflexivity.
  - destruct (obj_at h l i j); reflexivity.
  - destruct (obj_at h r i (j - obj_width h l)); reflexivity.
Qed.

Lemma translate_assoc (a r i : N) : translate (translate a r) i = translate a (translate r i).
Proof.
  unfold translate.
  destruct (wrap_spec (a + r + (word - 1))) as [q1 [E1 L1]].
  destruct (wrap_spec (r + i + (word - 1))) as [q2 [E2 L2]].
  destruct (wrap_spec (wrap (a + r + (word - 1)) + i + (word - 1))) as [q3 [E3 L3]].
  destruct (wrap_spec (a + wrap (r + i + (word - 1)) + (word - 1))) as [q4 [E4 L4]].
  unfold word in *. lia.
Qed.

Lemma view_at (h : heap) (o : obj) (r1 c1 r2 c2 : N) (v : View) :
  make_view h o r1 c1 r2 c2 = inr v ->
  vwidth v = extent c1 c2 /\ vheight v = extent r1 r2 /\
  forall i k, obj_at h (OView v) i k = obj_at h o (translate r1 i) (translate c1 k).
Proof.
  intros Hv. apply make_view_inr in Hv. subst v. simpl. split; [reflexivity|]. split; [reflexivity|].
  intros i k. unfold obj_at. destruct o as [s|v0]; simpl; [reflexivity|].
  rewrite !translate_assoc. reflexivity.
Qed.

Lemma make_view_ok (h : heap) (o : obj) (r1 c1 r2 c2 : N) :
  (r1 <= obj_height h o)%N -> (r2 <= obj_height h o)%N ->
  (c1 <= obj_width h o)%N -> (c2 <= obj_width h o)%N ->
  exists v, make_view h o r1 c1 r2 c2 = inr v.
Proof.
  intros H1 H2 H3 H4. unfold make_view.
  replace (obj_height h o <? r1)%N with false by (symmetry; apply N.ltb_ge; lia).
  replace (obj_height h o <? r2)%N with false by (symmetry; apply N.ltb_ge; lia).
  replace (obj_width h o <? c1)%N with false by (symmetry; apply N.ltb_ge; lia).
  replace (obj_width h o <? c2)%N with false by (symmetry; apply N.ltb_ge; lia).
  eauto.
Qed.

Lemma fold_exc_ok {A B : Type} (f : A -> B -> error + A) (g : A -> B -> A) (l : list B) :
  (forall acc x, In x l -> f acc x = inr (g acc x)) ->
  forall acc, fold_exc f acc l = inr (fold_left g l acc).
Proof.
  induction l as [|x l IH]; intros Hf acc; simpl; [reflexivity|].
  rewrite Hf by (left; reflexivity). simpl. apply IH. intros acc' y Hy. apply Hf. right. exact Hy.
Qed.

Lemma fold_insert_lookup (G : N * N -> option R) (l : list (N * N)) :
  (forall rc, In rc l -> is_Some (G rc)) ->
  forall (mp : gmap (N * N) R) k,
    fold_left (fun mp rc => match G rc with Some x => <[rc := x]> mp | None => mp end) l mp !! k =
    if bool_decide (k ∈ l) then G k else mp !! k.
Proof.
  induction l as [|x l IH]; intros HG mp k; cbn [fold_left].
  - rewrite bool_decide_eq_false_2; [reflexivity|]. intros Hk. apply list_elem_of_In in Hk. exact Hk.
  - rewrite IH by (intros rc Hrc; apply HG; right; exact Hrc).
    destruct (HG x (or_introl eq_refl)) as [y Hy]. rewrite Hy.
    case_bool_decide as Hl; case_bool_decide as Hxl; try reflexivity.
    + exfalso. apply Hxl. apply list_elem_of_In. right. apply list_elem_of_In. exact Hl.
    + destruct (decide (k = x)) as [->|Hne].
      * rewrite lookup_insert_eq. congruence.
      * exfalso. apply list_elem_of_In in Hxl. destruct Hxl as [E|E]; [congruence|].
        apply Hl, list_elem_of_In, E.
    + rewrite lookup_insert_ne; [reflexivity|]. intros ->. apply Hxl. left.
Qed.

(** [Matrix(const Matrix&)] of an object whose declared cells are all present. *)
Lemma copy_obj_spec (h : heap) (o : obj) :
  (forall i j, (1 <= i <= obj_height h o /\ 1 <= j <= obj_width h o)%N -> is_Some (obj_at h o i j)) ->
  exists m, copy_obj h o = inr m /\ mwidth m = obj_width h o /\ mheight m = obj_height h o /\
    forall i j, numbers m !! (i, j) =
      if bool_decide (1 <= i <= obj_height h o /\ 1 <= j <= obj_width h o)%N
      then obj_at h o i j else None.
Proof.
  intros Hc. unfold copy_obj.
  set (l := list_prod (range1 (obj_height h o)) (range1 (obj_width h o))).
  set (G := fun rc : N * N => obj_at h o (fst rc) (snd rc)).
  assert (HG : forall rc, In rc l -> is_Some (G rc)).
  { intros [i j] Hrc. apply in_cells in Hrc. apply Hc. exact Hrc. }
  rewrite (fold_exc_ok _ (fun mp rc => match G rc with Some x => <[rc := x]> mp | None => mp end)).
  - simpl. eexists. split; [reflexivity|]. simpl. split; [reflexivity|]. split; [reflexivity|].
    intros i j. rewrite fold_insert_lookup by exact HG.
    case_bool_decide as Hin; case_bool_decide as Hr; try reflexivity; exfalso.
    + apply Hr. apply list_elem_of_In, in_cells in Hin. exact Hin.
    + apply Hin. apply list_elem_of_In, in_cells. exact Hr.
  - intros mp rc Hrc. unfold read_cell. destruct (HG rc Hrc) as [x Hx].
    unfold G in *. cbn beta in Hx |- *. rewrite Hx. reflexivity.
Qed.

(** A copy of a well-formed Matrix value is the same Matrix, cell by cell. *)
Lemma copy_val (h : heap) (m : Matrix) :
  wf m ->
  exists m', copy_obj h (OMat (SVal m)) = inr m' /\ mwidth m' = mwidth m /\ mheight m' = mheight m /\
    forall i j, numbers m' !! (i, j) = numbers m !! (i, j).
Proof.
  intros Hwf. destruct (copy_obj_spec h (OMat (SVal m))) as (m' & Hc & Hw & Hh & Hn).
  - intros i j Hij. apply (wf_lookup m i j Hwf). exact Hij.
  - exists m'. split; [exact Hc|]. split; [exact Hw|]. split; [exact Hh|].
    intros i j. rewrite Hn. simpl. case_bool_decide; [reflexivity|].
    symmetry. apply wf_none; [exact Hwf|exact H0].
Qed.

(** A copy has no cell that the copied object lacks. *)
Lemma copy_obj_none (h : heap) (o : obj) (C : Matrix) (i j : N) :
  copy_obj h o = inr C -> obj_at h o i j = None -> numbers C !! (i, j) = None.
Proof.
  unfold copy_obj. intros Hrun Hn.
  assert (Hinv : forall (l : list (N * N)) (mp mp' : gmap (N * N) R),
            fold_exc (fun mp rc => x ← read_cell h o (fst rc) (snd rc); mret (<[rc := x]> mp)) mp l = inr mp' ->
            mp !! (i, j) = None -> mp' !! (i, j) = None).
  { induction l as [|rc l IH]; intros mp mp' Hf Hmp; simpl in Hf.
    - injection Hf as <-. exact Hmp.
    - unfold read_cell in Hf. destruct (obj_at h o (fst rc) (snd rc)) as [x|] eqn:Hx; simpl in Hf; [|discriminate].
      apply (IH _ _ Hf). destruct (decide (rc = (i, j))) as [->|Hne].
      + simpl in Hx. congruence.
      + rewrite lookup_insert_ne by congruence. exact Hmp. }
  destruct (fold_exc _ ∅ _) as [e|nums] eqn:Hf; simpl in Hrun; [discriminate|].
  injection Hrun as <-. simpl. exact (Hinv _ _ _ Hf (lookup_empty _)).
Qed.

(** A cell that does not read back (an [inf] or a [nan]) ends its line of
    [transposed()]: whatever [transposed()] returns has no cell at its
    place. *)
Lemma transposed_unparsed (h : heap) (o : obj) (i j : N) (x : R) :
  (1 <= i <= obj_height h o /\ 1 <= j <= obj_width h o)%N ->
  obj_at h o i j = Some x -> d_parses x = false ->
  forall T, transposed h o = inr T -> numbers T !! (j, i) = None.
Proof.
  intros Hij Hx Hp T HT. unfold transposed in HT.
  destruct (mapM _ (range1 (obj_width h o))) as [e|ls] eqn:Hls; [discriminate|]. simpl in HT.
  destruct (mapM_inv _ _ _ Hls) as [Hlen Hk].
  destruct (lookup_lt_is_Some_2 ls (N.to_nat (j - 1))) as [l Hl].
  { rewrite Hlen, range1_length. lia. }
  pose proof (Hk _ _ _ (range1_lookup (obj_width h o) (N.to_nat (j - 1)) ltac:(lia)) Hl) as Hline.
  cbv beta in Hline. replace (N.of_nat (S (N.to_nat (j - 1)))) with j in Hline by lia.
  unfold read_line in Hline. destruct (mapM_inv _ _ _ Hline) as [Hlen' Hk'].
  destruct (lookup_lt_is_Some_2 l (N.to_nat (i - 1))) as [t Ht].
  { rewrite Hlen', length_map, range1_length. lia. }
  assert (Hc : map (fun r => (r, j)) (range1 (obj_height h o)) !! N.to_nat (i - 1) = Some (i, j)).
  { rewrite list_lookup_fmap, range1_lookup by lia. simpl. f_equal. f_equal. lia. }
  pose proof (Hk' _ _ _ Hc Ht) as Htok. cbn [fst snd] in Htok. unfold read_cell in Htok.
  rewrite Hx in Htok. simpl in Htok. injection Htok as <-.
  pose proof (parse_line_stops l _ _ Ht ltac:(simpl; rewrite Hp; reflexivity)) as Hshort.
  unfold from_stream in HT.
  pose proof (read_rows_short ls empty_matrix T HT ltac:(intros; apply lookup_empty)
                (N.to_nat (j - 1)) l i Hl ltac:(lia)) as Hnone.
  cbn [mheight empty_matrix] in Hnone.
  replace (0 + N.of_nat (S (N.to_nat (j - 1))))%N with j in Hnone by lia. exact Hnone.
Qed.



Section Product.

(** One cell of [operator*=]: row [r] of [tmp] against column [c] of [rhs],
    the column printed and re-read by [transposed()]. *)
Lemma dot_cell_spec (h : heap) (tmp : Matrix) (rhs : obj) (a b : N -> N -> R) (r c : N) :
  (1 <= r <= mheight tmp)%N -> (1 <= c <= obj_width h rhs)%N ->
  (1 <= mwidth tmp)%N -> mwidth tmp = obj_height h rhs ->
  (mheight tmp < word)%N -> (mwidth tmp < word)%N -> (obj_width h rhs < word)%N ->
  (forall i j, (1 <= i <= mheight tmp /\ 1 <= j <= mwidth tmp)%N -> numbers tmp !! (i, j) = Some (a i j)) ->
  (forall i j, (1 <= i <= obj_height h rhs /\ 1 <= j <= obj_width h rhs)%N -> obj_at h rhs i j = Some (b i j)) ->
  (forall i j, (1 <= i <= obj_height h rhs /\ 1 <= j <= obj_width h rhs)%N -> d_parses (b i j) = true) ->
  dot_cell h tmp rhs r c =
    inr (TDouble (fold_left (fun acc k => d_add acc (d_mul (a r k) (d_print (b k c))))
                            (range1 (mwidth tmp)) (d_of_Z 0))).
Proof.
  intros Hr Hc HW Hin Hbh Hbw Hbc Ha Hb Hbp. unfold dot_cell.
  destruct (make_view_ok h (OMat (SVal tmp)) r 1 r (mwidth tmp)) as [lv Hlv]; [simpl; lia ..|].
  rewrite Hlv. simpl.
  destruct (make_view_ok h rhs 1 c (obj_height h rhs) c) as [cv Hcv]; [lia ..|].
  rewrite Hcv. simpl.
  destruct (view_at h _ _ _ _ _ _ Hlv) as (_ & _ & Lat).
  destruct (view_at h _ _ _ _ _ _ Hcv) as (Cw & Ch & Cat).
  rewrite extent_small in Cw, Ch by lia.
  replace (c - c + 1)%N with 1%N in Cw by lia.
  replace (obj_height h rhs - 1 + 1)%N with (obj_height h rhs) in Ch by lia.
  assert (Cat' : forall i, (1 <= i <= obj_height h rhs)%N -> obj_at h (OView cv) i 1 = Some (b i c)).
  { intros i Hi. rewrite Cat. rewrite (translate_small 1 i), (translate_small c 1) by lia.
    replace (1 + i - 1)%N with i by lia. replace (c + 1 - 1)%N with c by lia. apply Hb. lia. }
  destruct (transposed_spec h (OView cv)) as (T & HT & Th & Tw & Tc).
  { simpl. lia. }
  { simpl. lia. }
  { intros i j Hij. simpl in Hij. rewrite Ch, Cw in Hij. assert (j = 1%N) as -> by lia.
    exists (b i c). split; [apply Cat'; lia|apply Hbp; lia]. }
  rewrite HT. simpl.
  rewrite (fold_exc_ok _ (fun acc k => d_add acc (d_mul (a r k) (d_print (b k c))))); [reflexivity|].
  intros acc i Hi. apply elem_range1 in Hi. unfold read_cell.
  rewrite Lat. rewrite (translate_small r 1), (translate_small 1 i) by lia.
  replace (r + 1 - 1)%N with r by lia. replace (1 + i - 1)%N with i by lia.
  change (obj_at h (OMat (SVal tmp)) r i) with (numbers tmp !! (r, i)).
  rewrite Ha by lia. simpl.
  change (obj_at h (OMat (SVal T)) 1 i) with (numbers T !! (1%N, i)).
  rewrite Tc. simpl obj_width. simpl obj_height. rewrite Ch, Cw.
  rewrite bool_decide_eq_true_2 by lia. rewrite Cat' by lia. reflexivity.
Qed.


Lemma mapM_pure {A B : Type} (f : A -> error + B) (g : A -> B) (l : list A) :
  (forall x, In x l -> f x = inr (g x)) -> mapM f l = inr (map g l).
Proof.
  induction l as [|x l IH]; intros Hf; simpl; [reflexivity|].
  rewrite Hf by (left; reflexivity). simpl. rewrite IH by (intros y Hy; apply Hf; right; exact Hy).
  reflexivity.
Qed.

Lemma line_cell_grid (F : N -> N -> R) (Hh W i j : N) :
  (1 <= i <= Hh /\ 1 <= j <= W)%N -> d_parses (F i j) = true ->
  line_cell (map (fun r => map (fun c => TDouble (F r c)) (range1 W)) (range1 Hh)) i j =
    Some (d_print (F i j)).
Proof.
  intros Hij HF. unfold line_cell. rewrite list_lookup_fmap, range1_lookup by lia. simpl.
  rewrite list_lookup_fmap, range1_lookup by lia. simpl.
  replace (N.of_nat (S (N.to_nat (i - 1)))) with i by lia.
  replace (N.of_nat (S (N.to_nat (j - 1)))) with j by lia.
  rewrite HF. reflexivity.
Qed.

(** [A * B] of objects whose cells are [a] and [b], where the cells of [B]
    and the sums read back: cell (i, j) is the printed and re-read sum,
    from 0 and left to right, of [a i k * d_print (b k j)]. *)
Lemma mat_mult_spec (h : heap) (lhs rhs : obj) (a b : N -> N -> R) :
  (1 <= obj_height h lhs < word)%N -> (1 <= obj_width h lhs < word)%N ->
  (1 <= obj_width h rhs < word)%N -> obj_width h lhs = obj_height h rhs ->
  (forall i j, (1 <= i <= obj_height h lhs /\ 1 <= j <= obj_width h lhs)%N -> obj_at h lhs i j = Some (a i j)) ->
  (forall i j, (1 <= i <= obj_height h rhs /\ 1 <= j <= obj_width h rhs)%N -> obj_at h rhs i j = Some (b i j)) ->
  (forall i j, (1 <= i <= obj_height h rhs /\ 1 <= j <= obj_width h rhs)%N -> d_parses (b i j) = true) ->
  (forall i j, (1 <= i <= obj_height h lhs /\ 1 <= j <= obj_width h rhs)%N ->
     d_parses (fold_left (fun acc k => d_add acc (d_mul (a i k) (d_print (b k j))))
                         (range1 (obj_width h lhs)) (d_of_Z 0)) = true) ->
  exists C, mat_mult h lhs rhs = inr C /\ mheight C = obj_height h lhs /\ mwidth C = obj_width h rhs /\
    forall i j, numbers C !! (i, j) =
      if bool_decide (1 <= i <= obj_height h lhs /\ 1 <= j <= obj_width h rhs)%N
      then Some (d_print (fold_left (fun acc k => d_add acc (d_mul (a i k) (d_print (b k j))))
                                    (range1 (obj_width h lhs)) (d_of_Z 0)))
      else None.
Proof.
  intros HH HW HWB Hin Ha Hb Hbp Hsum.
  set (num := fun i j => fold_left (fun acc k => d_add acc (d_mul (a i k) (d_print (b k j))))
                                   (range1 (obj_width h lhs)) (d_of_Z 0)).
  destruct (copy_obj_spec h lhs) as (tmp & Htmp & Tw & Th & Tc).
  { intros i j Hij. rewrite Ha by exact Hij. eauto. }
  unfold mat_mult. rewrite Htmp. simpl. unfold mult_assign.
  rewrite Tw, Hin, N.eqb_refl. simpl.
  set (ls := map (fun r => map (fun c => TDouble (num r c)) (range1 (obj_width h rhs)))
                 (range1 (mheight tmp))).
  assert (Hls : mapM (fun r => mapM (fun c => dot_cell h tmp rhs r c) (range1 (obj_width h rhs)))
                     (range1 (mheight tmp)) = inr ls).
  { apply mapM_pure. intros r Hr. apply elem_range1 in Hr. apply mapM_pure. intros c Hc.
    apply elem_range1 in Hc.
    rewrite (dot_cell_spec h tmp rhs a b r c); [rewrite Tw; reflexivity|lia|lia|lia|lia|lia|lia|lia| | |].
    - intros i j Hij. rewrite Tc, Th, Tw in *. rewrite bool_decide_eq_true_2 by lia. apply Ha. lia.
    - exact Hb.
    - exact Hbp. }
  rewrite Hls. simpl.
  destruct (from_stream_uniform (N.to_nat (obj_width h rhs)) ls) as (res & Hres & Rh & Rw & Rc).
  { lia. }
  { apply Forall_forall. intros l Hl. unfold ls in Hl. apply list_elem_of_In, in_map_iff in Hl as (r & <- & Hr).
    split; [rewrite length_map, range1_length; reflexivity|].
    apply Forall_forall. intros t Ht. apply list_elem_of_In, in_map_iff in Ht as (c & <- & Hc). simpl.
    apply elem_range1 in Hr, Hc. rewrite Th in Hr. unfold num. rewrite Hsum by lia. eauto. }
  rewrite Hres. simpl.
  assert (Hlen : N.of_nat (length ls) = obj_height h lhs).
  { unfold ls. rewrite length_map, range1_length. lia. }
  rewrite Hlen in Rh, Rc. rewrite N2Nat.id in Rc.
  assert (Rw' : mwidth res = obj_width h rhs).
  { rewrite Rw. destruct ls eqn:E; [simpl in Hlen; lia|lia]. }
  destruct (copy_obj_spec h (OMat (SVal res))) as (C & HC & Cw & Ch & Cc).
  { intros i j Hij. simpl in Hij. change (obj_at h (OMat (SVal res)) i j) with (numbers res !! (i, j)).
    rewrite Rc. rewrite bool_decide_eq_true_2 by lia.
    unfold ls. rewrite Th. rewrite line_cell_grid by (try (unfold num; apply Hsum); lia). eauto. }
  exists C. rewrite HC. split; [reflexivity|]. simpl in Cw, Ch.
  split; [lia|]. split; [lia|].
  intros i j. rewrite Cc. simpl. rewrite Rh, Rw'.
  change (obj_at h (OMat (SVal res)) i j) with (numbers res !! (i, j)).
  case_bool_decide as Hij; [|reflexivity].
  rewrite Rc, bool_decide_eq_true_2 by lia. unfold ls. rewrite Th, line_cell_grid by (try (unfold num; apply Hsum); lia).
  unfold num. rewrite Hin. reflexivity.
Qed.

(** A product cell whose sum does not read back (it overflowed to [inf], or
    is a [nan]) ends its line of the stream: whatever [A * B] returns has
    no cell at its place. *)
Lemma mat_mult_unparsed (h : heap) (lhs rhs : obj) (a b : N -> N -> R) (i j : N) :
  (1 <= obj_height h lhs < word)%N -> (1 <= obj_width h lhs < word)%N ->
  (1 <= obj_width h rhs < word)%N -> obj_width h lhs = obj_height h rhs ->
  (forall i j, (1 <= i <= obj_height h lhs /\ 1 <= j <= obj_width h lhs)%N -> obj_at h lhs i j = Some (a i j)) ->
  (forall i j, (1 <= i <= obj_height h rhs /\ 1 <= j <= obj_width h rhs)%N -> obj_at h rhs i j = Some (b i j)) ->
  (forall i j, (1 <= i <= obj_height h rhs /\ 1 <= j <= obj_width h rhs)%N -> d_parses (b i j) = true) ->
  (1 <= i <= obj_height h lhs /\ 1 <= j <= obj_width h rhs)%N ->
  d_parses (fold_left (fun acc k => d_add acc (d_mul (a i k) (d_print (b k j))))
                      (range1 (obj_width h lhs)) (d_of_Z 0)) = false ->
  forall C, mat_mult h lhs rhs = inr C -> numbers C !! (i, j) = None.
Proof.
  intros HH HW HWB Hin Ha Hb Hbp Hij Hs C HC.
  set (num := fun i j => fold_left (fun acc k => d_add acc (d_mul (a i k) (d_print (b k j))))
                                   (range1 (obj_width h lhs)) (d_of_Z 0)).
  destruct (copy_obj_spec h lhs) as (tmp & Htmp & Tw & Th & Tc).
  { intros i' j' Hij'. rewrite Ha by exact Hij'. eauto. }
  unfold mat_mult in HC. rewrite Htmp in HC. simpl in HC. unfold mult_assign in HC.
  rewrite Tw, Hin, N.eqb_refl in HC. simpl in HC.
  set (ls := map (fun r => map (fun c => TDouble (num r c)) (range1 (obj_width h rhs)))
                 (range1 (mheight tmp))).
  assert (Hls : mapM (fun r => mapM (fun c => dot_cell h tmp rhs r c) (range1 (obj_width h rhs)))
                     (range1 (mheight tmp)) = inr ls).
  { apply mapM_pure. intros r Hr. apply elem_range1 in Hr. apply mapM_pure. intros c Hc.
    apply elem_range1 in Hc.
    rewrite (dot_cell_spec h tmp rhs a b r c); [rewrite Tw; reflexivity|lia|lia|lia|lia|lia|lia|lia| | |].
    - intros i' j' Hij'. rewrite Tc, Th, Tw in *. rewrite bool_decide_eq_true_2 by lia. apply Ha. lia.
    - exact Hb.
    - exact Hbp. }
  rewrite Hls in HC. simpl in HC.
  destruct (from_stream ls) as [e|res] eqn:Hres; simpl in HC; [discriminate|].
  apply (copy_obj_none _ _ _ _ _ HC).
  change (obj_at h (OMat (SVal res)) i j) with (numbers res !! (i, j)).
  unfold from_stream in Hres.
  set (line := map (fun c => TDouble (num i c)) (range1 (obj_width h rhs))).
  assert (Hl : ls !! N.to_nat (i - 1) = Some line).
  { unfold ls, line. rewrite list_lookup_fmap, range1_lookup by (rewrite Th; lia). simpl.
    replace (N.of_nat (S (N.to_nat (i - 1)))) with i by lia. reflexivity. }
  assert (Ht : line !! N.to_nat (j - 1) = Some (TDouble (num i j))).
  { unfold line. rewrite list_lookup_fmap, range1_lookup by lia. simpl.
    replace (N.of_nat (S (N.to_nat (j - 1)))) with j by lia. reflexivity. }
  pose proof (parse_line_stops line _ _ Ht ltac:(simpl; unfold num; rewrite Hs; reflexivity)) as Hshort.
  pose proof (read_rows_short ls empty_matrix res Hres ltac:(intros; apply lookup_empty)
                (N.to_nat (i - 1)) line j Hl ltac:(lia)) as Hnone.
  cbn [mheight empty_matrix] in Hnone.
  replace (0 + N.of_nat (S (N.to_nat (i - 1))))%N with i in Hnone by lia. exact Hnone.
Qed.



Lemma identity_line_lookup (n r : N) (k : nat) :
  (1 <= r <= n)%N -> (k < N.to_nat n)%nat ->
  identity_line n r !! k = Some (@TInt R (if (k =? N.to_nat (r - 1))%nat then 1 else 0)%Z).
Proof.
  intros Hr Hk. unfold identity_line.
  destruct (Nat.lt_total k (N.to_nat (r - 1))) as [Hlt|[Heq|Hgt]].
  - rewrite lookup_app_l by (rewrite length_replicate; lia).
    rewrite lookup_replicate_2 by lia. replace (k =? N.to_nat (r - 1))%nat with false by (symmetry; apply Nat.eqb_neq; lia).
    reflexivity.
  - rewrite lookup_app_r by (rewrite length_replicate; lia). rewrite length_replicate.
    rewrite Heq, Nat.sub_diag, Nat.eqb_refl. reflexivity.
  - rewrite lookup_app_r by (rewrite length_replicate; lia). rewrite length_replicate.
    rewrite lookup_app_r by (simpl; lia). simpl length.
    rewrite lookup_replicate_2 by lia. replace (k =? N.to_nat (r - 1))%nat with false by (symmetry; apply Nat.eqb_neq; lia).
    reflexivity.
Qed.

(** [Matrix::identity(n)]: the ones and zeroes are printed as ints, so they
    are read back as the exact values [d_of_Z 1] and [d_of_Z 0]. *)
Lemma identity_spec (n : N) :
  (1 <= n)%N ->
  exists I, identity n = inr I /\ mheight I = n /\ mwidth I = n /\
    forall i j, numbers I !! (i, j) =
      if bool_decide (1 <= i <= n /\ 1 <= j <= n)%N
      then Some (d_of_Z (if (i =? j)%N then 1 else 0)%Z) else None.
Proof.
  intros Hn. unfold identity.
  destruct (from_stream_uniform (N.to_nat n) (map (identity_line n) (range1 n))) as (I & HI & Ih & Iw & Ic).
  { lia. }
  { apply Forall_forall. intros l Hl. apply list_elem_of_In, in_map_iff in Hl as (r & <- & Hr).
    apply elem_range1 in Hr. split.
    - unfold identity_line. rewrite !length_app, !length_replicate. simpl. lia.
    - apply Forall_forall. intros t Ht. apply list_elem_of_In in Ht. unfold identity_line in Ht.
      apply in_app_or in Ht as [Ht|[Ht|Ht]].
      + apply list_elem_of_In, elem_of_replicate_inv in Ht. subst t. simpl. eauto.
      + subst t. simpl. eauto.
      + apply list_elem_of_In, elem_of_replicate_inv in Ht. subst t. simpl. eauto. }
  rewrite length_map, range1_length, N2Nat.id in Ih, Ic.
  exists I. split; [exact HI|]. split; [exact Ih|]. split.
  { rewrite Iw. destruct (map (identity_line n) (range1 n)) eqn:E; [|lia].
    apply (f_equal length) in E. rewrite length_map, range1_length in E. simpl in E. lia. }
  intros i j. rewrite Ic. case_bool_decide as Hij; [|reflexivity].
  unfold line_cell. rewrite list_lookup_fmap, range1_lookup by lia. simpl.
  rewrite identity_line_lookup by lia. simpl. f_equal. f_equal.
  destruct (N.eqb_spec i j) as [->|Hne].
  - replace (N.of_nat (S (N.to_nat (j - 1)))) with j by lia. rewrite Nat.eqb_refl. reflexivity.
  - replace (N.to_nat (j - 1) =? N.to_nat (N.of_nat (S (N.to_nat (i - 1))) - 1))%nat with false
      by (symmetry; apply Nat.eqb_neq; lia). reflexivity.
Qed.


(** [operator*=] throws before computing anything when the shapes differ. *)
Lemma mat_mult_mismatch (h : heap) (lhs rhs : obj) :
  (forall i j, (1 <= i <= obj_height h lhs /\ 1 <= j <= obj_width h lhs)%N -> is_Some (obj_at h lhs i j)) ->
  obj_width h lhs <> obj_height h rhs -> mat_mult h lhs rhs = inl product_mismatch.
Proof.
  intros Hc Hne. destruct (copy_obj_spec h lhs Hc) as (tmp & Htmp & Tw & _ & _).
  unfold mat_mult. rewrite Htmp. simpl. unfold mult_assign. rewrite Tw.
  replace (obj_width h lhs =? obj_height h rhs)%N with false by (symmetry; apply N.eqb_neq; exact Hne).
  reflexivity.
Qed.

End Product.

End Materialize.

(** ** Which exceptions [inverse()] can throw, and where it writes *)

Section Inverse.
Context {R : Type} `{Double R}.
Local Abbreviation Matrix := (@Matrix R).
Local Abbreviation heap := (gmap N Matrix).
Local Abbreviation obj := (@obj R).

(** Only the singularity check throws [not_invertible]. *)

Lemma ni_bind {A B : Type} (m : error + A) (f : A -> error + B) :
  m <> inl not_invertible -> (forall x, f x <> inl not_invertible) ->
  (m ≫= f) <> inl not_invertible.
Proof. intros Hm Hf. destruct m as [e|x]; [|apply Hf]. intros E. apply Hm. injection E as ->. reflexivity. Qed.

Lemma ni_inr {A : Type} (x : A) : (inr x : error + A) <> inl not_invertible.
Proof. discriminate. Qed.

Lemma ni_of_option {A : Type} (o : option A) : of_option o <> inl not_invertible.
Proof. destruct o; discriminate. Qed.

Lemma ni_mapM {A B : Type} (f : A -> error + B) (l : list A) :
  (forall x, f x <> inl not_invertible) -> mapM f l <> inl not_invertible.
Proof.
  intros Hf. induction l as [|x l IH]; simpl; [discriminate|].
  destruct (f x) as [e|y] eqn:E; simpl.
  { intros E'. apply (Hf x). rewrite E. injection E' as ->. reflexivity. }
  destruct (mapM f l); simpl; [exact IH|discriminate].
Qed.

Lemma ni_fold_exc {A B : Type} (f : A -> B -> error + A) (l : list B) :
  (forall acc x, f acc x <> inl not_invertible) -> forall acc, fold_exc f acc l <> inl not_invertible.
Proof.
  intros Hf. induction l as [|x l IH]; intros acc; simpl; [discriminate|].
  apply ni_bind; [apply Hf|intros y; apply IH].
Qed.

Lemma ni_read_rows (ls : list (list (@token R))) (m : Matrix) : read_rows ls m <> inl not_invertible.
Proof.
  revert m. induction ls as [|l ls IH]; intros m; simpl; [discriminate|].
  destruct l; [discriminate|].
  destruct (mwidth m =? 0)%N; [apply IH|]. destruct (_ =? _)%N; [apply IH|discriminate].
Qed.

Lemma ni_make_view (h : heap) (o : obj) (r1 c1 r2 c2 : N) :
  make_view h o r1 c1 r2 c2 <> inl not_invertible.
Proof. unfold make_view. destruct (_ || _); discriminate. Qed.

Create HintDb ni.
#[local] Hint Resolve ni_bind ni_inr ni_of_option ni_mapM ni_fold_exc ni_read_rows ni_make_view : ni.
#[local] Hint Extern 1 (_ <> inl not_invertible) => discriminate : ni.

Lemma ni_transposed (h : heap) (o : obj) : transposed h o <> inl not_invertible.
Proof. unfold transposed, from_stream, read_line, read_cell. eauto 10 with ni. Qed.

Lemma ni_vcat (h : heap) (l r : obj) : vcat h l r <> inl not_invertible.
Proof.
  unfold vcat, from_stream, row_lines, read_line, read_cell.
  destruct (negb _); eauto 10 with ni.
Qed.

Lemma ni_hcat (h : heap) (l r : obj) : hcat h l r <> inl not_invertible.
Proof.
  unfold hcat. destruct (negb _); [discriminate|].
  apply ni_bind; [apply ni_transposed|intros lt].
  apply ni_bind; [apply ni_transposed|intros rt].
  apply ni_bind; [apply ni_vcat|intros v]. apply ni_transposed.
Qed.

Lemma ni_copy_obj (h : heap) (o : obj) : copy_obj h o <> inl not_invertible.
Proof. unfold copy_obj, read_cell. eauto 10 with ni. Qed.

Lemma ni_scalar_mul (h : heap) (o : obj) (k : R) : scalar_mul h o k <> inl not_invertible.
Proof.
  unfold scalar_mul. apply ni_bind; [apply ni_copy_obj|intros tmp].
  unfold scale_val. eauto 10 with ni.
Qed.

Lemma ni_identity (n : N) : @identity R H n <> inl not_invertible.
Proof. unfold identity, from_stream. apply ni_read_rows. Qed.

Lemma ni_string_form (m : Matrix) : string_form m <> inl not_invertible.
Proof. unfold string_form, row_lines, read_line, read_cell. eauto 10 with ni. Qed.

Lemma ni_det_fuel (f : nat) (h : heap) (o : obj) : det_fuel f h o <> inl not_invertible.
Proof.
  revert h o. induction f as [|f IH]; intros h o; simpl; [discriminate|].
  destruct (negb _); [discriminate|].
  destruct (_ =? 1)%N; [apply ni_of_option|].
  destruct (_ =? 2)%N; [unfold read_cell; eauto 10 with ni|].
  destruct (_ =? 0)%N; [discriminate|].
  apply ni_fold_exc. intros acc j. apply ni_bind; [|eauto with ni].
  unfold det_term. destruct (_ =? 1)%N; [|destruct (_ =? _)%N].
  - unfold read_cell. eauto 10 with ni.
  - unfold read_cell. eauto 10 with ni.
  - apply ni_bind; [apply ni_of_option|intros a]. apply ni_bind; [apply ni_make_view|intros v1].
    apply ni_bind; [apply ni_make_view|intros v2]. apply ni_bind; [apply ni_hcat|intros mn].
    eauto with ni.
Qed.

Lemma ni_determinant (h : heap) (o : obj) : determinant h o <> inl not_invertible.
Proof. apply ni_det_fuel. Qed.


Lemma sni_bind {A B : Type} (m : StM heap A) (f : A -> StM heap B) :
  (forall s, snd (m s) <> inl not_invertible) -> (forall x s, snd (f x s) <> inl not_invertible) ->
  forall s, snd (st_bind m f s) <> inl not_invertible.
Proof.
  intros Hm Hf s. unfold st_bind. specialize (Hm s). destruct (m s) as [s' [e|x]]; simpl in *.
  - intros E. apply Hm. injection E as ->. reflexivity.
  - apply Hf.
Qed.

Lemma sni_lift {A : Type} (e : error + A) :
  e <> inl not_invertible -> forall s : heap, snd (st_lift e s) <> inl not_invertible.
Proof. intros He s. exact He. Qed.

Lemma sni_get (s : heap) : snd (st_get s) <> inl not_invertible.
Proof. discriminate. Qed.

Lemma sni_ret {A : Type} (x : A) (s : heap) : snd (st_ret x s) <> inl not_invertible.
Proof. discriminate. Qed.

Lemma sni_for {A : Type} (l : list A) (body : A -> StM heap unit) :
  (forall x s, snd (body x s) <> inl not_invertible) ->
  forall s, snd (st_for l body s) <> inl not_invertible.
Proof.
  intros Hb. induction l as [|x l IH]; cbn [st_for]; [discriminate|].
  apply sni_bind; [apply Hb|intros _; exact IH].
Qed.

Lemma sni_modify_at (o : obj) (r c : N) (f : R -> R) (s : heap) :
  snd (modify_at o r c f s) <> inl not_invertible.
Proof.
  unfold modify_at. destruct (obj_src o) as [l|m].
  - destruct (s !! l) as [m|]; [destruct (numbers m !! _)|]; discriminate.
  - destruct (numbers m !! _); discriminate.
Qed.

Lemma sni_divide_assign (o : obj) (k : R) (s : heap) :
  snd (divide_assign o k s) <> inl not_invertible.
Proof.
  unfold divide_assign. revert s. apply sni_bind; [apply sni_get|intros h].
  apply sni_for. intros r. apply sni_for. intros c. apply sni_modify_at.
Qed.

Lemma sni_sub_assign (o rhs : obj) (s : heap) :
  snd (sub_assign o rhs s) <> inl not_invertible.
Proof.
  unfold sub_assign. revert s. apply sni_bind; [apply sni_get|intros h].
  apply sni_bind; [apply sni_lift; unfold negate; apply ni_scalar_mul|intros n].
  unfold add_assign. apply sni_bind; [apply sni_get|intros h'].
  destruct (_ && _); [|apply sni_lift; discriminate].
  apply sni_for. intros r. apply sni_for. intros c.
  apply sni_bind; [apply sni_get|intros h''].
  apply sni_bind; [apply sni_lift, ni_of_option|intros y]. apply sni_modify_at.
Qed.

(** Where the mutations write: [modify_at] changes only the Matrix the
    object reads through. *)

Lemma keeps_bind {A B : Type} (l : N) (m : StM heap A) (f : A -> StM heap B) :
  (forall s, fst (m s) !! l = s !! l) -> (forall x s, fst (f x s) !! l = s !! l) ->
  forall s, fst (st_bind m f s) !! l = s !! l.
Proof.
  intros Hm Hf s. unfold st_bind. specialize (Hm s). destruct (m s) as [s' [e|x]]; simpl in *.
  - exact Hm.
  - rewrite Hf. exact Hm.
Qed.

Lemma keeps_lift_bind {A B : Type} (l : N) (e : error + A) (f : A -> StM heap B) :
  (forall x, e = inr x -> forall s, fst (f x s) !! l = s !! l) ->
  forall s, fst (st_bind (st_lift e) f s) !! l = s !! l.
Proof.
  intros Hf s. unfold st_bind, st_lift. destruct e as [e|x]; simpl; [reflexivity|].
  apply Hf. reflexivity.
Qed.

Lemma keeps_get_bind {B : Type} (l : N) (f : heap -> StM heap B) :
  (forall x s, fst (f x s) !! l = s !! l) ->
  forall s, fst (st_bind st_get f s) !! l = s !! l.
Proof. intros Hf s. apply Hf. Qed.

Lemma keeps_lift {A : Type} (l : N) (e : error + A) (s : heap) : fst (st_lift e s) !! l = s !! l.
Proof. reflexivity. Qed.

Lemma keeps_ret {A : Type} (l : N) (x : A) (s : heap) : fst (st_ret x s) !! l = s !! l.
Proof. reflexivity. Qed.

Lemma keeps_for {A : Type} (l : N) (xs : list A) (body : A -> StM heap unit) :
  (forall x s, fst (body x s) !! l = s !! l) ->
  forall s, fst (st_for xs body s) !! l = s !! l.
Proof.
  intros Hb. induction xs as [|x xs IH]; cbn [st_for]; [intros s; reflexivity|].
  apply keeps_bind; [apply Hb|intros _; exact IH].
Qed.

Lemma keeps_modify_at (l : N) (o : obj) (r c : N) (f : R -> R) (s : heap) :
  obj_src o <> SLoc l -> fst (modify_at o r c f s) !! l = s !! l.
Proof.
  intros Hne. unfold modify_at. destruct (obj_src o) as [l'|m].
  - destruct (s !! l') as [m|]; [destruct (numbers m !! _)|]; simpl; try reflexivity.
    rewrite lookup_insert_ne; [reflexivity|]. intros ->. apply Hne. reflexivity.
  - destruct (numbers m !! _); reflexivity.
Qed.

Lemma keeps_divide_assign (l : N) (o : obj) (k : R) (s : heap) :
  obj_src o <> SLoc l -> fst (divide_assign o k s) !! l = s !! l.
Proof.
  intros Hne. unfold divide_assign. revert s. apply keeps_get_bind. intros h.
  apply keeps_for. intros r. apply keeps_for. intros c s. apply keeps_modify_at, Hne.
Qed.

Lemma keeps_sub_assign (l : N) (o rhs : obj) (s : heap) :
  obj_src o <> SLoc l -> fst (sub_assign o rhs s) !! l = s !! l.
Proof.
  intros Hne. unfold sub_assign. revert s. apply keeps_get_bind. intros h.
  apply keeps_lift_bind. intros n _. unfold add_assign. apply keeps_get_bind. intros h'.
  destruct (_ && _); [|apply keeps_lift].
  apply keeps_for. intros r. apply keeps_for. intros c.
  apply keeps_get_bind. intros h''. apply keeps_lift_bind. intros y _ s.
  apply keeps_modify_at, Hne.
Qed.

Lemma row_view_src (h : heap) (o : obj) (r : N) (v : View) :
  row_view h o r = inr v -> obj_src (OView v) = obj_src o.
Proof. unfold row_view. intros Hv. apply make_view_inr in Hv. subst v. reflexivity. Qed.


Lemma st_bind_get {B : Type} (f : heap -> StM heap B) (s : heap) : st_bind st_get f s = f s s.
Proof. reflexivity. Qed.

Lemma st_bind_lift_inl {A B : Type} (e : error + A) (err : error) (f : A -> StM heap B) (s : heap) :
  e = inl err -> st_bind (st_lift e) f s = (s, inl err).
Proof. intros ->. reflexivity. Qed.

Lemma st_bind_lift_inr {A B : Type} (e : error + A) (x : A) (f : A -> StM heap B) (s : heap) :
  e = inr x -> st_bind (st_lift e) f s = f x s.
Proof. intros ->. reflexivity. Qed.

Lemma st_bind_alloc {B : Type} (m : Matrix) (f : N -> StM heap B) (s : heap) :
  st_bind (alloc m) f s = f (fresh (dom s)) (<[fresh (dom s) := m]> s).
Proof. reflexivity. Qed.

Lemma sni_alloc (m : Matrix) (s : heap) : snd (alloc m s) <> inl not_invertible.
Proof. discriminate. Qed.

(** [inverse()] throws [not_invertible] exactly when the determinant is
    computed and compares equal to 0. *)
Lemma inverse_not_invertible (h : heap) (o : obj) :
  snd (inverse o h) = inl not_invertible <->
  exists d, determinant h o = inr d /\ d_eqb d (d_of_Z 0) = true.
Proof.
  unfold inverse. rewrite st_bind_get. cbv beta.
  destruct (determinant h o) as [e|d] eqn:Hd.
  - rewrite (st_bind_lift_inl _ e) by reflexivity. simpl. split.
    + intros E. injection E as ->. exfalso. exact (ni_determinant h o Hd).
    + intros (d & E & _). discriminate.
  - rewrite (st_bind_lift_inr _ d) by reflexivity. destruct (d_eqb d (d_of_Z 0)) eqn:Hz.
    + simpl. split; [intros _; exists d; auto|reflexivity].
    + split; [|intros (d' & E & Hz'); injection E as <-; congruence].
      intros E. exfalso. revert E.
      match goal with |- ?a = ?b -> False => change (a <> b) end.
      repeat first
        [ match goal with |- forall _, _ => intro end
        | apply sni_divide_assign
        | apply sni_sub_assign
        | apply sni_bind
        | apply sni_for
        | apply sni_get
        | apply sni_ret
        | apply sni_alloc
        | apply sni_lift;
          first [ apply ni_determinant | apply ni_copy_obj | apply ni_identity | apply ni_hcat
                | apply ni_string_form | apply ni_scalar_mul | apply ni_make_view
                | apply ni_of_option ]
        | match goal with |- context [if (?a =? ?b)%N then _ else _] => destruct (a =? b)%N end ].
Qed.

(** [inverse()] writes only to its two local Matrix objects: every location
    of the heap it starts from holds the same Matrix afterwards, whether it
    returns or throws. *)
Lemma inverse_keeps (h : heap) (o : obj) (l : N) :
  is_Some (h !! l) -> fst (inverse o h) !! l = h !! l.
Proof.
  intros Hl. apply elem_of_dom in Hl.
  unfold inverse. rewrite st_bind_get. cbv beta.
  destruct (determinant h o) as [e|d]; [reflexivity|].
  rewrite (st_bind_lift_inr _ d) by reflexivity. destruct (d_eqb d (d_of_Z 0)); [reflexivity|].
  rewrite (st_bind_lift_inr _ d) by reflexivity.
  destruct (copy_obj h o) as [e|tmpm]; [reflexivity|].
  rewrite (st_bind_lift_inr _ tmpm) by reflexivity. rewrite st_bind_alloc.
  set (tmp := fresh (dom h)).
  assert (Htmp : l <> tmp) by (intros ->; exact (is_fresh (dom h) Hl)).
  set (h1 := <[tmp := tmpm]> h).
  assert (E1 : h1 !! l = h !! l) by (apply lookup_insert_ne; congruence).
  destruct (identity (obj_width h o)) as [e|idm]; [exact E1|].
  rewrite (st_bind_lift_inr _ idm) by reflexivity. rewrite st_bind_alloc.
  assert (Hl1 : l ∈ dom h1) by (unfold h1; rewrite dom_insert_L; apply elem_of_union_r; exact Hl).
  set (inv := fresh (dom h1)).
  assert (Hinv : l <> inv) by (intros E; apply (is_fresh (dom h1)); fold inv; rewrite <- E; exact Hl1).
  set (h2 := <[inv := idm]> h1).
  assert (E2 : h2 !! l = h !! l) by (unfold h2; rewrite lookup_insert_ne by congruence; exact E1).
  rewrite <- E2.
  assert (Ht : @SLoc R tmp <> SLoc l) by congruence.
  assert (Hi : @SLoc R inv <> SLoc l) by congruence.
  apply keeps_bind; [|intros _; apply keeps_get_bind; intros h5; apply keeps_lift].
  apply keeps_for. intros r.
  apply keeps_get_bind. intros h1'.
  apply keeps_lift_bind. intros ov Hov.
  apply keeps_lift_bind. intros iv Hiv.
  apply keeps_lift_bind. intros k _.
  apply keeps_bind; [intros s; apply keeps_divide_assign; rewrite (row_view_src _ _ _ _ Hov); exact Ht|intros _].
  apply keeps_bind; [intros s; apply keeps_divide_assign; rewrite (row_view_src _ _ _ _ Hiv); exact Hi|intros _].
  apply keeps_for. intros r2.
  apply keeps_get_bind. intros h2'.
  apply keeps_lift_bind. intros shown _.
  apply keeps_lift_bind. intros u _.
  destruct (r2 =? r)%N; [intros s; apply keeps_ret|].
  apply keeps_get_bind. intros h3.
  apply keeps_lift_bind. intros km _.
  apply keeps_lift_bind. intros v Hv.
  apply keeps_lift_bind. intros p _.
  apply keeps_bind; [intros s; apply keeps_sub_assign; rewrite (row_view_src _ _ _ _ Hv); exact Ht|intros _].
  apply keeps_get_bind. intros h4.
  apply keeps_lift_bind. intros w Hw.
  apply keeps_lift_bind. intros q _.
  intros s. apply keeps_sub_assign. rewrite (row_view_src _ _ _ _ Hw). exact Hi.
Qed.

End Inverse.

(** ** The constructors from braced lists and the cellwise operators *)

Section Operators.
Context {R : Type} `{Double R}.
Local Abbreviation Matrix := (@Matrix R).
Local Abbreviation heap := (gmap N Matrix).
Local Abbreviation View := (@View R).
Local Abbreviation obj := (@obj R).

(** Rows of the braced list while the width is still 0. *)
Lemma init_rows_empties (k : nat) :
  forall (i : N) (rows : list (list R)) (m : Matrix), mwidth m = 0%N ->
  init_rows i (replicate k [] ++ rows) m =
  init_rows (i + N.of_nat k) rows (mkMatrix (numbers m) 0 (mheight m + N.of_nat k)).
Proof.
  induction k as [|k IH]; intros i rows m Hw; simpl.
  - destruct m as [nums w hg]; simpl in *. subst w. rewrite !N.add_0_r. reflexivity.
  - rewrite Hw. simpl. rewrite IH by reflexivity. simpl. f_equal; [lia|f_equal; lia].
Qed.

(** Rows of the braced list once the width is set. *)
Lemma init_rows_uniform (rows : list (list R)) :
  forall (i : N) (m : Matrix), mwidth m <> 0%N ->
  Forall (fun ys => N.of_nat (length ys) = mwidth m) rows ->
  (forall r c, (i <= r)%N -> numbers m !! (r, c) = None) ->
  exists m', init_rows i rows m = inr m' /\ mwidth m' = mwidth m /\
    mheight m' = (mheight m + N.of_nat (length rows))%N /\
    forall r c, numbers m' !! (r, c) =
      if bool_decide (i <= r)%N then
        if bool_decide (1 <= c)%N
        then rows !! N.to_nat (r - i) ≫= (fun ys => ys !! N.to_nat (c - 1)) else None
      else numbers m !! (r, c).
Proof.
  induction rows as [|ys rows IH]; intros i m Hw Hall Hfree.
  - exists m. split; [reflexivity|]. split; [reflexivity|]. split; [simpl; lia|].
    intros r c. case_bool_decide as Hr; [|reflexivity].
    rewrite Hfree by exact Hr. case_bool_decide; reflexivity.
  - inversion Hall as [|? ? Hys Hrest]; subst.
    set (m1 := mkMatrix (insert_row i 1 ys (numbers m)) (mwidth m) (mheight m + 1)).
    assert (Hrun : init_rows i (ys :: rows) m = init_rows (i + 1) rows m1).
    { cbn [init_rows]. rewrite Hys. destruct (mwidth m =? 0)%N eqn:E; [apply N.eqb_eq in E; contradiction|].
      rewrite N.eqb_refl. reflexivity. }
    assert (Hins : forall r c, numbers m1 !! (r, c) =
              if bool_decide (r = i /\ 1 <= c < 1 + N.of_nat (length ys))%N
              then ys !! N.to_nat (c - 1) else numbers m !! (r, c)).
    { intros r c. apply insert_row_lookup. intros c' _. apply Hfree. lia. }
    destruct (IH (i + 1)%N m1 Hw Hrest) as (m' & Hrun' & Hw' & Hh' & Hc').
    { intros r c Hr. simpl. rewrite Hins. case_bool_decide; [lia|]. apply Hfree. lia. }
    exists m'. rewrite Hrun, Hrun'. split; [reflexivity|]. split; [exact Hw'|].
    split; [rewrite Hh'; simpl; lia|].
    intros r c. rewrite Hc'. simpl. rewrite Hins.
    destruct (decide (i + 1 <= r)%N) as [Hr|Hr].
    + rewrite (bool_decide_eq_true_2 (i + 1 <= r)%N), (bool_decide_eq_true_2 (i <= r)%N) by lia.
      replace (N.to_nat (r - i)) with (S (N.to_nat (r - (i + 1)))) by lia. reflexivity.
    + rewrite (bool_decide_eq_false_2 (i + 1 <= r)%N) by exact Hr.
      destruct (decide (r = i)) as [->|Hne].
      * rewrite (bool_decide_eq_true_2 (i <= i)%N) by lia. rewrite N.sub_diag. simpl.
        case_bool_decide as Hc1; case_bool_decide as Hc2; try lia; try reflexivity.
        -- rewrite Hfree by lia. symmetry. apply lookup_ge_None_2. lia.
        -- rewrite Hfree by lia. reflexivity.
      * rewrite (bool_decide_eq_false_2 (i <= r)%N) by lia.
        case_bool_decide; [lia|reflexivity].
Qed.

Lemma init_rows_ragged (rows : list (list R)) :
  forall (i : N) (m : Matrix), mwidth m <> 0%N ->
  (exists ys, In ys rows /\ N.of_nat (length ys) <> mwidth m) ->
  init_rows i rows m = inl nonuniform_width.
Proof.
  induction rows as [|ys rows IH]; intros i m Hw (zs & Hin & Hz); [destruct Hin|].
  cbn [init_rows]. destruct (mwidth m =? 0)%N eqn:E; [apply N.eqb_eq in E; contradiction|].
  destruct (mwidth m =? N.of_nat (length ys))%N eqn:E2; [|reflexivity].
  apply N.eqb_eq in E2. apply IH; [exact Hw|]. exists zs. split; [|exact Hz].
  destruct Hin as [<-|Hin]; [lia|exact Hin].
Qed.

Lemma replicate_app_lookup {A : Type} (k : nat) (x : A) (l : list A) (n : nat) :
  (replicate k x ++ l) !! n = if (n <? k)%nat then Some x else l !! (n - k)%nat.
Proof.
  destruct (n <? k)%nat eqn:E.
  - apply Nat.ltb_lt in E. rewrite lookup_app_l by (rewrite length_replicate; lia).
    apply lookup_replicate_2. exact E.
  - apply Nat.ltb_ge in E. rewrite lookup_app_r by (rewrite length_replicate; lia).
    rewrite length_replicate. reflexivity.
Qed.

(** The cells of a Matrix laid out as the list of its rows are exactly the
    declared ones when every row has the width. *)
Lemma wf_of_rows (m : Matrix) (rows : list (list R)) (w : nat) :
  Forall (fun ys => length ys = w) rows ->
  mwidth m = N.of_nat w -> mheight m = N.of_nat (length rows) ->
  (forall i j, numbers m !! (i, j) =
     if bool_decide (1 <= i /\ 1 <= j)%N
     then rows !! N.to_nat (i - 1) ≫= (fun ys => ys !! N.to_nat (j - 1)) else None) ->
  wf m.
Proof.
  intros Hall Hw Hh Hc. rewrite Forall_lookup in Hall. split.
  - intros [i j] x Hx. rewrite Hc in Hx. case_bool_decide as Hij; [|discriminate].
    destruct (rows !! N.to_nat (i - 1)) as [ys|] eqn:Hr; [|discriminate]. simpl in Hx.
    pose proof (Hall _ _ Hr) as Hys. apply lookup_lt_Some in Hr, Hx. simpl. lia.
  - rewrite Forall_forall. intros [i j] Hin. apply list_elem_of_In, in_cells in Hin. simpl in Hin.
    rewrite Hc, bool_decide_eq_true_2 by lia.
    destruct (lookup_lt_is_Some_2 rows (N.to_nat (i - 1))) as [ys Hr]; [lia|].
    rewrite Hr. simpl. pose proof (Hall _ _ Hr) as Hys.
    apply lookup_lt_is_Some_2. lia.
Qed.

Lemma from_lists_lookup (k : nat) (xs : list R) (rest : list (list R)) :
  xs <> [] -> Forall (fun ys => length ys = length xs) rest ->
  let rows := replicate k [] ++ xs :: rest in
  exists m, from_lists rows = inr m /\
    mwidth m = N.of_nat (length xs) /\ mheight m = N.of_nat (length rows) /\
    forall i j, numbers m !! (i, j) =
      if bool_decide (1 <= i /\ 1 <= j)%N
      then rows !! N.to_nat (i - 1) ≫= (fun ys => ys !! N.to_nat (j - 1)) else None.
Proof.
  intros Hxs Hrest rows.
  assert (Hlen : length xs <> 0%nat) by (destruct xs; [contradiction|discriminate]).
  unfold from_lists, rows. rewrite init_rows_empties by reflexivity. cbn [init_rows].
  cbn [mwidth mheight numbers empty_matrix].
  replace (0 =? 0)%N with true by reflexivity.
  set (m1 := mkMatrix (insert_row (1 + N.of_nat k) 1 xs (numbers empty_matrix))
                      (N.of_nat (length xs)) (0 + N.of_nat k + 1)).
  destruct (init_rows_uniform rest (1 + N.of_nat k + 1) m1) as (m & Hrun & Hw & Hh & Hc).
  { simpl. lia. }
  { simpl. eapply Forall_impl; [exact Hrest|]. intros ys Hys. rewrite Hys. reflexivity. }
  { intros r c Hr. simpl. rewrite insert_row_lookup by (intros; apply lookup_empty).
    case_bool_decide; [lia|apply lookup_empty]. }
  exists m. split; [exact Hrun|]. split; [exact Hw|].
  split; [rewrite Hh; simpl; rewrite length_app, length_replicate; simpl; lia|].
  intros i j. rewrite Hc. simpl. rewrite insert_row_lookup by (intros; apply lookup_empty).
  rewrite lookup_empty, replicate_app_lookup.
  repeat case_bool_decide; try lia; try reflexivity.
  - replace (N.to_nat (i - 1) <? k)%nat with false by (symmetry; apply Nat.ltb_ge; lia).
    replace (N.to_nat (i - 1) - k)%nat with (S (N.to_nat (i - (1 + N.of_nat k + 1)))) by lia.
    reflexivity.
  - replace (N.to_nat (i - 1) <? k)%nat with false by (symmetry; apply Nat.ltb_ge; lia).
    replace (N.to_nat (i - 1) - k)%nat with 0%nat by lia. reflexivity.
  - destruct (N.to_nat (i - 1) <? k)%nat eqn:E; [simpl; rewrite lookup_nil; reflexivity|].
    apply Nat.ltb_ge in E.
    replace (N.to_nat (i - 1) - k)%nat with 0%nat by lia. simpl.
    symmetry. apply lookup_ge_None_2. lia.
Qed.

(** X1: [Matrix({{...}, ...})] whose rows after the leading empty ones all
    have the length of the first nonempty row [xs]: the result has that
    width and one row per braced row, cell (i, j) is the j-th number of the
    i-th braced row exactly as written (nothing is printed), and the Matrix
    is well formed exactly when there is no leading empty row: a leading
    empty row is counted in the height but holds no cell. *)
Theorem from_lists_cells (k : nat) (xs : list R) (rest : list (list R)) :
  xs <> [] -> Forall (fun ys => length ys = length xs) rest ->
  let rows := replicate k [] ++ xs :: rest in
  exists m, from_lists rows = inr m /\
    mwidth m = N.of_nat (length xs) /\ mheight m = N.of_nat (length rows) /\
    (forall i j, numbers m !! (i, j) =
       if bool_decide (1 <= i /\ 1 <= j)%N
       then rows !! N.to_nat (i - 1) ≫= (fun ys => ys !! N.to_nat (j - 1)) else None) /\
    (wf m <-> k = 0%nat).
Proof.
  intros Hxs Hrest rows.
  destruct (from_lists_lookup k xs rest Hxs Hrest) as (m & Hrun & Hw & Hh & Hc). fold rows in Hrun, Hh, Hc.
  exists m. split; [exact Hrun|]. split; [exact Hw|]. split; [exact Hh|]. split; [exact Hc|].
  assert (Hlen : length xs <> 0%nat) by (destruct xs; [contradiction|discriminate]).
  split.
  - intros [_ Hall]. destruct k as [|k]; [reflexivity|exfalso].
    rewrite Forall_forall in Hall. destruct (Hall (1%N, 1%N)) as [x Hx].
    + apply list_elem_of_In, in_cells. rewrite Hh, Hw. unfold rows.
      rewrite length_app, length_replicate. simpl. lia.
    + rewrite Hc in Hx. simpl in Hx. discriminate.
  - intros ->. apply (wf_of_rows m rows (length xs)); [|exact Hw|exact Hh|exact Hc].
    unfold rows. simpl. constructor; [reflexivity|exact Hrest].
Qed.

(** X2: [Matrix({{...}, ...})] throws "Matrix must have uniform width"
    exactly when some row after the first nonempty row [xs] has another
    length, an empty row included; leading empty rows never make it throw. *)
Theorem from_lists_nonuniform (k : nat) (xs : list R) (rest : list (list R)) :
  xs <> [] ->
  from_lists (replicate k [] ++ xs :: rest) = inl nonuniform_width <->
  exists ys, In ys rest /\ length ys <> length xs.
Proof.
  intros Hxs. split.
  - intros Hfail. destruct (decide (Forall (fun ys => length ys = length xs) rest)) as [Hall|Hall].
    + destruct (from_lists_lookup k xs rest Hxs Hall) as (m & Hrun & _). congruence.
    + apply not_Forall_Exists in Hall; [|intros ys; apply _].
      apply Exists_exists in Hall as (ys & Hin & Hys). exists ys. split; [apply list_elem_of_In; exact Hin|exact Hys].
  - intros (ys & Hin & Hys).
    assert (Hlen : length xs <> 0%nat) by (destruct xs; [contradiction|discriminate]).
    unfold from_lists. rewrite init_rows_empties by reflexivity. cbn [init_rows].
    cbn [mwidth mheight numbers empty_matrix]. replace (0 =? 0)%N with true by reflexivity.
    apply init_rows_ragged; [simpl; lia|]. exists ys. split; [exact Hin|]. simpl. lia.
Qed.

(** X3: a braced list of [k] empty rows, such as [Matrix({{}})], is a
    Matrix of height [k] and width 0 with no cell. *)
Theorem from_lists_empty_rows (k : nat) :
  from_lists (replicate k []) = inr (mkMatrix (∅ : gmap (N * N) R) 0 (N.of_nat k)).
Proof.
  unfold from_lists. rewrite <- (app_nil_r (replicate k [])).
  rewrite init_rows_empties by reflexivity. reflexivity.
Qed.

(** ** Cellwise updates of a Matrix value *)

Lemma fold_exc_ext {A B : Type} (f g : A -> B -> error + A) (l : list B) :
  (forall acc x, In x l -> f acc x = g acc x) -> forall acc, fold_exc f acc l = fold_exc g acc l.
Proof.
  induction l as [|x l IH]; intros Hfg acc; simpl; [reflexivity|].
  rewrite Hfg by (left; reflexivity). destruct (g acc x); [reflexivity|].
  simpl. apply IH. intros; apply Hfg; right; assumption.
Qed.

(** A fold stops with [e] when one of its steps throws [e] whatever the
    accumulator, and the others either succeed or throw [e]. *)
Lemma fold_exc_fail {A B : Type} (f : A -> B -> error + A) (e : error) (l : list B) :
  (forall acc x, In x l -> (exists a, f acc x = inr a) \/ f acc x = inl e) ->
  (exists x, In x l /\ forall acc, f acc x = inl e) ->
  forall acc, fold_exc f acc l = inl e.
Proof.
  induction l as [|y l IH]; intros Hf (x & Hx & Hfx) acc; [destruct Hx|]. simpl.
  destruct (Hf acc y (or_introl eq_refl)) as [[a Ha]|Ha]; rewrite Ha; [|reflexivity]. simpl.
  apply IH.
  - intros; apply Hf; right; assumption.
  - exists x. split; [|exact Hfx]. destruct Hx as [<-|Hx]; [|exact Hx].
    rewrite Hfx in Ha. discriminate.
Qed.

Lemma fold_update (F : N * N -> R -> R) (l : list (N * N)) :
  NoDup l -> forall mp : gmap (N * N) R, (forall rc, In rc l -> is_Some (mp !! rc)) ->
  exists mp', fold_exc (fun mp rc => x ← of_option (mp !! rc); mret (<[rc := F rc x]> mp)) mp l = inr mp' /\
    forall k, mp' !! k = if bool_decide (k ∈ l) then F k <$> mp !! k else mp !! k.
Proof.
  induction 1 as [|p l Hp Hl IH]; intros mp Hs.
  - exists mp. split; [reflexivity|]. intros k. rewrite bool_decide_eq_false_2; [reflexivity|].
    apply not_elem_of_nil.
  - destruct (Hs p (or_introl eq_refl)) as [x Hx].
    destruct (IH (<[p := F p x]> mp)) as (mp' & Hrun & Hk).
    { intros rc Hrc. rewrite lookup_insert_is_Some'. right. apply Hs. right. exact Hrc. }
    exists mp'. simpl. rewrite Hx. simpl. split; [exact Hrun|].
    intros k. rewrite Hk. destruct (decide (k = p)) as [->|Hne].
    + rewrite bool_decide_eq_false_2 by exact Hp. rewrite bool_decide_eq_true_2 by (left).
      rewrite lookup_insert_eq, Hx. reflexivity.
    + rewrite lookup_insert_ne by congruence.
      case_bool_decide as H1; case_bool_decide as H2; try reflexivity; exfalso.
      * apply H2. right. exact H1.
      * apply elem_of_cons in H2 as [E|E]; [contradiction|exact (H1 E)].
Qed.

(** [this(r, c) = f(this(r, c))] over the declared cells of a Matrix value
    whose declared cells are all present: the declared cells are updated,
    the others kept. *)
Lemma update_cells (F : N * N -> R -> R) (m : Matrix) :
  (forall i j, (1 <= i <= mheight m /\ 1 <= j <= mwidth m)%N -> is_Some (numbers m !! (i, j))) ->
  exists nums, fold_exc (fun mp rc => x ← of_option (mp !! rc); mret (<[rc := F rc x]> mp))
                 (numbers m) (list_prod (range1 (mheight m)) (range1 (mwidth m))) = inr nums /\
    forall i j, nums !! (i, j) =
      if bool_decide (1 <= i <= mheight m /\ 1 <= j <= mwidth m)%N
      then F (i, j) <$> numbers m !! (i, j) else numbers m !! (i, j).
Proof.
  intros Hs.
  destruct (fold_update F (list_prod (range1 (mheight m)) (range1 (mwidth m)))
              (NoDup_list_prod _ _ (NoDup_range1 _) (NoDup_range1 _)) (numbers m)) as (nums & Hrun & Hk).
  { intros [i j] Hin. apply in_cells in Hin. apply Hs. exact Hin. }
  exists nums. split; [exact Hrun|]. intros i j. rewrite Hk.
  rewrite (bool_decide_ext ((i, j) ∈ _) (1 <= i <= mheight m /\ 1 <= j <= mwidth m)%N);
    [reflexivity|]. rewrite list_elem_of_In, in_cells. reflexivity.
Qed.


(** [Matrix tmp = *this], then [this(r, c) = f(this(r, c))] on [tmp]. *)
Lemma copy_update (h : heap) (o : obj) (F : N * N -> R -> R) :
  (forall i j, (1 <= i <= obj_height h o /\ 1 <= j <= obj_width h o)%N -> is_Some (obj_at h o i j)) ->
  exists tmp nums, copy_obj h o = inr tmp /\ mwidth tmp = obj_width h o /\ mheight tmp = obj_height h o /\
    fold_exc (fun mp rc => x ← of_option (mp !! rc); mret (<[rc := F rc x]> mp))
      (numbers tmp) (list_prod (range1 (mheight tmp)) (range1 (mwidth tmp))) = inr nums /\
    forall i j, nums !! (i, j) =
      if bool_decide (1 <= i <= obj_height h o /\ 1 <= j <= obj_width h o)%N
      then F (i, j) <$> obj_at h o i j else None.
Proof.
  intros Hs. destruct (copy_obj_spec h o Hs) as (tmp & Hc & Hw & Hh & Hn).
  destruct (update_cells F tmp) as (nums & Hrun & Hk).
  { intros i j Hij. rewrite Hn, Hw, Hh in *. rewrite bool_decide_eq_true_2 by exact Hij. apply Hs, Hij. }
  exists tmp, nums. split; [exact Hc|]. split; [exact Hw|]. split; [exact Hh|]. split; [exact Hrun|].
  intros i j. rewrite Hk, Hn, Hw, Hh. case_bool_decide; reflexivity.
Qed.

Lemma scalar_mul_spec (h : heap) (o : obj) (k : R) :
  (forall i j, (1 <= i <= obj_height h o /\ 1 <= j <= obj_width h o)%N -> is_Some (obj_at h o i j)) ->
  exists m, scalar_mul h o k = inr m /\
    mwidth m = obj_width h o /\ mheight m = obj_height h o /\
    forall i j, numbers m !! (i, j) =
      if bool_decide (1 <= i <= obj_height h o /\ 1 <= j <= obj_width h o)%N
      then (fun x => d_mul x k) <$> obj_at h o i j else None.
Proof.
  intros Hs. destruct (copy_update h o (fun _ x => d_mul x k) Hs) as (tmp & nums & Hc & Hw & Hh & Hrun & Hn).
  cbn beta in Hrun, Hn. exists (mkMatrix nums (mwidth tmp) (mheight tmp)).
  unfold scalar_mul, scale_val. rewrite Hc. simpl. rewrite Hrun. simpl.
  split; [reflexivity|]. split; [exact Hw|]. split; [exact Hh|]. exact Hn.
Qed.

(** X4: [A * k], [k * A] and [-A] of an object whose declared cells are all
    present succeed with the shape of [A]; each declared cell is the double
    product of the cell of [A] by [k] (by [-1] for [-A]), with no printing,
    and there is no other cell. *)
Theorem scalar_mul_cells (h : heap) (o : obj) :
  (forall i j, (1 <= i <= obj_height h o /\ 1 <= j <= obj_width h o)%N -> is_Some (obj_at h o i j)) ->
  (forall k, exists m, scalar_mul h o k = inr m /\
     mwidth m = obj_width h o /\ mheight m = obj_height h o /\
     forall i j, numbers m !! (i, j) =
       if bool_decide (1 <= i <= obj_height h o /\ 1 <= j <= obj_width h o)%N
       then (fun x => d_mul x k) <$> obj_at h o i j else None) /\
  (exists m, negate h o = inr m /\
     mwidth m = obj_width h o /\ mheight m = obj_height h o /\
     forall i j, numbers m !! (i, j) =
       if bool_decide (1 <= i <= obj_height h o /\ 1 <= j <= obj_width h o)%N
       then (fun x => d_mul x (d_of_Z (-1))) <$> obj_at h o i j else None).
Proof.
  intros Hs. split; [intros k|]; apply scalar_mul_spec, Hs.
Qed.

(** X5: [A / k] of an object whose declared cells are all present succeeds
    with the shape of [A]; each declared cell is the double quotient of the
    cell of [A] by [k], and there is no other cell. *)
Theorem scalar_div_cells (h : heap) (o : obj) (k : R) :
  (forall i j, (1 <= i <= obj_height h o /\ 1 <= j <= obj_width h o)%N -> is_Some (obj_at h o i j)) ->
  exists m, scalar_div h o k = inr m /\
    mwidth m = obj_width h o /\ mheight m = obj_height h o /\
    forall i j, numbers m !! (i, j) =
      if bool_decide (1 <= i <= obj_height h o /\ 1 <= j <= obj_width h o)%N
      then (fun x => d_div x k) <$> obj_at h o i j else None.
Proof.
  intros Hs. destruct (copy_update h o (fun _ x => d_div x k) Hs) as (tmp & nums & Hc & Hw & Hh & Hrun & Hn).
  cbn beta in Hrun, Hn. exists (mkMatrix nums (mwidth tmp) (mheight tmp)).
  unfold scalar_div, div_val. rewrite Hc. simpl. rewrite Hrun. simpl.
  split; [reflexivity|]. split; [exact Hw|]. split; [exact Hh|]. exact Hn.
Qed.

Lemma copy_obj_missing (h : heap) (o : obj) (i j : N) :
  (1 <= i <= obj_height h o /\ 1 <= j <= obj_width h o)%N -> obj_at h o i j = None ->
  copy_obj h o = inl out_of_range.
Proof.
  intros Hij Hn. unfold copy_obj. rewrite (fold_exc_fail _ out_of_range); [reflexivity| |].
  - intros acc [r c] _. unfold read_cell. simpl. destruct (obj_at h o r c); [left; eauto|right; reflexivity].
  - exists (i, j). split; [apply in_cells; exact Hij|]. intros acc. unfold read_cell. simpl. rewrite Hn. reflexivity.
Qed.

(** X6: copying an object one of whose declared cells is missing (as the
    copy constructor and [operator=] do) throws [std::out_of_range], and so
    do [A * k], [-A], [A / k], and [A + B] and [A - B] with such an [A]. *)
Theorem missing_cell_out_of_range (h : heap) (o : obj) (i j : N) :
  (1 <= i <= obj_height h o /\ 1 <= j <= obj_width h o)%N -> obj_at h o i j = None ->
  copy_obj h o = inl out_of_range /\ (forall k, scalar_mul h o k = inl out_of_range) /\
  negate h o = inl out_of_range /\ (forall k, scalar_div h o k = inl out_of_range) /\
  (forall rhs, mat_add h o rhs = inl out_of_range) /\ (forall rhs, mat_sub h o rhs = inl out_of_range).
Proof.
  intros Hij Hn. pose proof (copy_obj_missing h o i j Hij Hn) as Hc.
  unfold negate, scalar_mul, scalar_div, mat_add, mat_sub. rewrite Hc.
  repeat split; reflexivity.
Qed.

(** [tmp += rhs] for a Matrix value [tmp] and an object [rhs] of its shape,
    both with all their declared cells. *)
Lemma add_val_cells (h : heap) (tmp : Matrix) (rhs : obj) :
  (forall i j, (1 <= i <= mheight tmp /\ 1 <= j <= mwidth tmp)%N -> is_Some (numbers tmp !! (i, j))) ->
  (forall i j, (1 <= i <= obj_height h rhs /\ 1 <= j <= obj_width h rhs)%N -> is_Some (obj_at h rhs i j)) ->
  mwidth tmp = obj_width h rhs -> mheight tmp = obj_height h rhs ->
  exists nums, add_val h tmp rhs = inr (mkMatrix nums (mwidth tmp) (mheight tmp)) /\
    forall i j, nums !! (i, j) =
      if bool_decide (1 <= i <= mheight tmp /\ 1 <= j <= mwidth tmp)%N
      then (x ← numbers tmp !! (i, j); y ← obj_at h rhs i j; Some (d_add x y))
      else numbers tmp !! (i, j).
Proof.
  intros Ht Hr Hw Hh.
  set (Y := fun rc : N * N => from_option (fun y => y) (d_of_Z 0) (obj_at h rhs (fst rc) (snd rc))).
  destruct (update_cells (fun rc x => d_add x (Y rc)) tmp Ht) as (nums & Hrun & Hk).
  exists nums. unfold add_val.
  replace (mwidth tmp =? obj_width h rhs)%N with true by (symmetry; apply N.eqb_eq; exact Hw).
  replace (mheight tmp =? obj_height h rhs)%N with true by (symmetry; apply N.eqb_eq; exact Hh). simpl.
  rewrite (fold_exc_ext _ (fun mp rc => x ← of_option (mp !! rc);
                                        mret (<[rc := (fun rc x => d_add x (Y rc)) rc x]> mp))).
  - rewrite Hrun. split; [reflexivity|].
    intros i j. rewrite Hk. case_bool_decide as Hij; [|reflexivity].
    destruct (Hr i j) as [y Hy]; [rewrite <- Hw, <- Hh; exact Hij|].
    destruct (numbers tmp !! (i, j)); simpl; [|reflexivity]. rewrite Hy. unfold Y. simpl. rewrite Hy. reflexivity.
  - intros acc [r c] Hin. apply in_cells in Hin. simpl in Hin.
    destruct (Hr r c) as [y Hy]; [rewrite <- Hw, <- Hh; exact Hin|].
    unfold read_cell. simpl. rewrite Hy. simpl. unfold Y. simpl. rewrite Hy. reflexivity.
Qed.

Lemma add_val_mismatch (h : heap) (tmp : Matrix) (rhs : obj) :
  ~ (mwidth tmp = obj_width h rhs /\ mheight tmp = obj_height h rhs) ->
  add_val h tmp rhs = inl unlike_dimensions.
Proof.
  intros Hne. unfold add_val.
  destruct (mwidth tmp =? obj_width h rhs)%N eqn:E1; [|reflexivity].
  destruct (mheight tmp =? obj_height h rhs)%N eqn:E2; [|reflexivity].
  apply N.eqb_eq in E1, E2. tauto.
Qed.

(** X7: for objects [A] and [B] whose declared cells are all present,
    [A + B] throws [std::invalid_argument] (unlike dimensions) exactly when
    their shapes differ; otherwise it has the shape of [A] and each declared
    cell is the double sum of the cells of [A] and [B], with no other cell. *)
Theorem mat_add_cells (h : heap) (lhs rhs : obj) :
  (forall i j, (1 <= i <= obj_height h lhs /\ 1 <= j <= obj_width h lhs)%N -> is_Some (obj_at h lhs i j)) ->
  (forall i j, (1 <= i <= obj_height h rhs /\ 1 <= j <= obj_width h rhs)%N -> is_Some (obj_at h rhs i j)) ->
  (mat_add h lhs rhs = inl unlike_dimensions <->
     ~ (obj_width h lhs = obj_width h rhs /\ obj_height h lhs = obj_height h rhs)) /\
  (obj_width h lhs = obj_width h rhs -> obj_height h lhs = obj_height h rhs ->
   exists m, mat_add h lhs rhs = inr m /\
     mwidth m = obj_width h lhs /\ mheight m = obj_height h lhs /\
     forall i j, numbers m !! (i, j) =
       if bool_decide (1 <= i <= obj_height h lhs /\ 1 <= j <= obj_width h lhs)%N
       then (x ← obj_at h lhs i j; y ← obj_at h rhs i j; Some (d_add x y)) else None).
Proof.
  intros Hl Hr. destruct (copy_obj_spec h lhs Hl) as (tmp & Hc & Hw & Hh & Hn).
  assert (Ht : forall i j, (1 <= i <= mheight tmp /\ 1 <= j <= mwidth tmp)%N -> is_Some (numbers tmp !! (i, j))).
  { intros i j Hij. rewrite Hn, bool_decide_eq_true_2 by lia. apply Hl. lia. }
  assert (Hok : obj_width h lhs = obj_width h rhs -> obj_height h lhs = obj_height h rhs ->
   exists m, mat_add h lhs rhs = inr m /\
     mwidth m = obj_width h lhs /\ mheight m = obj_height h lhs /\
     forall i j, numbers m !! (i, j) =
       if bool_decide (1 <= i <= obj_height h lhs /\ 1 <= j <= obj_width h lhs)%N
       then (x ← obj_at h lhs i j; y ← obj_at h rhs i j; Some (d_add x y)) else None).
  { intros E1 E2. destruct (add_val_cells h tmp rhs Ht Hr) as (nums & Hrun & Hk); [lia|lia|].
    exists (mkMatrix nums (mwidth tmp) (mheight tmp)). unfold mat_add. rewrite Hc. simpl.
    split; [exact Hrun|]. split; [exact Hw|]. split; [exact Hh|].
    intros i j. simpl. rewrite Hk, Hn, Hw, Hh. case_bool_decide; reflexivity. }
  split; [|exact Hok]. split.
  - intros Hfail [E1 E2]. destruct (Hok E1 E2) as (m & Hm & _). congruence.
  - intros Hne. unfold mat_add. rewrite Hc. simpl. apply add_val_mismatch. rewrite Hw, Hh. exact Hne.
Qed.

(** X8: for objects [A] and [B] whose declared cells are all present,
    [A - B], which adds [-B] to a copy of [A], throws
    [std::invalid_argument] (unlike dimensions) exactly when their shapes
    differ; otherwise it has the shape of [A] and each declared cell is
    [a + b * (-1)] in double arithmetic, with no other cell. *)
Theorem mat_sub_cells (h : heap) (lhs rhs : obj) :
  (forall i j, (1 <= i <= obj_height h lhs /\ 1 <= j <= obj_width h lhs)%N -> is_Some (obj_at h lhs i j)) ->
  (forall i j, (1 <= i <= obj_height h rhs /\ 1 <= j <= obj_width h rhs)%N -> is_Some (obj_at h rhs i j)) ->
  (mat_sub h lhs rhs = inl unlike_dimensions <->
     ~ (obj_width h lhs = obj_width h rhs /\ obj_height h lhs = obj_height h rhs)) /\
  (obj_width h lhs = obj_width h rhs -> obj_height h lhs = obj_height h rhs ->
   exists m, mat_sub h lhs rhs = inr m /\
     mwidth m = obj_width h lhs /\ mheight m = obj_height h lhs /\
     forall i j, numbers m !! (i, j) =
       if bool_decide (1 <= i <= obj_height h lhs /\ 1 <= j <= obj_width h lhs)%N
       then (x ← obj_at h lhs i j; y ← obj_at h rhs i j; Some (d_add x (d_mul y (d_of_Z (-1)))))
       else None).
Proof.
  intros Hl Hr. destruct (copy_obj_spec h lhs Hl) as (tmp & Hc & Hw & Hh & Hn).
  destruct (scalar_mul_spec h rhs (d_of_Z (-1)) Hr) as (n & Hneg & Hnw & Hnh & Hnn).
  assert (Ht : forall i j, (1 <= i <= mheight tmp /\ 1 <= j <= mwidth tmp)%N -> is_Some (numbers tmp !! (i, j))).
  { intros i j Hij. rewrite Hn, bool_decide_eq_true_2 by lia. apply Hl. lia. }
  assert (Hrun0 : mat_sub h lhs rhs = add_val h tmp (OMat (SVal n))).
  { unfold mat_sub. rewrite Hc. simpl. unfold negate. rewrite Hneg. reflexivity. }
  assert (Hok : obj_width h lhs = obj_width h rhs -> obj_height h lhs = obj_height h rhs ->
   exists m, mat_sub h lhs rhs = inr m /\
     mwidth m = obj_width h lhs /\ mheight m = obj_height h lhs /\
     forall i j, numbers m !! (i, j) =
       if bool_decide (1 <= i <= obj_height h lhs /\ 1 <= j <= obj_width h lhs)%N
       then (x ← obj_at h lhs i j; y ← obj_at h rhs i j; Some (d_add x (d_mul y (d_of_Z (-1)))))
       else None).
  { intros E1 E2. destruct (add_val_cells h tmp (OMat (SVal n)) Ht) as (nums & Hrun & Hk).
    - intros i j Hij. change (is_Some (numbers n !! (i, j))). simpl in Hij.
      rewrite Hnn, bool_decide_eq_true_2 by lia. destruct (Hr i j) as [y Hy]; [lia|]. rewrite Hy. eauto.
    - simpl. lia.
    - simpl. lia.
    - exists (mkMatrix nums (mwidth tmp) (mheight tmp)). rewrite Hrun0.
      split; [exact Hrun|]. split; [exact Hw|]. split; [exact Hh|].
      intros i j. simpl. rewrite Hk, Hn, Hw, Hh. case_bool_decide as Hij; [|reflexivity].
      change (obj_at h (OMat (SVal n)) i j) with (numbers n !! (i, j)).
      rewrite Hnn, bool_decide_eq_true_2 by lia.
      destruct (obj_at h lhs i j); simpl; [|reflexivity].
      destruct (obj_at h rhs i j); reflexivity. }
  split; [|exact Hok]. split.
  - intros Hfail [E1 E2]. destruct (Hok E1 E2) as (m & Hm & _). congruence.
  - intros Hne. rewrite Hrun0. apply add_val_mismatch. simpl. rewrite Hw, Hh, Hnw, Hnh. exact Hne.
Qed.

(** X9: [Matrix({x1, ..., xn})] is the column of the numbers: width 1 and
    height [n] (the 0 x 0 Matrix for the empty list), and cell (i, 1) is
    [xi] printed to a stream by [transposed()] and read back, not [xi]
    itself; there is no other cell. *)
Theorem from_list_column (xs : list R) :
  Forall (fun x => d_parses x = true) xs ->
  exists m, from_list xs = inr m /\
    mwidth m = (match xs with [] => 0 | _ => 1 end)%N /\ mheight m = N.of_nat (length xs) /\
    forall i j, numbers m !! (i, j) =
      if bool_decide (1 <= i /\ j = 1)%N then d_print <$> xs !! N.to_nat (i - 1) else None.
Proof.
  intros Hp. destruct xs as [|x xs'].
  - exists (mkMatrix ∅ 0 0). split; [reflexivity|]. split; [reflexivity|]. split; [reflexivity|].
    intros i j. cbn [numbers]. rewrite lookup_empty. simpl. case_bool_decide; reflexivity.
  - set (xs := x :: xs'). assert (Hne : xs <> []) by discriminate.
    destruct (from_lists_lookup 0 xs [] Hne (List.Forall_nil _)) as (m1 & Hrun1 & Hw1 & Hh1 & Hc1).
    simpl in Hrun1, Hh1, Hc1.
    assert (Hcell1 : forall i j, (1 <= i <= 1 /\ 1 <= j <= N.of_nat (length xs))%N ->
              exists y, obj_at ∅ (OMat (SVal m1)) i j = Some y /\ d_parses y = true).
    { intros i j Hij. change (obj_at ∅ (OMat (SVal m1)) i j) with (numbers m1 !! (i, j)).
      rewrite Hc1, bool_decide_eq_true_2 by lia.
      replace (N.to_nat (i - 1)) with 0%nat by lia. simpl.
      destruct (lookup_lt_is_Some_2 xs (N.to_nat (j - 1))) as [y Hy]; [lia|].
      exists y. split; [exact Hy|]. rewrite Forall_lookup in Hp. exact (Hp _ _ Hy). }
    destruct (transposed_spec ∅ (OMat (SVal m1))) as (T & HT & HTh & HTw & HTc).
    { simpl. lia. }
    { simpl. rewrite Hw1. simpl. lia. }
    { intros i j Hij. apply Hcell1. simpl in Hij. lia. }
    simpl in HTh, HTw, HTc.
    destruct (copy_obj_spec ∅ (OMat (SVal T))) as (m & Hc & Hw & Hh & Hn).
    { intros i j Hij. change (is_Some (numbers T !! (i, j))). simpl in Hij.
      rewrite HTc, bool_decide_eq_true_2 by lia.
      destruct (Hcell1 j i) as (y & Hy & _); [lia|]. rewrite Hy. eauto. }
    exists m. unfold from_list. rewrite Hrun1. simpl. rewrite HT. simpl. rewrite Hc.
    split; [reflexivity|]. simpl in Hw, Hh. split; [rewrite Hw, HTw, Hh1; reflexivity|].
    split; [rewrite Hh, HTh, Hw1; reflexivity|].
    intros i j. rewrite Hn. change (obj_at ∅ (OMat (SVal T)) i j) with (numbers T !! (i, j)).
    rewrite HTc. change (obj_at ∅ (OMat (SVal m1)) j i) with (numbers m1 !! (j, i)). rewrite Hc1.
    simpl. rewrite HTh, HTw, Hh1, Hw1.
    repeat case_bool_decide; try lia; try reflexivity; simpl in *.
    + replace j with 1%N by lia. replace (N.to_nat (1 - 1)) with 0%nat by lia. reflexivity.
    + rewrite lookup_ge_None_2; [reflexivity|]. simpl in *. lia.
Qed.

(** ** Degenerate shapes and the text form *)

Lemma mapM_inr_all {A B : Type} (f : A -> error + B) (l : list A) (ys : list B) :
  mapM f l = inr ys -> forall x, In x l -> exists y, f x = inr y.
Proof.
  revert ys. induction l as [|z l IH]; intros ys Hrun x Hx; [destruct Hx|]. simpl in Hrun.
  destruct (f z) as [e|y] eqn:Hz; [discriminate|]. simpl in Hrun.
  destruct (mapM f l) as [e|ys'] eqn:Hl; [discriminate|].
  destruct Hx as [<-|Hx]; [eauto|]. exact (IH ys' eq_refl x Hx).
Qed.

Lemma mapM_nil_lines {A T : Type} (f : A -> error + list T) (l : list A) :
  (forall x, In x l -> f x = inr []) -> exists ys, mapM f l = inr ys /\ Forall (fun y => y = []) ys.
Proof.
  induction l as [|x l IH]; intros Hf; simpl; [exists []; split; [reflexivity|constructor]|].
  rewrite Hf by (left; reflexivity). simpl.
  destruct IH as (ys & Hys & Hall); [intros; apply Hf; right; assumption|].
  rewrite Hys. simpl. exists ([] :: ys). split; [reflexivity|constructor; [reflexivity|exact Hall]].
Qed.

Lemma from_stream_nil_lines (ls : list (list (@token R))) :
  Forall (fun l => l = []) ls -> from_stream ls = inr empty_matrix.
Proof. intros Hall. destruct Hall as [|l ls' -> _]; reflexivity. Qed.

(** X10: [transposed()] of an object of width 0 or of height 0 is the 0 x 0
    Matrix: the transpose of an n x 0 or a 0 x n matrix loses its n. *)
Theorem transposed_degenerate (h : heap) (o : obj) :
  (obj_width h o = 0 \/ obj_height h o = 0)%N -> transposed h o = inr empty_matrix.
Proof.
  intros [Hw|Hh]; unfold transposed.
  - rewrite Hw. reflexivity.
  - rewrite Hh. destruct (mapM_nil_lines (fun c => read_line h o (map (fun r => (r, c)) (range1 0)))
                            (range1 (obj_width h o))) as (ls & Hls & Hall).
    { intros c _. reflexivity. }
    rewrite Hls. simpl. apply from_stream_nil_lines, Hall.
Qed.

(** X11: [A / B] of two objects of width 0 is the 0 x 0 Matrix whatever
    their heights: the rows are printed as empty lines and reading stops at
    the first one. *)
Theorem vcat_zero_width (h : heap) (l r : obj) :
  obj_width h l = 0%N -> obj_width h r = 0%N -> vcat h l r = inr empty_matrix.
Proof.
  intros Hl Hr. unfold vcat. rewrite Hl, Hr. simpl. unfold row_lines. rewrite Hl, Hr.
  destruct (mapM_nil_lines (fun rr => read_line h l (map (fun c => (rr, c)) (range1 0)))
              (range1 (obj_height h l))) as (ls1 & H1 & A1); [intros; reflexivity|].
  destruct (mapM_nil_lines (fun rr => read_line h r (map (fun c => (rr, c)) (range1 0)))
              (range1 (obj_height h r))) as (ls2 & H2 & A2); [intros; reflexivity|].
  rewrite H1, H2. simpl. apply from_stream_nil_lines, Forall_app. split; assumption.
Qed.

Lemma read_rows_stops (ls1 ls2 : list (list (@token R))) :
  Forall (fun l => l <> []) ls1 -> forall m, read_rows (ls1 ++ [] :: ls2) m = read_rows ls1 m.
Proof.
  induction 1 as [|l ls1 Hl Hls IH]; intros m; [reflexivity|].
  destruct l as [|t l']; [contradiction|]. simpl.
  destruct (mwidth m =? 0)%N; [apply IH|].
  destruct (mwidth m =? _)%N; [apply IH|reflexivity].
Qed.

(** X12: [Matrix(std::istream&)] stops at the first empty line: the lines
    after it are never read, whatever they hold. *)
Theorem from_stream_stops (ls1 ls2 : list (list (@token R))) :
  Forall (fun l => l <> []) ls1 -> from_stream (ls1 ++ [] :: ls2) = from_stream ls1.
Proof. intros Hls. apply read_rows_stops, Hls. Qed.

(** X13: [operator std::string()] of a Matrix succeeds exactly when every
    declared cell is present, and otherwise throws [std::out_of_range]. *)
Theorem string_form_cells (m : Matrix) :
  (string_form m = inr tt <->
     forall i j, (1 <= i <= mheight m /\ 1 <= j <= mwidth m)%N -> is_Some (numbers m !! (i, j))) /\
  (string_form m = inr tt \/ string_form m = inl out_of_range).
Proof.
  set (g := fun rc : N * N => x ← read_cell ∅ (OMat (SVal m)) (fst rc) (snd rc); mret (@TDouble R x)).
  set (f := fun r => read_line ∅ (OMat (SVal m)) (map (fun c => (r, c)) (range1 (mwidth m)))).
  assert (Hsf : string_form m = (_ ← mapM f (range1 (mheight m)); mret tt)) by reflexivity.
  split; [split|].
  - intros Hok i j Hij. rewrite Hsf in Hok.
    destruct (mapM f (range1 (mheight m))) as [e|ls] eqn:Hrun; [discriminate|].
    destruct (mapM_inr_all f _ ls Hrun i) as [l Hl]; [apply elem_range1; lia|].
    destruct (mapM_inr_all g _ l Hl (i, j)) as [t Ht].
    { apply in_map_iff. exists j. split; [reflexivity|apply elem_range1; lia]. }
    unfold g, read_cell in Ht. cbn [fst snd] in Ht.
    change (obj_at ∅ (OMat (SVal m)) i j) with (numbers m !! (i, j)) in Ht.
    destruct (numbers m !! (i, j)); [eauto|simpl in Ht; discriminate].
  - intros Hall. rewrite Hsf. destruct (mapM_exists f (range1 (mheight m))) as [ls Hls].
    + intros r Hr. apply mapM_exists. intros rc Hrc. apply in_map_iff in Hrc as (c & <- & Hc).
      apply elem_range1 in Hr, Hc. destruct (Hall r c) as [x Hx]; [lia|].
      unfold read_cell. cbn [fst snd].
      change (obj_at ∅ (OMat (SVal m)) r c) with (numbers m !! (r, c)). rewrite Hx. eauto.
    + rewrite Hls. reflexivity.
  - rewrite Hsf. destruct (mapM f (range1 (mheight m))) as [e|ls] eqn:Hrun; [|left; reflexivity].
    right. simpl. apply mapM_fails in Hrun as (r & _ & Hr). apply mapM_fails in Hr as (rc & _ & Hrc).
    unfold read_cell in Hrc. destruct rc as [r' c']. cbn [fst snd] in Hrc.
    change (obj_at ∅ (OMat (SVal m)) r' c') with (numbers m !! (r', c')) in Hrc.
    destruct (numbers m !! (r', c')); simpl in Hrc; [discriminate|]. injection Hrc as <-. reflexivity.
Qed.

(** ** In-place updates through a Matrix object or a view *)

(** A loop of in-place updates of distinct cells, all present, of the
    Matrix at [a]. *)
Lemma modify_all (a : N) (o : obj) (F : N * N -> R -> R) (l : list (N * N)) :
  obj_src o = SLoc a ->
  NoDup (map (fun p => obj_key o (fst p) (snd p)) l) ->
  forall (h : heap) (m : Matrix), h !! a = Some m ->
  (forall p, In p l -> is_Some (numbers m !! obj_key o (fst p) (snd p))) ->
  exists nums, st_for l (fun p => modify_at o (fst p) (snd p) (F p)) h =
      (<[a := mkMatrix nums (mwidth m) (mheight m)]> h, inr tt) /\
    (forall p, In p l -> nums !! obj_key o (fst p) (snd p) = F p <$> numbers m !! obj_key o (fst p) (snd p)) /\
    (forall k, (forall p, In p l -> obj_key o (fst p) (snd p) <> k) -> nums !! k = numbers m !! k).
Proof.
  intros Hsrc. induction l as [|p l IH]; intros Hnd h m Hm Hs.
  - exists (numbers m). split.
    + cbn [st_for]. unfold st_ret. rewrite insert_id; [reflexivity|]. rewrite Hm. destruct m; reflexivity.
    + split; [intros p []|intros; reflexivity].
  - inversion Hnd as [|? ? Hnin Hnd']; subst.
    destruct (Hs p (or_introl eq_refl)) as [x Hx].
    set (m1 := mkMatrix (<[obj_key o (fst p) (snd p) := F p x]> (numbers m)) (mwidth m) (mheight m)).
    assert (Hstep : modify_at o (fst p) (snd p) (F p) h = (<[a := m1]> h, inr tt)).
    { unfold modify_at. cbn zeta. rewrite Hsrc, Hm, Hx. reflexivity. }
    destruct (IH Hnd' (<[a := m1]> h) m1 (lookup_insert_eq _ _ _)) as (nums & Hrun & Hin & Hout).
    { intros q Hq. simpl. rewrite lookup_insert_is_Some'. right. apply Hs. right. exact Hq. }
    assert (Hne : forall q, In q l -> obj_key o (fst q) (snd q) <> obj_key o (fst p) (snd p)).
    { intros q Hq E. apply Hnin. rewrite <- E. apply list_elem_of_In, in_map_iff. eauto. }
    exists nums. cbn [st_for]. unfold st_bind. rewrite Hstep, Hrun, insert_insert_eq.
    split; [reflexivity|]. split.
    + intros q [<-|Hq].
      * rewrite Hout by exact Hne. simpl. rewrite lookup_insert_eq, Hx. reflexivity.
      * rewrite Hin by exact Hq. simpl. rewrite lookup_insert_ne; [reflexivity|].
        apply not_eq_sym, Hne, Hq.
    + intros k Hk. rewrite Hout by (intros q Hq; apply Hk; right; exact Hq). simpl.
      rewrite lookup_insert_ne; [reflexivity|]. apply Hk. left. reflexivity.
Qed.

(** The cells of a view [MatrixView(A, r1, c1, r2, c2)] over the Matrix at
    [a] with [1 <= r1 <= r2 <= A.height] and [1 <= c1 <= c2 <= A.width]. *)
Lemma view_keys (r1 c1 r2 c2 : N) (v : View) (a : N) :
  v = mkView (SLoc a) r1 c1 (c2 - c1 + 1) (r2 - r1 + 1) ->
  (1 <= r1 <= r2 /\ r2 < word)%N -> (1 <= c1 <= c2 /\ c2 < word)%N ->
  let l := list_prod (range1 (r2 - r1 + 1)) (range1 (c2 - c1 + 1)) in
  (forall p, In p l -> obj_key (OView v) (fst p) (snd p) = ((r1 + fst p - 1)%N, (c1 + snd p - 1)%N)) /\
  NoDup (map (fun p => obj_key (OView v) (fst p) (snd p)) l).
Proof.
  intros -> Hr Hc l.
  assert (Hk : forall p, In p l -> obj_key (OView (@mkView R (SLoc a) r1 c1 (c2 - c1 + 1) (r2 - r1 + 1)))
                                     (fst p) (snd p) = ((r1 + fst p - 1)%N, (c1 + snd p - 1)%N)).
  { intros [i j] Hp. apply in_cells in Hp. simpl in *.
    rewrite (translate_small r1), (translate_small c1) by lia. reflexivity. }
  split; [exact Hk|].
  apply NoDup_map_on; [apply NoDup_list_prod; apply NoDup_range1|].
  intros [i j] [i' j'] Hp Hq E. rewrite (Hk _ Hp), (Hk _ Hq) in E.
  apply in_cells in Hp, Hq. simpl in *. injection E as E1 E2. f_equal; lia.
Qed.

(** X14: [v /= k] for a view [v = MatrixView(A, r1, c1, r2, c2)] of a
    well-formed Matrix [A] with [1 <= r1 <= r2 <= A.height] and
    [1 <= c1 <= c2 <= A.width] (as on the row views of [inverse()])
    succeeds, divides by [k] exactly the cells of [A] inside the rectangle,
    keeps the other cells of [A] and its shape, and changes no other
    Matrix. *)
Theorem divide_assign_view (h : heap) (a : N) (m : Matrix) (r1 c1 r2 c2 : N) (v : View) (k : R)
  (Hm : h !! a = Some m) (Hwf : wf m)
  (Hr : (1 <= r1 <= r2 /\ r2 <= mheight m)%N) (Hc : (1 <= c1 <= c2 /\ c2 <= mwidth m)%N)
  (Hbig : (mheight m < word /\ mwidth m < word)%N)
  (Hv : make_view h (OMat (SLoc a)) r1 c1 r2 c2 = inr v) :
  exists m', divide_assign (OView v) k h = (<[a := m']> h, inr tt) /\
    mwidth m' = mwidth m /\ mheight m' = mheight m /\
    forall i j, numbers m' !! (i, j) =
      if bool_decide (r1 <= i <= r2 /\ c1 <= j <= c2)%N
      then (fun x => d_div x k) <$> numbers m !! (i, j) else numbers m !! (i, j).
Proof.
  apply make_view_inr in Hv. cbn [obj_src obj_key fst snd] in Hv.
  rewrite (extent_small c1 c2), (extent_small r1 r2) in Hv by lia.
  destruct (view_keys r1 c1 r2 c2 v a Hv) as [Hk Hnd]; [lia|lia|].
  set (l := list_prod (range1 (r2 - r1 + 1)) (range1 (c2 - c1 + 1))) in *.
  destruct (modify_all a (OView v) (fun _ x => d_div x k) l) with (h := h) (m := m)
    as (nums & Hrun & Hin & Hout); [subst v; reflexivity|exact Hnd|exact Hm| |].
  { intros p Hp. rewrite (Hk p Hp). apply in_cells in Hp. apply wf_lookup; [exact Hwf|]. lia. }
  exists (mkMatrix nums (mwidth m) (mheight m)).
  assert (Hda : divide_assign (OView v) k h = st_for l (fun p => modify_at (OView v) (fst p) (snd p) (fun x => d_div x k)) h).
  { unfold divide_assign, st_bind, st_get. rewrite Hv. simpl. rewrite st_for_nest. reflexivity. }
  rewrite Hda, Hrun. split; [reflexivity|]. split; [reflexivity|]. split; [reflexivity|].
  intros i j. simpl. case_bool_decide as Hij.
  - set (p := ((i - r1 + 1)%N, (j - c1 + 1)%N)).
    assert (Hp : In p l) by (apply in_cells; simpl; lia).
    assert (Eij : obj_key (OView v) (fst p) (snd p) = (i, j)) by (rewrite (Hk p Hp); simpl; f_equal; lia).
    rewrite <- Eij. exact (Hin p Hp).
  - apply Hout. intros p Hp E. rewrite (Hk p Hp) in E.
    apply in_cells in Hp. injection E as E1 E2. apply Hij. lia.
Qed.

(** [v += x] for a view over a heap Matrix and a well-formed Matrix value
    [x] of the view's shape. *)
Lemma add_assign_view_val (h : heap) (a : N) (m x : Matrix) (r1 c1 r2 c2 : N) (v : View)
  (Hm : h !! a = Some m) (Hwf : wf m) (Hx : wf x)
  (Hr : (1 <= r1 <= r2 /\ r2 <= mheight m)%N) (Hc : (1 <= c1 <= c2 /\ c2 <= mwidth m)%N)
  (Hbig : (mheight m < word /\ mwidth m < word)%N)
  (Hv : make_view h (OMat (SLoc a)) r1 c1 r2 c2 = inr v)
  (Hshape : mheight x = (r2 - r1 + 1)%N /\ mwidth x = (c2 - c1 + 1)%N) :
  exists m', add_assign (OView v) (OMat (SVal x)) h = (<[a := m']> h, inr tt) /\
    mwidth m' = mwidth m /\ mheight m' = mheight m /\
    forall i j, numbers m' !! (i, j) =
      if bool_decide (r1 <= i <= r2 /\ c1 <= j <= c2)%N
      then (y ← numbers m !! (i, j); z ← numbers x !! ((i - r1 + 1)%N, (j - c1 + 1)%N); Some (d_add y z))
      else numbers m !! (i, j).
Proof.
  apply make_view_inr in Hv. cbn [obj_src obj_key fst snd] in Hv.
  rewrite (extent_small c1 c2), (extent_small r1 r2) in Hv by lia.
  destruct (view_keys r1 c1 r2 c2 v a Hv) as [Hk Hnd]; [lia|lia|].
  set (l := list_prod (range1 (r2 - r1 + 1)) (range1 (c2 - c1 + 1))) in *.
  set (Y := fun p : N * N => from_option (fun y => y) (d_of_Z 0) (numbers x !! p)).
  destruct (modify_all a (OView v) (fun p y => d_add y (Y p)) l) with (h := h) (m := m)
    as (nums & Hrun & Hin & Hout); [subst v; reflexivity|exact Hnd|exact Hm| |].
  { intros p Hp. rewrite (Hk p Hp). apply in_cells in Hp. apply wf_lookup; [exact Hwf|]. lia. }
  exists (mkMatrix nums (mwidth m) (mheight m)).
  assert (Hxs : forall p, In p l -> numbers x !! p = Some (Y p)).
  { intros p Hp. destruct (wf_cells x p Hx) as [y Hy]; [destruct Hshape as [-> ->]; exact Hp|].
    unfold Y. rewrite Hy. reflexivity. }
  assert (Haa : add_assign (OView v) (OMat (SVal x)) h =
                st_for l (fun p => modify_at (OView v) (fst p) (snd p) (fun y => d_add y (Y p))) h).
  { unfold add_assign. unfold st_bind at 1. unfold st_get at 1.
    cbn [obj_width obj_height deref from_option]. rewrite Hv. cbn [vwidth vheight].
    destruct Hshape as [-> ->]. rewrite !N.eqb_refl. simpl. rewrite st_for_nest.
    apply st_for_ext. intros p s Hp. unfold st_bind, st_get, st_lift, read_cell.
    change (obj_at s (OMat (SVal x)) (fst p) (snd p)) with (numbers x !! (fst p, snd p)).
    destruct p as [i j]. simpl. rewrite (Hxs (i, j) Hp). reflexivity. }
  rewrite Haa, Hrun. split; [reflexivity|]. split; [reflexivity|]. split; [reflexivity|].
  intros i j. simpl. case_bool_decide as Hij.
  - set (p := ((i - r1 + 1)%N, (j - c1 + 1)%N)).
    assert (Hp : In p l) by (apply in_cells; simpl; lia).
    assert (Eij : obj_key (OView v) (fst p) (snd p) = (i, j)) by (rewrite (Hk p Hp); simpl; f_equal; lia).
    rewrite <- Eij, (Hin p Hp). cbn beta. rewrite (Hxs p Hp).
    destruct (numbers m !! obj_key (OView v) (fst p) (snd p)); reflexivity.
  - apply Hout. intros p Hp E. rewrite (Hk p Hp) in E.
    apply in_cells in Hp. injection E as E1 E2. apply Hij. lia.
Qed.

(** X15: for a view [v = MatrixView(A, r1, c1, r2, c2)] of a well-formed
    Matrix [A] with [1 <= r1 <= r2 <= A.height] and
    [1 <= c1 <= c2 <= A.width], and a well-formed Matrix [B] of the view's
    shape, [v += B] adds to each cell of [A] inside the rectangle the
    corresponding cell of [B], and [v -= B] adds [b * (-1)] (it adds [-B]);
    both succeed, keep the other cells of [A] and its shape, and change no
    other Matrix. *)
Theorem add_sub_assign_view (h : heap) (a : N) (m x : Matrix) (r1 c1 r2 c2 : N) (v : View)
  (Hm : h !! a = Some m) (Hwf : wf m) (Hx : wf x)
  (Hr : (1 <= r1 <= r2 /\ r2 <= mheight m)%N) (Hc : (1 <= c1 <= c2 /\ c2 <= mwidth m)%N)
  (Hbig : (mheight m < word /\ mwidth m < word)%N)
  (Hv : make_view h (OMat (SLoc a)) r1 c1 r2 c2 = inr v)
  (Hshape : mheight x = (r2 - r1 + 1)%N /\ mwidth x = (c2 - c1 + 1)%N) :
  (exists m', add_assign (OView v) (OMat (SVal x)) h = (<[a := m']> h, inr tt) /\
    mwidth m' = mwidth m /\ mheight m' = mheight m /\
    forall i j, numbers m' !! (i, j) =
      if bool_decide (r1 <= i <= r2 /\ c1 <= j <= c2)%N
      then (y ← numbers m !! (i, j); z ← numbers x !! ((i - r1 + 1)%N, (j - c1 + 1)%N); Some (d_add y z))
      else numbers m !! (i, j)) /\
  (exists m', sub_assign (OView v) (OMat (SVal x)) h = (<[a := m']> h, inr tt) /\
    mwidth m' = mwidth m /\ mheight m' = mheight m /\
    forall i j, numbers m' !! (i, j) =
      if bool_decide (r1 <= i <= r2 /\ c1 <= j <= c2)%N
      then (y ← numbers m !! (i, j); z ← numbers x !! ((i - r1 + 1)%N, (j - c1 + 1)%N);
            Some (d_add y (d_mul z (d_of_Z (-1)))))
      else numbers m !! (i, j)).
Proof.
  split; [exact (add_assign_view_val h a m x r1 c1 r2 c2 v Hm Hwf Hx Hr Hc Hbig Hv Hshape)|].
  destruct (scalar_mul_spec h (OMat (SVal x)) (d_of_Z (-1))) as (n & Hneg & Hnw & Hnh & Hnn).
  { intros i j Hij. apply wf_lookup; [exact Hx|exact Hij]. }
  simpl in Hnw, Hnh. change (obj_height h (OMat (SVal x))) with (mheight x) in Hnn.
  change (obj_width h (OMat (SVal x))) with (mwidth x) in Hnn.
  assert (Hnwf : wf n).
  { split.
    - intros [i j] y Hy. rewrite Hnn in Hy. rewrite Hnw, Hnh. case_bool_decide; [exact H0|discriminate].
    - rewrite Forall_forall. intros [i j] Hin. apply list_elem_of_In, in_cells in Hin. simpl in Hin.
      rewrite Hnn, bool_decide_eq_true_2 by lia.
      change (obj_at h (OMat (SVal x)) i j) with (numbers x !! (i, j)).
      destruct (wf_cells x (i, j) Hx) as [y Hy]; [apply in_cells; simpl; lia|]. rewrite Hy. eauto. }
  destruct (add_assign_view_val h a m n r1 c1 r2 c2 v Hm Hwf Hnwf Hr Hc Hbig Hv) as (m' & Hrun & Hw & Hh & Hcell).
  { lia. }
  exists m'.
  assert (Hsa : sub_assign (OView v) (OMat (SVal x)) h = add_assign (OView v) (OMat (SVal n)) h).
  { unfold sub_assign, st_bind at 1 2, st_get, st_lift. unfold negate. rewrite Hneg. reflexivity. }
  rewrite Hsa, Hrun. split; [reflexivity|]. split; [exact Hw|]. split; [exact Hh|].
  intros i j. rewrite Hcell. case_bool_decide as Hij; [|reflexivity].
  rewrite Hnn, bool_decide_eq_true_2 by lia.
  change (obj_at h (OMat (SVal x)) (i - r1 + 1)%N (j - c1 + 1)%N) with (numbers x !! ((i - r1 + 1)%N, (j - c1 + 1)%N)).
  destruct (numbers m !! (i, j)); simpl; [|reflexivity].
  destruct (numbers x !! _); reflexivity.
Qed.

(** X16: [o += B] and [o -= B] with [B] of another shape than [o] throw
    [std::invalid_argument] (unlike dimensions) before writing anything:
    the heap is unchanged. For [o -= B] the cells of [B] are read first
    (to form [-B]), so this holds when they are all present. *)
Theorem compound_assign_mismatch (h : heap) (o rhs : obj) :
  ~ (obj_width h o = obj_width h rhs /\ obj_height h o = obj_height h rhs) ->
  add_assign o rhs h = (h, inl unlike_dimensions) /\
  ((forall i j, (1 <= i <= obj_height h rhs /\ 1 <= j <= obj_width h rhs)%N -> is_Some (obj_at h rhs i j)) ->
   sub_assign o rhs h = (h, inl unlike_dimensions)).
Proof.
  intros Hne.
  assert (Hadd : forall r', obj_width h r' = obj_width h rhs -> obj_height h r' = obj_height h rhs ->
                 add_assign o r' h = (h, inl unlike_dimensions)).
  { intros r' Ew Eh. unfold add_assign, st_bind, st_get. rewrite Ew, Eh.
    destruct (obj_width h o =? obj_width h rhs)%N eqn:E1; [|reflexivity].
    destruct (obj_height h o =? obj_height h rhs)%N eqn:E2; [|reflexivity].
    apply N.eqb_eq in E1, E2. tauto. }
  split; [apply Hadd; reflexivity|].
  intros Hs. destruct (scalar_mul_spec h rhs (d_of_Z (-1)) Hs) as (n & Hneg & Hnw & Hnh & _).
  unfold sub_assign, st_bind at 1 2, st_get, st_lift. unfold negate. rewrite Hneg.
  apply Hadd; simpl; assumption.
Qed.

(** ** The row/column addressor *)

Lemma digits_nonneg (s : string) : forall acc seen v, (0 <= acc)%Z -> digits s acc seen = Some v -> (0 <= v)%Z.
Proof.
  induction s as [|a s IH]; intros acc seen v Hacc Hd; simpl in Hd.
  - destruct seen; [injection Hd as <-; exact Hacc|discriminate].
  - unfold digit_value in Hd. destruct ((48 <=? nat_of_ascii a)%nat && (nat_of_ascii a <=? 57)%nat) eqn:E.
    + apply andb_prop in E as [E1 E2]. apply Nat.leb_le in E1. apply IH in Hd; [exact Hd|lia].
    + destruct seen; [injection Hd as <-; exact Hacc|discriminate].
Qed.

(** [std::stoll] only returns values of [long long]. *)
Lemma stoll_range (s : string) (z : Z) : stoll s = inr z -> (- 2 ^ 63 <= z <= 2 ^ 63 - 1)%Z.
Proof.
  unfold stoll. intros Hs.
  match type of Hs with context [match ?p with pair _ _ => _ end] => destruct p as [neg body] end.
  destruct (digits body 0 false) as [v|] eqn:Hd; [|discriminate].
  apply digits_nonneg in Hd; [|lia].
  destruct neg.
  - destruct (2 ^ 63 <? v)%Z eqn:E; [discriminate|]. injection Hs as <-. apply Z.ltb_ge in E. lia.
  - destruct (2 ^ 63 - 1 <? v)%Z eqn:E; [discriminate|]. injection Hs as <-. apply Z.ltb_ge in E. lia.
Qed.

(** X17: for an object [A] of height and width at least 1 and below [2^64],
    and a string [s] that [std::stoll] reads as [n] (taken modulo [2^64]):
    [A > "R"s] with [1 <= n <= A.height] is the one-row view of row [n]
    (width [A.width]), and [A > "C"s] with [1 <= n <= A.width] is the
    one-column view of column [n] (height [A.height]): they read
    [A(n, j)] and [A(i, n)]. *)
Theorem address_row_column (h : heap) (o : obj) (s : string) (z : Z) :
  stoll s = inr z ->
  (1 <= obj_height h o < word)%N -> (1 <= obj_width h o < word)%N ->
  let n := Z.to_N (z mod 2 ^ 64) in
  ((1 <= n <= obj_height h o)%N ->
     exists v, address h o (String "R" s) = inr v /\ vheight v = 1%N /\ vwidth v = obj_width h o /\
       forall j, (j < word)%N -> obj_at h (OView v) 1 j = obj_at h o n j) /\
  ((1 <= n <= obj_width h o)%N ->
     exists v, address h o (String "C" s) = inr v /\ vwidth v = 1%N /\ vheight v = obj_height h o /\
       forall i, (i < word)%N -> obj_at h (OView v) i 1 = obj_at h o i n).
Proof.
  intros Hs HH HW n.
  assert (Htr : forall x y, (1 <= x < word)%N -> (y < word)%N -> translate x 1 = x /\ translate 1 y = y).
  { intros x y Hx Hy. unfold translate.
    destruct (wrap_spec (x + 1 + (word - 1))) as [q1 [E1 L1]].
    destruct (wrap_spec (1 + y + (word - 1))) as [q2 [E2 L2]]. unfold word in *. split; lia. }
  split; intros Hn.
  - destruct (make_view_ok h o n 1 n (obj_width h o)) as [v Hv]; [lia|lia|lia|lia|].
    exists v. split.
    + unfold address. rewrite Hs. simpl. exact Hv.
    + destruct (view_at h o n 1 n (obj_width h o) v Hv) as (Hw & Hh & Hat).
      split; [rewrite Hh, extent_small by lia; lia|]. split; [rewrite Hw, extent_small by lia; lia|].
      intros j Hj. rewrite Hat. destruct (Htr n j) as [-> ->]; [lia|exact Hj|reflexivity].
  - destruct (make_view_ok h o 1 n (obj_height h o) n) as [v Hv]; [lia|lia|lia|lia|].
    exists v. split.
    + unfold address. rewrite Hs. simpl. exact Hv.
    + destruct (view_at h o 1 n (obj_height h o) n v Hv) as (Hw & Hh & Hat).
      split; [rewrite Hw, extent_small by lia; lia|]. split; [rewrite Hh, extent_small by lia; lia|].
      intros i Hi. rewrite Hat. destruct (Htr n i) as [-> ->]; [lia|exact Hi|reflexivity].
Qed.

(** X18: [A > "R"s] and [A > "C"s] where [std::stoll] reads [s] as a
    negative number throw "View outside matrix" for every [A] whose
    dimensions are below [2^63]: the number wraps to at least [2^63] as a
    [coord_t] instead of counting from the end. *)
Theorem address_negative (h : heap) (o : obj) (s : string) (z : Z) (ch : ascii) :
  stoll s = inr z -> (z < 0)%Z ->
  (obj_height h o < 2 ^ 63)%N -> (obj_width h o < 2 ^ 63)%N ->
  ch = "R"%char \/ ch = "C"%char ->
  address h o (String ch s) = inl view_outside.
Proof.
  intros Hs Hz HH HW Hch. pose proof (stoll_range s z Hs) as Hr.
  assert (Hn : (2 ^ 63 <= Z.to_N (z mod 2 ^ 64))%N).
  { rewrite <- (Z.mod_unique z (2 ^ 64) (-1) (z + 2 ^ 64)) by lia. lia. }
  unfold address. rewrite Hs. simpl. unfold make_view.
  destruct Hch as [E|E]; subst ch; simpl.
  - replace (obj_height h o <? Z.to_N (z mod 2 ^ 64))%N with true by (symmetry; apply N.ltb_lt; lia).
    reflexivity.
  - replace (obj_width h o <? Z.to_N (z mod 2 ^ 64))%N with true by (symmetry; apply N.ltb_lt; lia).
    rewrite !orb_true_r. reflexivity.
Qed.

(** ** Assignment between overlapping views of one Matrix *)

Section Overlap.
Variables (a : N) (x1 : R) (v u : View).
Hypothesis Hv : operand v = SLoc a /\ headRow v = 1%N /\ headColumn v = 2%N.
Hypothesis Hu : operand u = SLoc a /\ headRow u = 1%N /\ headColumn u = 1%N.

(** The inner loop of [v.setAt(1, 1, u)] for the row 1: cell [cOff] of
    [u] is read from the current heap, then written to cell [cOff] of [v]. *)
Let body (cOff : N) : M unit :=
  h' <~ st_get ;;
  x <~ st_lift (read_cell h' (OView u) 1 cOff) ;;
  write_at (OView v) (translate 1 1) (translate 1 cOff) x.

Lemma shift_loop (n : nat) :
  forall (k : nat) (s : heap) (ms : Matrix),
  (N.of_nat (k + n) + 2 <= word)%N ->
  s !! a = Some ms -> numbers ms !! (1%N, N.of_nat (S k)) = Some x1 ->
  (forall j, (N.of_nat (S k) < j <= N.of_nat (S (k + n)))%N -> is_Some (numbers ms !! (1%N, j))) ->
  exists ms', st_for (map N.of_nat (seq (S k) n)) body s = (<[a := ms']> s, inr tt) /\
    mwidth ms' = mwidth ms /\ mheight ms' = mheight ms /\
    forall i j, numbers ms' !! (i, j) =
      if bool_decide (i = 1 /\ N.of_nat (S k) <= j <= N.of_nat (S (k + n)))%N
      then Some x1 else numbers ms !! (i, j).
Proof.
  destruct Hv as (Hvo & Hvr & Hvc). destruct Hu as (Huo & Hur & Huc).
  induction n as [|n IH]; intros k s ms Hbig Hs Hx Hrest.
  - exists ms. split; [cbn [seq map st_for]; unfold st_ret; rewrite insert_id by exact Hs; reflexivity|].
    split; [reflexivity|]. split; [reflexivity|].
    intros i j. case_bool_decide as Hij; [|reflexivity].
    destruct Hij as [-> Hj]. replace j with (N.of_nat (S k)) by lia. exact Hx.
  - set (c := N.of_nat (S k)).
    destruct (Hrest (c + 1)%N) as [y Hy]; [unfold c; lia|].
    set (ms1 := mkMatrix (<[(1%N, (c + 1)%N) := x1]> (numbers ms)) (mwidth ms) (mheight ms)).
    assert (Hstep : body c s = (<[a := ms1]> s, inr tt)).
    { unfold body, st_bind, st_get, st_lift, read_cell, obj_at. cbn [obj_src obj_key].
      rewrite Huo, Hur, Huc. cbn [deref]. rewrite Hs. simpl.
      rewrite (translate_small 1 1), (translate_small 1 c) by (unfold c in *; lia). simpl.
      replace (1 + 1 - 1)%N with 1%N by lia. replace (1 + c - 1)%N with c by lia.
      rewrite (Hx : numbers ms !! (1%N, c) = Some x1). simpl.
      unfold write_at, modify_at. cbn zeta. cbn [obj_src obj_key]. rewrite Hvo, Hvr, Hvc, Hs.
      rewrite (translate_small 1 1), (translate_small 2 c) by (unfold c in *; lia).
      replace (1 + 1 - 1)%N with 1%N by lia.
      replace (2 + c - 1)%N with (c + 1)%N by lia. rewrite Hy. reflexivity. }
    destruct (IH (S k) (<[a := ms1]> s) ms1) as (ms' & Hrun & Hw & Hh & Hc).
    { lia. }
    { apply lookup_insert_eq. }
    { unfold ms1. cbn [numbers]. replace (N.of_nat (S (S k))) with (c + 1)%N by (unfold c; lia).
      apply lookup_insert_eq. }
    { intros j Hj. unfold ms1. cbn [numbers]. rewrite lookup_insert_is_Some'. right. apply Hrest. lia. }
    exists ms'. cbn [seq map st_for]. unfold st_bind at 1. fold c. rewrite Hstep, Hrun, insert_insert_eq.
    split; [reflexivity|]. split; [exact Hw|]. split; [exact Hh|].
    intros i j. rewrite Hc. simpl.
    destruct (decide (i = 1 /\ N.of_nat (S (S k)) <= j <= N.of_nat (S (S k + n)))%N) as [Hij|Hij].
    + rewrite !bool_decide_eq_true_2 by lia. reflexivity.
    + rewrite (bool_decide_eq_false_2 (i = 1 /\ N.of_nat (S (S k)) <= j <= N.of_nat (S (S k + n)))%N)
        by exact Hij.
      destruct (decide ((i, j) = (1%N, (c + 1)%N))) as [E|E].
      * injection E as -> ->. rewrite lookup_insert_eq. rewrite bool_decide_eq_true_2 by (unfold c; lia).
        reflexivity.
      * rewrite lookup_insert_ne by congruence.
        case_bool_decide as Hij'; [|reflexivity].
        assert (j = c) as -> by (unfold c in *; destruct Hij' as [-> ?]; lia).
        destruct Hij' as [-> _]. exact Hx.
Qed.

End Overlap.

(** X19: assigning to the view [A(1, 2..w)] of a one-row Matrix [A] the
    overlapping view [A(1, 1..w-1)] of the same Matrix ([2 <= w]) does not
    shift the row: [setAt] reads each source cell after the previous
    iteration has overwritten it, so every cell of [A] ends up equal to
    [A(1, 1)]. *)
Theorem view_assign_overlap (h : heap) (a : N) (m : Matrix) (w : N) (v u : View)
  (Hm : h !! a = Some m) (Hwf : wf m) (Hh : mheight m = 1%N) (Hw : mwidth m = w)
  (Hw2 : (2 <= w /\ w + 1 < word)%N)
  (Hv : make_view h (OMat (SLoc a)) 1 2 1 w = inr v)
  (Hu : make_view h (OMat (SLoc a)) 1 1 1 (w - 1) = inr u) :
  exists m', view_assign v (OView u) h = (<[a := m']> h, inr tt) /\
    mwidth m' = w /\ mheight m' = 1%N /\
    forall i j, numbers m' !! (i, j) =
      if bool_decide (i = 1 /\ 1 <= j <= w)%N then numbers m !! (1%N, 1%N) else None.
Proof.
  apply make_view_inr in Hv, Hu. cbn [obj_src obj_key fst snd] in Hv, Hu.
  rewrite (extent_small 2 w), (extent_small 1 1) in Hv by lia.
  rewrite (extent_small 1 (w - 1)), (extent_small 1 1) in Hu by lia.
  destruct (wf_lookup m 1 1 Hwf) as [_ H11]. destruct H11 as [x1 Hx1]; [lia|].
  destruct (shift_loop a x1 v u) with (n := N.to_nat (w - 1)) (k := 0%nat) (s := h) (ms := m)
    as (m' & Hrun & Hw' & Hh' & Hc).
  { subst v. simpl. auto. }
  { subst u. simpl. auto. }
  { lia. }
  { exact Hm. }
  { exact Hx1. }
  { intros j Hj. apply wf_lookup; [exact Hwf|]. lia. }
  exists m'.
  assert (Hva : view_assign v (OView u) h =
                st_bind (st_for (map N.of_nat (seq 1 (N.to_nat (w - 1))))
                          (fun cOff => h' <~ st_get ;;
                                       x <~ st_lift (read_cell h' (OView u) 1 cOff) ;;
                                       write_at (OView v) (translate 1 1) (translate 1 cOff) x))
                        (fun _ => st_ret tt) h).
  { unfold view_assign, st_bind at 1, st_get at 1. rewrite Hv, Hu. cbn [obj_width obj_height vwidth vheight].
    replace (w - 2 + 1 =? w - 1 - 1 + 1)%N with true by (symmetry; apply N.eqb_eq; lia). simpl.
    unfold setAt, st_bind at 1, st_get at 1. cbn [obj_width obj_height vwidth vheight].
    replace (w - 1 - 1 + 1)%N with (w - 1)%N by lia. reflexivity. }
  rewrite Hva. unfold st_bind at 1. rewrite Hrun. split; [reflexivity|].
  split; [lia|]. split; [lia|].
  intros i j. rewrite Hc. rewrite Hx1.
  case_bool_decide as Hij; case_bool_decide as Hij'; try lia; try reflexivity.
  apply wf_none; [exact Hwf|]. lia.
Qed.

End Operators.


(** * The claims at the model of doubles and at the specification's scenarios *)

Import QModel.
Local Open Scope Q_scope.

(** C4 (divergence): assigning a Matrix value of the view's shape to a view
    [MatrixView(A, r1, c1, r2, c2)] writes exactly the view's rectangle of
    [A] and keeps every other cell, its shape and the rest of the heap; so
    [A > "R2" = {{0,0,0}}] turns [A = {{1,2,3},{4,5,6},{7,8,9}}] into
    [{{1,2,3},{0,0,0},{7,8,9}}]. But the assigned object may be a view of
    the same Matrix, and [setAt] reads each of its cells after the earlier
    writes: with [A = {{1,2,3}}],
    [MatrixView(A,1,2,1,3) = MatrixView(A,1,1,1,2)] leaves [A = {{1,1,1}}],
    not [{{1,1,2}}]. *)
Theorem view_assign_alias_overwrites :
  (forall (R : Type) (h : gmap N (@Matrix R)) (a : N) (m x : @Matrix R)
          (r1 c1 r2 c2 : N) (v : @View R),
     h !! a = Some m -> wf m -> wf x ->
     (1 <= r1 <= r2 /\ r2 <= mheight m)%N -> (1 <= c1 <= c2 /\ c2 <= mwidth m)%N ->
     (mheight m < word /\ mwidth m < word)%N ->
     make_view h (OMat (SLoc a)) r1 c1 r2 c2 = inr v ->
     mheight x = (r2 - r1 + 1)%N /\ mwidth x = (c2 - c1 + 1)%N ->
     exists m', view_assign v (OMat (SVal x)) h = (<[a := m']> h, inr tt) /\
       mwidth m' = mwidth m /\ mheight m' = mheight m /\
       forall i j, numbers m' !! (i, j) =
         if bool_decide (r1 <= i <= r2 /\ c1 <= j <= c2)%N
         then numbers x !! ((i - r1 + 1)%N, (j - c1 + 1)%N) else numbers m !! (i, j)) /\
  (exists v h', address hA (OMat (SLoc 1)) "R2" = inr v /\
     view_assign v (OMat (SVal (of_rows [[0;0;0]]))) hA = (h', inr tt) /\
     from_option (fun m => matrix_is m [[1;2;3];[0;0;0];[7;8;9]]) false (h' !! 1%N) = true) /\
  (exists v u h', make_view hR (OMat (SLoc 1)) 1 2 1 3 = inr v /\
     make_view hR (OMat (SLoc 1)) 1 1 1 2 = inr u /\
     view_assign v (OView u) hR = (h', inr tt) /\
     from_option (fun m => matrix_is m [[1;1;1]]) false (h' !! 1%N) = true).
Proof.
  split; [|split].
  - intros R h a m x r1 c1 r2 c2 v Hm Hwf Hx Hr Hc Hbig Hv Hshape.
    exact (view_assign_rect h a m x r1 c1 r2 c2 v Hm Hwf Hx Hr Hc Hbig Hv Hshape).
  - exists vR2, (fst (view_assign vR2 (OMat (SVal (of_rows [[0;0;0]]))) hA)).
    split; [vm_compute; reflexivity|]. split; vm_compute; reflexivity.
  - exists (mkView (SLoc 1) 1 2 2 1), (mkView (SLoc 1) 1 1 2 1),
      (fst (view_assign (mkView (SLoc 1) 1 2 2 1) (OView (mkView (SLoc 1) 1 1 2 1)) hR)).
    split; [|split; [|split]]; vm_compute; reflexivity.
Qed.

(** C5 (divergence): the view constructor only compares [r1], [r2], [c1],
    [c2] with the source's height and width from above; it throws exactly
    when one of them exceeds the source, so it accepts [r1 = 0], [c1 = 0],
    [r1 > r2] and [c1 > c2], the last two with a wrapped-around height or
    width of [2^64 - 1]. *)
Theorem view_bounds_unchecked :
  (forall (R : Type) (h : gmap N (@Matrix R)) (o : @obj R) (r1 c1 r2 c2 : N) (e : error),
     make_view h o r1 c1 r2 c2 = inl e <->
     e = view_outside /\
     (obj_height h o < r1 \/ obj_height h o < r2 \/
      obj_width h o < c1 \/ obj_width h o < c2)%N) /\
  make_view hA (OMat (SLoc 1)) 0 1 1 3 = inr (mkView (SLoc 1) 0 1 3 2) /\
  make_view hA (OMat (SLoc 1)) 1 0 3 1 = inr (mkView (SLoc 1) 1 0 2 3) /\
  make_view hA (OMat (SLoc 1)) 3 1 1 3 = inr (mkView (SLoc 1) 3 1 3 (word - 1)) /\
  make_view hA (OMat (SLoc 1)) 1 3 3 1 = inr (mkView (SLoc 1) 1 3 (word - 1) 3).
Proof.
  split; [|split; [|split; [|split]]]; [|vm_compute; reflexivity ..].
  intros R h o r1 c1 r2 c2 e. unfold make_view.
  destruct (obj_height h o <? r1)%N eqn:E1, (obj_height h o <? r2)%N eqn:E2,
    (obj_width h o <? c1)%N eqn:E3, (obj_width h o <? c2)%N eqn:E4; simpl;
    rewrite ?N.ltb_lt, ?N.ltb_ge in *;
    (split; [(intros He; injection He as <-; split; [reflexivity|lia]) || discriminate
            |intros [-> Hlt]; reflexivity || lia]).
Qed.


(** C8 (divergence): the addressor [A > "R0"] is not rejected: it returns
    the view [MatrixView(A, 0, 1, 0, 3)], whose cells are then outside [A];
    an in-range row such as [A > "R2"] gives the row view. *)
Theorem address_row_zero_accepted :
  address hA (OMat (SLoc 1)) "R0" = inr (mkView (SLoc 1) 0 1 3 1) /\
  read_cell hA (OView (mkView (SLoc 1) 0 1 3 1)) 1 1 = inl out_of_range /\
  address hA (OMat (SLoc 1)) "R2" = inr vR2.
Proof.
  split; [|split]; vm_compute; reflexivity.
Qed.

(** ** Witnesses: the hypotheses of the claims hold at concrete inputs *)

(** C10 at [A > "R2"]: local (2, 1) is below the one-row view and reads
    [A(3, 1) = 7]. *)
Lemma view_access_unchecked_witness :
  wf A3 /\ read_cell hA (OView vR2) 2 1 = inr 7.
Proof.
  assert (Hwf : wf A3) by (apply (bool_decide_unpack _); vm_compute; exact I).
  split; [exact Hwf|].
  destruct (view_access_unchecked hA 1 A3 2 1 2 3 vR2 eq_refl Hwf
              ltac:(vm_compute; reflexivity) 2 1 0) as [Hin _].
  destruct Hin as [[y [Hy Hr]] _].
  - split; split; vm_compute; discriminate.
  - rewrite Hr. vm_compute in Hy. congruence.
Defined.


(** C4 at [A > "R2"] with the assigned matrix [{{0,0,0}}]. *)
Lemma view_assign_alias_overwrites_witness :
  exists m', view_assign vR2 (OMat (SVal (of_rows [[0;0;0]]))) hA = (<[1%N := m']> hA, inr tt).
Proof.
  destruct ((proj1 view_assign_alias_overwrites) Q hA 1%N A3 (of_rows [[0;0;0]]) 2%N 1%N 2%N 3%N vR2
              eq_refl
              ltac:(apply (bool_decide_unpack _); vm_compute; exact I)
              ltac:(apply (bool_decide_unpack _); vm_compute; exact I)
              ltac:(split; [split|]; vm_compute; discriminate)
              ltac:(split; [split|]; vm_compute; discriminate)
              ltac:(split; vm_compute; reflexivity)
              ltac:(vm_compute; reflexivity)
              ltac:(split; vm_compute; reflexivity)) as (m' & Hrun & _).
  exists m'. exact Hrun.
Defined.

(** C3 (divergence): for a column strictly between the first and the last,
    [determinant()] builds the minor with [operator|], which prints its
    cells three times with six significant digits and reads them back, so
    it does not return the first-row cofactor expansion. For
    [{{0,1,0},{1234567,0,0},{0,0,1}}] the expansion is -1234567, but
    [determinant()] returns -1234570: the minor of column 2 holds 1234567
    rounded to 1234570. The cells of [{{1,2},{3,4}}] and
    [{{6,1,1},{4,-2,5},{2,8,7}}] survive printing, and there it returns
    -2 and -306. *)
Theorem determinant_interior_minor_rounded :
  value_is (determinant ∅ (OMat (SVal M3))) (-1234570) = true /\
  Qeq_bool (cofactor_det 3 (cell_fun M3)) (-1234567) = true /\
  value_is (determinant ∅ (OMat (SVal (of_rows [[1;2];[3;4]])))) (-2) = true /\
  value_is (determinant ∅ (OMat (SVal (of_rows [[6;1;1];[4;-2;5];[2;8;7]])))) (-306) = true.
Proof.
  split; [|split; [|split]]; vm_compute; reflexivity.
Qed.

(** C1 (divergence): [transposed()] is documented to return "A copy of the
    matrix, transposed", but it prints every cell to a text stream with six
    significant digits and reads it back. [{{1234567}}] transposed is
    already [{{1234570}}], and transposing it twice gives [{{1234570}}],
    not [{{1234567}}]. *)
Theorem transpose_twice_rounds :
  numbers (of_rows [[1234567]]) !! (1%N, 1%N) = Some 1234567 /\
  cell_is (transposed ∅ (OMat (SVal (of_rows [[1234567]])))) 1 1 1234570 = true /\
  match transposed ∅ (OMat (SVal (of_rows [[1234567]]))) ≫= fun T => transposed ∅ (OMat (SVal T)) with
  | inr T2 => matrix_is T2 [[1234570]]
  | inl _ => false
  end = true.
Proof.
  split; [|split]; vm_compute; reflexivity.
Qed.

(** The cells of a well-formed Matrix value, read as a function. *)
Lemma obj_at_cell_fun (h : gmap N (@Matrix Q)) (m : @Matrix Q) :
  wf m -> forall i j, (1 <= i <= obj_height h (OMat (SVal m)) /\ 1 <= j <= obj_width h (OMat (SVal m)))%N ->
  obj_at h (OMat (SVal m)) i j = Some (cell_fun m i j).
Proof.
  intros Hwf i j Hij. change (obj_at h (OMat (SVal m)) i j) with (numbers m !! (i, j)).
  destruct (wf_lookup m i j Hwf) as [_ Hs]. destruct (Hs Hij) as [x Hx].
  unfold cell_fun. rewrite Hx. reflexivity.
Qed.

(** C7 (divergence): [operator*=] is commented "Dot product", but the
    column of [B] goes through [transposed()] and every sum through a text
    stream, each printed with six significant digits. So [{{1}} *
    {{1234567}}] is [{{1234570}}], not the double product 1234567. Values
    that survive printing come out as the text says:
    [{{1,2},{3,4}} * {{5,6},{7,8}} = {{19,22},{43,50}}]. A left width that
    differs from the right height throws the shape-mismatch error. *)
Theorem mat_mult_column_rounded :
  cell_is (mat_mult ∅ (OMat (SVal (of_rows [[1]]))) (OMat (SVal (of_rows [[1234567]])))) 1 1 1234570 = true /\
  match mat_mult ∅ (OMat (SVal (of_rows [[1;2];[3;4]]))) (OMat (SVal (of_rows [[5;6];[7;8]]))) with
  | inr C => matrix_is C [[19;22];[43;50]]
  | inl _ => false
  end = true /\
  mat_mult ∅ (OMat (SVal (of_rows [[1;2]]))) (OMat (SVal (of_rows [[1;2]]))) = inl product_mismatch.
Proof.
  split; [|split]; vm_compute; reflexivity.
Qed.



(** C2: [inverse()] throws [not_invertible] exactly when [determinant()]
    returns a value that compares equal to 0, and, whether it returns or
    throws, every Matrix of the heap it starts from is left as it was: the
    elimination writes only to its local copies [tmp] and [inverse]. For
    [A = {{1,2,3},{4,5,6},{7,8,9}}] it throws; for [{{4,7},{2,6}}] it returns
    [{{0.6,-0.7},{-0.2,0.4}}] and the operand still holds [{{4,7},{2,6}}]. *)
Theorem inverse_singular_frame :
  (forall (R : Type) (D : Double R) (h : gmap N (@Matrix R)) (o : @obj R),
     (snd (inverse o h) = inl not_invertible <->
      exists d, determinant h o = inr d /\ d_eqb d (d_of_Z 0) = true) /\
     (forall l, is_Some (h !! l) -> fst (inverse o h) !! l = h !! l)) /\
  snd (inverse (OMat (SLoc 1)) hA) = inl not_invertible /\
  match snd (inverse (OMat (SLoc 1)) hI) with
  | inr m => matrix_is m [[3#5; -7#10]; [-1#5; 2#5]]
  | inl _ => false
  end = true /\
  from_option (fun m => matrix_is m [[4;7];[2;6]]) false (fst (inverse (OMat (SLoc 1)) hI) !! 1%N) = true.
Proof.
  split; [|split; [|split]]; [|vm_compute; reflexivity ..].
  intros R D h o. split.
  - exact (inverse_not_invertible h o).
  - intros l Hl. exact (inverse_keeps h o l Hl).
Qed.

(** The declared cells of a well-formed Matrix value are present. *)
Lemma cells_present_wf (h : gmap N (@Matrix Q)) (m : @Matrix Q) :
  wf m -> forall i j, (1 <= i <= obj_height h (OMat (SVal m)) /\ 1 <= j <= obj_width h (OMat (SVal m)))%N ->
  is_Some (obj_at h (OMat (SVal m)) i j).
Proof.
  intros Hwf i j Hij. rewrite (obj_at_cell_fun h m Hwf i j Hij). eexists. reflexivity.
Qed.

Lemma wf_A3 : wf A3.
Proof. apply (bool_decide_unpack _); vm_compute; exact I. Qed.

(** X1 at the rows [{}, {1,2}, {3,4}]: a 3 x 2 Matrix that is not
    well formed, its first row having no cells. *)
Lemma from_lists_cells_witness :
  exists m, from_lists (replicate 1 [] ++ [1;2] :: [[3;4]]) = inr m /\
    mwidth m = 2%N /\ mheight m = 3%N /\ ~ wf m.
Proof.
  assert (Hx : [1;2] <> @nil Q) by discriminate.
  assert (Hf : Forall (fun ys => length ys = length [1;2]) [[3;4]]) by repeat constructor.
  pose proof (from_lists_cells 1 [1;2] [[3;4]] Hx Hf) as W. cbv zeta in W.
  destruct W as (m & Hm & Hw & Hh & _ & Hwf).
  exists m. split; [exact Hm|]. split; [exact Hw|]. split; [exact Hh|].
  rewrite Hwf. discriminate.
Defined.

(** X2 at the rows [{1,2}, {3}]. *)
Lemma from_lists_nonuniform_witness :
  from_lists (replicate 0 [] ++ [1;2] :: [[3]]) = inl nonuniform_width.
Proof.
  assert (Hx : [1;2] <> @nil Q) by discriminate.
  apply (proj2 (from_lists_nonuniform 0 [1;2] [[3]] Hx)).
  exists [3]. split; [left; reflexivity | discriminate].
Defined.

(** X4 at [A = {{1,2,3},{4,5,6},{7,8,9}}] and [k = 2]. *)
Lemma scalar_mul_cells_witness :
  (exists m, scalar_mul ∅ (OMat (SVal A3)) 2 = inr m /\ mwidth m = 3%N /\ mheight m = 3%N) /\
  (exists m, negate ∅ (OMat (SVal A3)) = inr m /\ mwidth m = 3%N /\ mheight m = 3%N).
Proof.
  destruct (scalar_mul_cells ∅ (OMat (SVal A3)) (cells_present_wf ∅ A3 wf_A3))
    as [Hk (n & Hn & Hnw & Hnh & _)].
  destruct (Hk 2) as (m & Hm & Hmw & Hmh & _).
  split; [exists m | exists n]; auto.
Defined.

(** X5 at [A = {{1,2,3},{4,5,6},{7,8,9}}] and [k = 2]. *)
Lemma scalar_div_cells_witness :
  exists m, scalar_div ∅ (OMat (SVal A3)) 2 = inr m /\ mwidth m = 3%N /\ mheight m = 3%N.
Proof.
  destruct (scalar_div_cells ∅ (OMat (SVal A3)) 2 (cells_present_wf ∅ A3 wf_A3))
    as (m & Hm & Hmw & Hmh & _).
  exists m. auto.
Defined.

(** X6 at a 1 x 1 Matrix value without its cell (1, 1). *)
Lemma missing_cell_out_of_range_witness :
  copy_obj ∅ (OMat (SVal (mkMatrix ∅ 1 1 : @Matrix Q))) = inl out_of_range /\
  mat_add ∅ (OMat (SVal (mkMatrix ∅ 1 1 : @Matrix Q))) (OMat (SVal (of_rows [[1]]))) = inl out_of_range.
Proof.
  assert (Hr : (1 <= 1 <= obj_height ∅ (OMat (SVal (mkMatrix ∅ 1 1 : @Matrix Q))) /\
                1 <= 1 <= obj_width ∅ (OMat (SVal (mkMatrix ∅ 1 1 : @Matrix Q))))%N)
    by (simpl; lia).
  destruct (missing_cell_out_of_range ∅ (OMat (SVal (mkMatrix ∅ 1 1 : @Matrix Q))) 1 1 Hr eq_refl)
    as (Hc & _ & _ & _ & Ha & _).
  split; [exact Hc | apply Ha].
Defined.

(** X7 at [A + {{1,1,1},{1,1,1},{1,1,1}}]. *)
Lemma mat_add_cells_witness :
  exists m, mat_add ∅ (OMat (SVal A3)) (OMat (SVal (of_rows [[1;1;1];[1;1;1];[1;1;1]]))) = inr m /\
    mwidth m = 3%N /\ mheight m = 3%N.
Proof.
  assert (Hwf : wf (of_rows [[1;1;1];[1;1;1];[1;1;1]]))
    by (apply (bool_decide_unpack _); vm_compute; exact I).
  destruct (mat_add_cells ∅ (OMat (SVal A3)) (OMat (SVal (of_rows [[1;1;1];[1;1;1];[1;1;1]])))
              (cells_present_wf ∅ A3 wf_A3) (cells_present_wf ∅ _ Hwf)) as [_ Hs].
  destruct (Hs eq_refl eq_refl) as (m & Hm & Hmw & Hmh & _).
  exists m. auto.
Defined.

(** X8 at [A - {{1,1,1},{1,1,1},{1,1,1}}]. *)
Lemma mat_sub_cells_witness :
  exists m, mat_sub ∅ (OMat (SVal A3)) (OMat (SVal (of_rows [[1;1;1];[1;1;1];[1;1;1]]))) = inr m /\
    mwidth m = 3%N /\ mheight m = 3%N.
Proof.
  assert (Hwf : wf (of_rows [[1;1;1];[1;1;1];[1;1;1]]))
    by (apply (bool_decide_unpack _); vm_compute; exact I).
  destruct (mat_sub_cells ∅ (OMat (SVal A3)) (OMat (SVal (of_rows [[1;1;1];[1;1;1];[1;1;1]])))
              (cells_present_wf ∅ A3 wf_A3) (cells_present_wf ∅ _ Hwf)) as [_ Hs].
  destruct (Hs eq_refl eq_refl) as (m & Hm & Hmw & Hmh & _).
  exists m. auto.
Defined.

(** X9 at [{1234567}]: a one-column Matrix whose cell is printed with six
    significant digits. *)
Lemma from_list_column_witness :
  exists m, from_list [1234567] = inr m /\ mwidth m = 1%N /\ mheight m = 1%N /\
    numbers m !! (1%N, 1%N) = Some (round6 1234567).
Proof.
  assert (Hp : Forall (fun x => d_parses x = true) [1234567]) by repeat constructor.
  destruct (from_list_column [1234567] Hp) as (m & Hm & Hmw & Hmh & Hc).
  exists m. split; [exact Hm|]. split; [exact Hmw|]. split; [exact Hmh|].
  rewrite Hc. reflexivity.
Defined.

(** X10 at a Matrix value of width 0 and height 3. *)
Lemma transposed_degenerate_witness :
  transposed ∅ (OMat (SVal (mkMatrix ∅ 0 3 : @Matrix Q))) = inr empty_matrix.
Proof.
  apply transposed_degenerate. left. reflexivity.
Defined.

(** X11 at Matrix values of width 0 and heights 2 and 3. *)
Lemma vcat_zero_width_witness :
  vcat ∅ (OMat (SVal (mkMatrix ∅ 0 2 : @Matrix Q))) (OMat (SVal (mkMatrix ∅ 0 3 : @Matrix Q)))
  = inr empty_matrix.
Proof.
  apply vcat_zero_width; reflexivity.
Defined.

(** X12 at the lines [1 2], [], [3]. *)
Lemma from_stream_stops_witness :
  from_stream ([[TDouble 1; TDouble 2]] ++ [] :: [[TDouble 3]]) = from_stream [[TDouble 1; TDouble 2]].
Proof.
  apply from_stream_stops. constructor; [discriminate | constructor].
Defined.

(** X14 at [A > "R2" /= 2]. *)
Lemma divide_assign_view_witness :
  exists m', divide_assign (OView vR2) 2 hA = (<[1%N := m']> hA, inr tt) /\
    mwidth m' = 3%N /\ mheight m' = 3%N.
Proof.
  assert (Hd : mheight A3 = 3%N /\ mwidth A3 = 3%N) by (split; reflexivity).
  destruct (divide_assign_view hA 1 A3 2 1 2 3 vR2 2) as (m' & Hr & Hw & Hh & _).
  - reflexivity.
  - exact wf_A3.
  - destruct Hd as [-> _]. lia.
  - destruct Hd as [_ ->]. lia.
  - destruct Hd as [-> ->]. unfold word. lia.
  - vm_compute. reflexivity.
  - exists m'. rewrite Hw, Hh. auto.
Defined.

(** X15 at [A > "R2" += {{1,1,1}}] and [A > "R2" -= {{1,1,1}}]. *)
Lemma add_sub_assign_view_witness :
  (exists m', add_assign (OView vR2) (OMat (SVal (of_rows [[1;1;1]]))) hA = (<[1%N := m']> hA, inr tt)) /\
  (exists m', sub_assign (OView vR2) (OMat (SVal (of_rows [[1;1;1]]))) hA = (<[1%N := m']> hA, inr tt)).
Proof.
  assert (Hd : mheight A3 = 3%N /\ mwidth A3 = 3%N) by (split; reflexivity).
  assert (Hx : wf (of_rows [[1;1;1]])) by (apply (bool_decide_unpack _); vm_compute; exact I).
  destruct (add_sub_assign_view hA 1 A3 (of_rows [[1;1;1]]) 2 1 2 3 vR2)
    as [(m' & Ha & _) (m'' & Hs & _)].
  - reflexivity.
  - exact wf_A3.
  - exact Hx.
  - destruct Hd as [-> _]. lia.
  - destruct Hd as [_ ->]. lia.
  - destruct Hd as [-> ->]. unfold word. lia.
  - vm_compute. reflexivity.
  - split; reflexivity.
  - split; [exists m' | exists m'']; assumption.
Defined.

(** X16 at [A += {{1,2}}] and [A -= {{1,2}}]. *)
Lemma compound_assign_mismatch_witness :
  add_assign (OMat (SLoc 1)) (OMat (SVal (of_rows [[1;2]]))) hA = (hA, inl unlike_dimensions) /\
  sub_assign (OMat (SLoc 1)) (OMat (SVal (of_rows [[1;2]]))) hA = (hA, inl unlike_dimensions).
Proof.
  assert (Hx : wf (of_rows [[1;2]])) by (apply (bool_decide_unpack _); vm_compute; exact I).
  assert (Hn : ~ (obj_width hA (OMat (SLoc 1)) = obj_width hA (OMat (SVal (of_rows [[1;2]]))) /\
                  obj_height hA (OMat (SLoc 1)) = obj_height hA (OMat (SVal (of_rows [[1;2]])))))
    by (intros [E _]; vm_compute in E; discriminate E).
  destruct (compound_assign_mismatch hA (OMat (SLoc 1)) (OMat (SVal (of_rows [[1;2]]))) Hn) as [Ha Hs].
  split; [exact Ha | apply Hs, cells_present_wf, Hx].
Defined.

(** X17 at [A > "R2"] and [A > "C2"]. *)
Lemma address_row_column_witness :
  (exists v, address hA (OMat (SLoc 1)) "R2"%string = inr v /\ vheight v = 1%N /\ vwidth v = 3%N) /\
  (exists v, address hA (OMat (SLoc 1)) "C2"%string = inr v /\ vwidth v = 1%N /\ vheight v = 3%N).
Proof.
  assert (Hd : obj_height hA (OMat (SLoc 1)) = 3%N /\ obj_width hA (OMat (SLoc 1)) = 3%N)
    by (split; vm_compute; reflexivity).
  assert (Hs : stoll "2" = inr 2%Z) by (vm_compute; reflexivity).
  assert (Hh : (1 <= obj_height hA (OMat (SLoc 1)) < word)%N) by (destruct Hd as [-> _]; unfold word; lia).
  assert (Hw : (1 <= obj_width hA (OMat (SLoc 1)) < word)%N) by (destruct Hd as [_ ->]; unfold word; lia).
  pose proof (address_row_column hA (OMat (SLoc 1)) "2" 2 Hs Hh Hw) as W. cbv zeta in W.
  replace (Z.to_N (2 mod 2 ^ 64)) with 2%N in W by reflexivity.
  destruct Hd as [Eh Ew]. rewrite Eh, Ew in W. destruct W as [Wr Wc].
  destruct (Wr ltac:(lia)) as (v & Hv & Hvh & Hvw & _).
  destruct (Wc ltac:(lia)) as (v' & Hv' & Hvw' & Hvh' & _).
  split; [exists v | exists v']; auto.
Defined.

(** X18 at [A > "R-1"]. *)
Lemma address_negative_witness :
  address hA (OMat (SLoc 1)) "R-1"%string = inl view_outside.
Proof.
  assert (Hd : obj_height hA (OMat (SLoc 1)) = 3%N /\ obj_width hA (OMat (SLoc 1)) = 3%N)
    by (split; vm_compute; reflexivity).
  assert (Hs : stoll "-1" = inr (-1)%Z) by (vm_compute; reflexivity).
  apply (address_negative hA (OMat (SLoc 1)) "-1" (-1) "R"%char Hs).
  - lia.
  - destruct Hd as [-> _]. lia.
  - destruct Hd as [_ ->]. lia.
  - left. reflexivity.
Defined.

(** X19 at [A = {{1,2,3}}]: [A > "R1"] restricted to the columns 2..3,
    assigned the columns 1..2, leaves [A = {{1,1,1}}]. *)
Lemma view_assign_overlap_witness :
  exists m', view_assign (mkView (SLoc 1) 1 2 2 1) (OView (mkView (SLoc 1) 1 1 2 1)) hR
             = (<[1%N := m']> hR, inr tt) /\
    numbers m' !! (1%N, 2%N) = Some 1 /\ numbers m' !! (1%N, 3%N) = Some 1.
Proof.
  assert (Hwf : wf (of_rows [[1;2;3]])) by (apply (bool_decide_unpack _); vm_compute; exact I).
  destruct (view_assign_overlap hR 1 (of_rows [[1;2;3]]) 3 (mkView (SLoc 1) 1 2 2 1) (mkView (SLoc 1) 1 1 2 1))
    as (m' & Hr & _ & _ & Hc).
  - reflexivity.
  - exact Hwf.
  - reflexivity.
  - reflexivity.
  - unfold word. lia.
  - vm_compute. reflexivity.
  - vm_compute. reflexivity.
  - exists m'. split; [exact Hr|]. rewrite !Hc. split; vm_compute; reflexivity.
Defined.

